(** * A shallow embedding of the PLC runtime core

    The development follows the C sources of the controller:

    - [variables.c]: the typed variable store ([load_variables],
      [find_variable], [parse_variable_name], [read_variable],
      [write_variable], [read_numeric_variable], [write_numeric_variable]);
    - [ladder_elements.c]: contacts, coils, math, compares, counters, timers
      and the two engine-private tables [one_shot_states] and [timer_states];
    - [conf_task_manager.c]: the wire interpreter ([process_node],
      [process_nodes], [process_coil], the body of [process_block_task]) and
      the chunked configuration ingestor ([configure], [delete_all_tasks]).

    Conventions.  A C [double] is a binary64 primitive float.  A [char *] that
    may be [NULL] is an [option string]; a [cJSON *] is an [option cJSON].
    Every C function that touches module-level state is a function in the
    state-and-error monad [M]; dereferencing [NULL], calling [strcmp] or
    [strdup] on [NULL], writing past a fixed buffer, or using a variable
    through a pointer of the wrong struct type ends in [Fault].  The answers
    of the platform (heap, task creation, pin drivers, the microsecond clock,
    the JSON parser) are inputs of the model. *)

From Stdlib Require Import List String Ascii ZArith Bool Lia PeanoNat Floats.
Import ListNotations.

Set Implicit Arguments.
Set Warnings "-register-all".

Local Open Scope string_scope.
Local Open Scope list_scope.

(* ================================================================== *)
(** * C strings *)
(* ================================================================== *)

(** [#define MAX_VAR_NAME_LENGTH 64] (variables.h). *)
Definition MAX_VAR_NAME_LENGTH : nat := 64.

(** [strcmp(a, b) == 0]. *)
Definition streq (a b : string) : bool := String.eqb a b.

(** [strncpy(dst, src, n); dst[n] = 0]: the first [n] characters of [src]. *)
Definition strncpy (src : string) (n : nat) : string := substring 0 n src.

(** [strrchr(s, '.')]: the tail of [s] that starts at its last dot. *)
Fixpoint strrchr_dot (s : string) : option string :=
  match s with
  | EmptyString => None
  | String c s' =>
      match strrchr_dot s' with
      | Some t => Some t
      | None => if Ascii.eqb c "." then Some s else None
      end
  end.

(** The ten suffixes [parse_variable_name] recognises. *)
Definition recognized_suffix (dot : string) : bool :=
  streq dot ".CU" || streq dot ".CD" || streq dot ".QU" || streq dot ".QD" ||
  streq dot ".IN" || streq dot ".Q" || streq dot ".PV" || streq dot ".CV" ||
  streq dot ".PT" || streq dot ".ET".

(** [parse_variable_name(var_name, base_name, base_name_size, &suffix)].
    The result is the pair (base_name, suffix).  With a recognised suffix the
    code copies [base_len] characters and stores a terminator at
    [base_name[base_len]] without looking at [base_name_size]: that write is
    out of bounds when [base_len >= base_name_size], and the result is [None].
    Without a suffix the name is cut to [base_name_size - 1] characters. *)
Definition parse_variable_name (var_name : string) (base_name_size : nat)
  : option (string * option string) :=
  match strrchr_dot var_name with
  | Some dot =>
      if recognized_suffix dot then
        let base_len := String.length var_name - String.length dot in
        if (base_len <? base_name_size)%nat
        then Some (strncpy var_name base_len, Some dot)
        else None
      else Some (strncpy var_name (base_name_size - 1), None)
  | None => Some (strncpy var_name (base_name_size - 1), None)
  end.

(* ================================================================== *)
(** * The cJSON tree and the accessors the runtime calls *)
(* ================================================================== *)

(** A parsed cJSON item.  The parser itself belongs to the cJSON library and
    is a parameter of the platform; the accessors below follow the library. *)
Inductive cJSON : Type :=
| cJSON_NULL
| cJSON_False
| cJSON_True
| cJSON_Number (d : float)
| cJSON_String (s : string)
| cJSON_Array (items : list cJSON)
| cJSON_Object (members : list (string * cJSON)).

Definition tolower (c : ascii) : ascii :=
  let n := nat_of_ascii c in
  if ((65 <=? n) && (n <=? 90))%nat then ascii_of_nat (n + 32) else c.

(** cJSON's [case_insensitive_strcmp(a, b) == 0]. *)
Fixpoint case_insensitive_eq (a b : string) : bool :=
  match a, b with
  | EmptyString, EmptyString => true
  | String x a', String y b' =>
      Ascii.eqb (tolower x) (tolower y) && case_insensitive_eq a' b'
  | _, _ => false
  end.

Fixpoint get_object_item (members : list (string * cJSON)) (name : string)
  : option cJSON :=
  match members with
  | [] => None
  | (k, v) :: rest =>
      if case_insensitive_eq name k then Some v else get_object_item rest name
  end.

(** [cJSON_GetObjectItem]: first member whose key matches, case-insensitively;
    [NULL] for a [NULL] object and for items that carry no keyed children. *)
Definition cJSON_GetObjectItem (object : option cJSON) (name : string)
  : option cJSON :=
  match object with
  | Some (cJSON_Object members) => get_object_item members name
  | _ => None
  end.

(** The [child]/[next] chain of an item. *)
Definition cJSON_children (item : option cJSON) : list cJSON :=
  match item with
  | Some (cJSON_Array items) => items
  | Some (cJSON_Object members) => map snd members
  | _ => []
  end.

Definition cJSON_GetArraySize (array : option cJSON) : nat :=
  List.length (cJSON_children array).

Definition cJSON_GetArrayItem (array : option cJSON) (index : nat)
  : option cJSON :=
  nth_error (cJSON_children array) index.

Definition cJSON_IsString (item : option cJSON) : bool :=
  match item with Some (cJSON_String _) => true | _ => false end.

Definition cJSON_IsNumber (item : option cJSON) : bool :=
  match item with Some (cJSON_Number _) => true | _ => false end.

Definition cJSON_IsArray (item : option cJSON) : bool :=
  match item with Some (cJSON_Array _) => true | _ => false end.

Definition cJSON_IsObject (item : option cJSON) : bool :=
  match item with Some (cJSON_Object _) => true | _ => false end.

Definition cJSON_IsTrue (item : option cJSON) : bool :=
  match item with Some cJSON_True => true | _ => false end.

Definition cJSON_IsBool (item : option cJSON) : bool :=
  match item with Some cJSON_True | Some cJSON_False => true | _ => false end.

(** [item->valuestring]: [NULL] unless the item is a string. *)
Definition valuestring (item : cJSON) : option string :=
  match item with cJSON_String s => Some s | _ => None end.

(** [item->valuedouble]: zero unless the item is a number. *)
Definition valuedouble (item : cJSON) : float :=
  match item with cJSON_Number d => d | _ => 0%float end.

(* ================================================================== *)
(** * Variables (variables.h) *)
(* ================================================================== *)

Inductive VariableType : Type :=
| VAR_TYPE_DIGITAL_ANALOG_IO
| VAR_TYPE_ONE_WIRE
| VAR_TYPE_ADC_SENSOR
| VAR_TYPE_BOOLEAN
| VAR_TYPE_NUMBER
| VAR_TYPE_COUNTER
| VAR_TYPE_TIMER
| VAR_TYPE_TIME.

(** [struct Variable] ([Variable] is a reserved word here). *)
Record VariableBase : Type := { name : string; type : string }.

Record DigitalAnalogInputOutput : Type :=
  { daio_base : VariableBase; daio_pin_number : string }.

Record OneWireInput : Type :=
  { owi_base : VariableBase; owi_pin_number : string; owi_value : float }.

Record ADCSensor : Type :=
  { adcs_base : VariableBase; sensor_type : string; pd_sck : string;
    dout : string; map_low : float; map_high : float; gain : float;
    sampling_rate : string; adcs_value : float }.

Record Boolean : Type := { b_base : VariableBase; b_value : bool }.

Record Number : Type := { n_base : VariableBase; n_value : float }.

Record Counter : Type :=
  { c_base : VariableBase; pv : float; cv : float;
    cu : bool; cd : bool; qu : bool; qd : bool }.

Record Timer : Type :=
  { t_base : VariableBase; pt : float; et : float; in_ : bool; q : bool }.

Record Time : Type := { time_base : VariableBase; time_value : float }.

(** [VariableNode]: the [type] tag together with the struct [data] points to.
    [load_variables] is the only producer and always pairs a tag with the
    matching struct. *)
Inductive VariableNode : Type :=
| NodeDigitalAnalogIO (data : DigitalAnalogInputOutput)
| NodeOneWire (data : OneWireInput)
| NodeADCSensor (data : ADCSensor)
| NodeBoolean (data : Boolean)
| NodeNumber (data : Number)
| NodeCounter (data : Counter)
| NodeTimer (data : Timer)
| NodeTime (data : Time).

Definition node_type (node : VariableNode) : VariableType :=
  match node with
  | NodeDigitalAnalogIO _ => VAR_TYPE_DIGITAL_ANALOG_IO
  | NodeOneWire _ => VAR_TYPE_ONE_WIRE
  | NodeADCSensor _ => VAR_TYPE_ADC_SENSOR
  | NodeBoolean _ => VAR_TYPE_BOOLEAN
  | NodeNumber _ => VAR_TYPE_NUMBER
  | NodeCounter _ => VAR_TYPE_COUNTER
  | NodeTimer _ => VAR_TYPE_TIMER
  | NodeTime _ => VAR_TYPE_TIME
  end.

(** The [switch] of [find_variable]: the [Variable] base of any node. *)
Definition node_base (node : VariableNode) : VariableBase :=
  match node with
  | NodeDigitalAnalogIO d => daio_base d
  | NodeOneWire d => owi_base d
  | NodeADCSensor d => adcs_base d
  | NodeBoolean d => b_base d
  | NodeNumber d => n_base d
  | NodeCounter d => c_base d
  | NodeTimer d => t_base d
  | NodeTime d => time_base d
  end.

(** [VariablesList]: [nodes] is [NULL] or an array whose first [count]
    entries are in use; [count] is the length of the list. *)
Record VariablesList : Type :=
  { nodes : option (list VariableNode); capacity : nat }.

Definition count (l : VariablesList) : nat :=
  match nodes l with Some ns => List.length ns | None => 0 end.

(** The entries [for (i = 0; i < variables_list.count; i++)] visits. *)
Definition entries (l : VariablesList) : list VariableNode :=
  match nodes l with Some ns => ns | None => [] end.

(** [variables_list = {0}] and the effect of [variables_list_init]. *)
Definition empty_list : VariablesList := {| nodes := None; capacity := 0 |}.

(* ================================================================== *)
(** * Engine-private tables (ladder_elements.c) and task records *)
(* ================================================================== *)

Definition MAX_ONE_SHOT_STATES : nat := 64.
Definition MAX_TIMER_STATES : nat := 32.

Record OneShotState : Type := { os_var_name : string; prev_state : bool }.

Record TimerState : Type :=
  { ts_var_name : string; start_time : Z; running : bool }.

(** [TaskInfo] of conf_task_manager.c; [handle] records whether the task
    handle is non-[NULL]. *)
Record TaskInfo : Type := { handle : bool; wire_copy : option cJSON }.

(* ================================================================== *)
(** * The platform *)
(* ================================================================== *)

(** What the core consumes from the pin drivers (device_config.c over the
    GPIO hardware), the monotonic clock and the cJSON parser.
    [clock n] is what the [n]-th call of [esp_timer_get_time] since boot
    returns; [cJSON_Parse] receives the bytes of the buffer up to its
    terminating NUL. *)
Class Platform : Type :=
  { hw : Type;
    device_init : option cJSON -> hw -> hw;
    get_digital_input_value : hw -> string -> bool;
    get_digital_output_value : hw -> string -> bool;
    set_digital_output_value : hw -> string -> bool -> hw;
    clock : nat -> Z;
    cJSON_Parse : list ascii -> option cJSON }.

(** [get_analog_output_value] and [set_analog_output_value] are stubs in
    device_config.c: the first returns -1, the second does nothing. *)
Definition get_analog_output_value (pin_name : string) : float := (-1)%float.

(** How a call ends: with a result, in undefined behaviour ([Fault]), or,
    for the interpreter of nested wire nodes only, with its recursion budget
    used up. *)
Inductive outcome (A : Type) : Type :=
| Ok (a : A)
| Fault
| OutOfFuel.

Arguments Fault {A}.
Arguments OutOfFuel {A}.

Section Runtime.

Context {P : Platform}.

(** All module-level state of variables.c, ladder_elements.c and
    conf_task_manager.c, the pin hardware, the number of clock readings taken
    so far, and the persisted blob ("storage", "json_config"). *)
Record State : Type :=
  { hardware : hw;
    variables_list : VariablesList;
    one_wire_task_handle : bool;
    adc_sensor_task_handle : bool;
    one_shot_states : list OneShotState;
    timer_states : list TimerState;
    clock_reads : nat;
    config_timeout_timer : option bool;
    large_buffer : option (list ascii);
    total_received : nat;
    tasks : option (list TaskInfo);
    nvs_json_config : option (list ascii) }.

Definition set_hardware (h : hw) (s : State) : State :=
  {| hardware := h; variables_list := variables_list s;
     one_wire_task_handle := one_wire_task_handle s;
     adc_sensor_task_handle := adc_sensor_task_handle s;
     one_shot_states := one_shot_states s; timer_states := timer_states s;
     clock_reads := clock_reads s;
     config_timeout_timer := config_timeout_timer s;
     large_buffer := large_buffer s; total_received := total_received s;
     tasks := tasks s; nvs_json_config := nvs_json_config s |}.

Definition set_variables_list (l : VariablesList) (s : State) : State :=
  {| hardware := hardware s; variables_list := l;
     one_wire_task_handle := one_wire_task_handle s;
     adc_sensor_task_handle := adc_sensor_task_handle s;
     one_shot_states := one_shot_states s; timer_states := timer_states s;
     clock_reads := clock_reads s;
     config_timeout_timer := config_timeout_timer s;
     large_buffer := large_buffer s; total_received := total_received s;
     tasks := tasks s; nvs_json_config := nvs_json_config s |}.

Definition set_sampler_tasks (ow adc : bool) (s : State) : State :=
  {| hardware := hardware s; variables_list := variables_list s;
     one_wire_task_handle := ow;
     adc_sensor_task_handle := adc;
     one_shot_states := one_shot_states s; timer_states := timer_states s;
     clock_reads := clock_reads s;
     config_timeout_timer := config_timeout_timer s;
     large_buffer := large_buffer s; total_received := total_received s;
     tasks := tasks s; nvs_json_config := nvs_json_config s |}.

Definition set_one_shot_states (t : list OneShotState) (s : State) : State :=
  {| hardware := hardware s; variables_list := variables_list s;
     one_wire_task_handle := one_wire_task_handle s;
     adc_sensor_task_handle := adc_sensor_task_handle s;
     one_shot_states := t; timer_states := timer_states s;
     clock_reads := clock_reads s;
     config_timeout_timer := config_timeout_timer s;
     large_buffer := large_buffer s; total_received := total_received s;
     tasks := tasks s; nvs_json_config := nvs_json_config s |}.

Definition set_timer_states (t : list TimerState) (s : State) : State :=
  {| hardware := hardware s; variables_list := variables_list s;
     one_wire_task_handle := one_wire_task_handle s;
     adc_sensor_task_handle := adc_sensor_task_handle s;
     one_shot_states := one_shot_states s; timer_states := t;
     clock_reads := clock_reads s;
     config_timeout_timer := config_timeout_timer s;
     large_buffer := large_buffer s; total_received := total_received s;
     tasks := tasks s; nvs_json_config := nvs_json_config s |}.

Definition set_clock_reads (n : nat) (s : State) : State :=
  {| hardware := hardware s; variables_list := variables_list s;
     one_wire_task_handle := one_wire_task_handle s;
     adc_sensor_task_handle := adc_sensor_task_handle s;
     one_shot_states := one_shot_states s; timer_states := timer_states s;
     clock_reads := n;
     config_timeout_timer := config_timeout_timer s;
     large_buffer := large_buffer s; total_received := total_received s;
     tasks := tasks s; nvs_json_config := nvs_json_config s |}.

Definition set_config_timeout_timer (t : option bool) (s : State) : State :=
  {| hardware := hardware s; variables_list := variables_list s;
     one_wire_task_handle := one_wire_task_handle s;
     adc_sensor_task_handle := adc_sensor_task_handle s;
     one_shot_states := one_shot_states s; timer_states := timer_states s;
     clock_reads := clock_reads s;
     config_timeout_timer := t;
     large_buffer := large_buffer s; total_received := total_received s;
     tasks := tasks s; nvs_json_config := nvs_json_config s |}.

Definition set_buffer (b : option (list ascii)) (n : nat) (s : State) : State :=
  {| hardware := hardware s; variables_list := variables_list s;
     one_wire_task_handle := one_wire_task_handle s;
     adc_sensor_task_handle := adc_sensor_task_handle s;
     one_shot_states := one_shot_states s; timer_states := timer_states s;
     clock_reads := clock_reads s;
     config_timeout_timer := config_timeout_timer s;
     large_buffer := b; total_received := n;
     tasks := tasks s; nvs_json_config := nvs_json_config s |}.

Definition set_tasks (t : option (list TaskInfo)) (s : State) : State :=
  {| hardware := hardware s; variables_list := variables_list s;
     one_wire_task_handle := one_wire_task_handle s;
     adc_sensor_task_handle := adc_sensor_task_handle s;
     one_shot_states := one_shot_states s; timer_states := timer_states s;
     clock_reads := clock_reads s;
     config_timeout_timer := config_timeout_timer s;
     large_buffer := large_buffer s; total_received := total_received s;
     tasks := t; nvs_json_config := nvs_json_config s |}.

Definition set_nvs_json_config (b : option (list ascii)) (s : State) : State :=
  {| hardware := hardware s; variables_list := variables_list s;
     one_wire_task_handle := one_wire_task_handle s;
     adc_sensor_task_handle := adc_sensor_task_handle s;
     one_shot_states := one_shot_states s; timer_states := timer_states s;
     clock_reads := clock_reads s;
     config_timeout_timer := config_timeout_timer s;
     large_buffer := large_buffer s; total_received := total_received s;
     tasks := tasks s; nvs_json_config := b |}.

(* ================================================================== *)
(** * The state-and-error monad *)
(* ================================================================== *)

Definition M (A : Type) : Type := State -> outcome (A * State).

Definition ret {A} (a : A) : M A := fun s => Ok (a, s).

Definition bind {A B} (m : M A) (f : A -> M B) : M B :=
  fun s =>
    match m s with
    | Ok (a, s') => f a s'
    | Fault => Fault
    | OutOfFuel => OutOfFuel
    end.

Definition get : M State := fun s => Ok (s, s).

Definition modify (f : State -> State) : M unit := fun s => Ok (tt, f s).

Definition fault {A} : M A := fun _ => Fault.

(** Use of a pointer: [Fault] when it is [NULL]. *)
Definition deref {A} (p : option A) : M A :=
  match p with Some a => ret a | None => fault end.

End Runtime.

Notation "x <- c1 ;; c2" := (bind c1 (fun x => c2))
  (at level 61, c1 at next level, right associativity).
Notation "c1 ;;; c2" := (bind c1 (fun _ => c2))
  (at level 61, right associativity).

(* ================================================================== *)
(** * The variable store (variables.c) *)
(* ================================================================== *)

(** What the heap, the ADC driver and the task scheduler answer during one
    call of [load_variables]: whether the [calloc] of the node array and the
    allocation of the struct of the [i]-th array entry succeed, whether
    [adc_sensor_init] returns [ESP_OK], and whether the two [xTaskCreate]
    calls return [pdPASS]. *)
Record LoadEnv : Type :=
  { calloc_nodes_ok : bool;
    alloc_ok : nat -> bool;
    adc_sensor_init_ok : string -> string -> string -> bool;
    one_wire_task_created : bool;
    adc_sensor_task_created : bool }.

Fixpoint list_set {A} (l : list A) (i : nat) (x : A) : list A :=
  match l, i with
  | [], _ => []
  | _ :: t, O => x :: t
  | h :: t, S j => h :: list_set t j x
  end.

Fixpoint find_index (ns : list VariableNode) (search_name : string)
  : option (nat * VariableNode) :=
  match ns with
  | [] => None
  | n :: rest =>
      if streq (name (node_base n)) search_name then Some (O, n)
      else match find_index rest search_name with
           | Some (i, m) => Some (S i, m)
           | None => None
           end
  end.

Definition set_cv (c : Counter) (v : float) : Counter :=
  {| c_base := c_base c; pv := pv c; cv := v;
     cu := cu c; cd := cd c; qu := qu c; qd := qd c |}.
Definition set_pv (c : Counter) (v : float) : Counter :=
  {| c_base := c_base c; pv := v; cv := cv c;
     cu := cu c; cd := cd c; qu := qu c; qd := qd c |}.
Definition set_cu (c : Counter) (v : bool) : Counter :=
  {| c_base := c_base c; pv := pv c; cv := cv c;
     cu := v; cd := cd c; qu := qu c; qd := qd c |}.
Definition set_cd (c : Counter) (v : bool) : Counter :=
  {| c_base := c_base c; pv := pv c; cv := cv c;
     cu := cu c; cd := v; qu := qu c; qd := qd c |}.
Definition set_qu (c : Counter) (v : bool) : Counter :=
  {| c_base := c_base c; pv := pv c; cv := cv c;
     cu := cu c; cd := cd c; qu := v; qd := qd c |}.
Definition set_qd (c : Counter) (v : bool) : Counter :=
  {| c_base := c_base c; pv := pv c; cv := cv c;
     cu := cu c; cd := cd c; qu := qu c; qd := v |}.

Definition set_pt (t : Timer) (v : float) : Timer :=
  {| t_base := t_base t; pt := v; et := et t; in_ := in_ t; q := q t |}.
Definition set_et (t : Timer) (v : float) : Timer :=
  {| t_base := t_base t; pt := pt t; et := v; in_ := in_ t; q := q t |}.
Definition set_in (t : Timer) (v : bool) : Timer :=
  {| t_base := t_base t; pt := pt t; et := et t; in_ := v; q := q t |}.
Definition set_q (t : Timer) (v : bool) : Timer :=
  {| t_base := t_base t; pt := pt t; et := et t; in_ := in_ t; q := v |}.

Section Variables.

Context {P : Platform}.

(** [variables_list_free].  The early return on [nodes == NULL] also skips
    the deletion of the two sampler tasks.  The table of ADC sensor states it
    clears belongs to adc_sensor.c and is not part of this model. *)
Definition variables_list_free : M unit :=
  s <- get ;;
  match nodes (variables_list s) with
  | None => ret tt
  | Some _ =>
      modify (set_variables_list empty_list) ;;;
      modify (set_sampler_tasks false false)
  end.

Definition variables_list_init : M unit :=
  modify (set_variables_list empty_list).

(** [variables_list_add]: store at [nodes[count]] and increment [count]. *)
Definition variables_list_add (node : VariableNode) : M bool :=
  s <- get ;;
  ns <- deref (nodes (variables_list s)) ;;
  modify (set_variables_list
            {| nodes := Some (ns ++ [node]);
               capacity := capacity (variables_list s) |}) ;;;
  ret true.

(** The [if]/[else if] chain over ["Type"]. *)
Definition var_type_of (type_str : string) : VariableType :=
  if streq type_str "Digital Input" || streq type_str "Digital Output" ||
     streq type_str "Analog Input" || streq type_str "Analog Output"
  then VAR_TYPE_DIGITAL_ANALOG_IO
  else if streq type_str "One Wire Input" then VAR_TYPE_ONE_WIRE
  else if streq type_str "ADC Sensor" then VAR_TYPE_ADC_SENSOR
  else if streq type_str "Boolean" then VAR_TYPE_BOOLEAN
  else if streq type_str "Number" then VAR_TYPE_NUMBER
  else if streq type_str "Counter" then VAR_TYPE_COUNTER
  else if streq type_str "Timer" then VAR_TYPE_TIMER
  else VAR_TYPE_TIME.

(** [strdup(cJSON_GetObjectItem(var, key)->valuestring)]. *)
Definition field_string (var : cJSON) (key : string) : M string :=
  item <- deref (cJSON_GetObjectItem (Some var) key) ;;
  deref (valuestring item).

(** [cJSON_GetObjectItem(var, key)->valuedouble]. *)
Definition field_double (var : cJSON) (key : string) : M float :=
  item <- deref (cJSON_GetObjectItem (Some var) key) ;;
  ret (valuedouble item).

(** [cJSON_IsTrue(cJSON_GetObjectItem(var, key))]. *)
Definition field_true (var : cJSON) (key : string) : bool :=
  cJSON_IsTrue (cJSON_GetObjectItem (Some var) key).

(** The struct built for one array entry once its allocation succeeded.  The
    result is [None] for an ADC sensor whose initialisation failed: the
    [continue] that skips the entry. *)
Definition build_variable (env : LoadEnv) (var : cJSON)
    (var_type : VariableType) (type_str : string) (name_ptr : option string)
  : M (option VariableNode) :=
  nm <- deref name_ptr ;;
  let base := {| name := nm; type := type_str |} in
  match var_type with
  | VAR_TYPE_DIGITAL_ANALOG_IO =>
      pin <- field_string var "Pin" ;;
      ret (Some (NodeDigitalAnalogIO
                   {| daio_base := base; daio_pin_number := pin |}))
  | VAR_TYPE_ONE_WIRE =>
      pin <- field_string var "Pin" ;;
      ret (Some (NodeOneWire
                   {| owi_base := base; owi_pin_number := pin;
                      owi_value := 0%float |}))
  | VAR_TYPE_ADC_SENSOR =>
      st <- field_string var "Sensor Type" ;;
      sck <- field_string var "PD_SCK" ;;
      dt <- field_string var "DOUT" ;;
      lo <- field_double var "Map Low" ;;
      hi <- field_double var "Map High" ;;
      g <- field_double var "Gain" ;;
      sr <- field_string var "Sampling Rate" ;;
      if adc_sensor_init_ok env st sck dt
      then ret (Some (NodeADCSensor
                        {| adcs_base := base; sensor_type := st;
                           pd_sck := sck; dout := dt; map_low := lo;
                           map_high := hi; gain := g; sampling_rate := sr;
                           adcs_value := 0%float |}))
      else ret None
  | VAR_TYPE_BOOLEAN =>
      ret (Some (NodeBoolean
                   {| b_base := base; b_value := field_true var "Value" |}))
  | VAR_TYPE_NUMBER =>
      v <- field_double var "Value" ;;
      ret (Some (NodeNumber {| n_base := base; n_value := v |}))
  | VAR_TYPE_COUNTER =>
      p <- field_double var "PV" ;;
      c <- field_double var "CV" ;;
      ret (Some (NodeCounter
                   {| c_base := base; pv := p; cv := c;
                      cu := field_true var "CU"; cd := field_true var "CD";
                      qu := field_true var "QU"; qd := field_true var "QD" |}))
  | VAR_TYPE_TIMER =>
      p <- field_double var "PT" ;;
      e <- field_double var "ET" ;;
      ret (Some (NodeTimer
                   {| t_base := base; pt := p; et := e;
                      in_ := field_true var "IN"; q := field_true var "Q" |}))
  | VAR_TYPE_TIME =>
      v <- field_double var "Value" ;;
      ret (Some (NodeTime {| time_base := base; time_value := v |}))
  end.

(** The body of [cJSON_ArrayForEach(var, variables)] for the entries from
    position [i] on.  The result is [false] when the function returned
    [false] from inside the loop. *)
Fixpoint load_entries (env : LoadEnv) (vars : list cJSON) (i : nat)
  : M bool :=
  match vars with
  | [] => ret true
  | var :: rest =>
      type_item <- deref (cJSON_GetObjectItem (Some var) "Type") ;;
      name_item <- deref (cJSON_GetObjectItem (Some var) "Name") ;;
      type_str <- deref (valuestring type_item) ;;
      let var_type := var_type_of type_str in
      if alloc_ok env i then
        data <- build_variable env var var_type type_str
                  (valuestring name_item) ;;
        match data with
        | None => load_entries env rest (S i)
        | Some node =>
            added <- variables_list_add node ;;
            if added then load_entries env rest (S i)
            else variables_list_free ;;; ret false
        end
      else variables_list_free ;;; ret false
  end.

Definition is_one_wire (n : VariableNode) : bool :=
  match n with NodeOneWire _ => true | _ => false end.

Definition is_adc_sensor (n : VariableNode) : bool :=
  match n with NodeADCSensor _ => true | _ => false end.

(** The block "Create one_wire_read_task only if needed" of
    [load_variables]; the result is [false] when the function returned
    [false] there. *)
Definition create_one_wire_task (env : LoadEnv) : M bool :=
  s <- get ;;
  if existsb is_one_wire (entries (variables_list s)) then
    if one_wire_task_created env
    then modify (set_sampler_tasks true (adc_sensor_task_handle s)) ;;;
         ret true
    else variables_list_free ;;; ret false
  else ret true.

(** The block "Create adc_sensor_read_task only if needed". *)
Definition create_adc_sensor_task (env : LoadEnv) : M bool :=
  s <- get ;;
  if existsb is_adc_sensor (entries (variables_list s)) then
    if adc_sensor_task_created env
    then modify (set_sampler_tasks (one_wire_task_handle s) true) ;;;
         ret true
    else variables_list_free ;;; ret false
  else ret true.

(** [load_variables]. *)
Definition load_variables (env : LoadEnv) (variables : option cJSON)
  : M bool :=
  variables_list_free ;;;
  variables_list_init ;;;
  let var_count := cJSON_GetArraySize variables in
  if calloc_nodes_ok env then
    modify (set_variables_list
              {| nodes := Some []; capacity := var_count |}) ;;;
    completed <- load_entries env (cJSON_children variables) 0 ;;
    if completed then
      one_wire_ok <- create_one_wire_task env ;;
      if one_wire_ok then create_adc_sensor_task env else ret false
    else ret false
  else ret false.

(** [find_variable]: the first node whose name equals [search_name], as its
    index in the array together with the node; [NULL] is [None]. *)
Definition find_variable (search_name : string)
  : M (option (nat * VariableNode)) :=
  s <- get ;;
  ret (find_index (entries (variables_list s)) search_name).

(** A store through the pointer [find_variable] returned. *)
Definition store_node (i : nat) (node : VariableNode) : M unit :=
  s <- get ;;
  modify (set_variables_list
            {| nodes := option_map (fun ns => list_set ns i node)
                          (nodes (variables_list s));
               capacity := capacity (variables_list s) |}).

Definition float_of_bool (b : bool) : float :=
  if b then 1%float else 0%float.

(** [read_variable]. *)
Definition read_variable (var_name : string) : M bool :=
  parsed <- deref (parse_variable_name var_name MAX_VAR_NAME_LENGTH) ;;
  let '(base_name, variable_parameter) := parsed in
  found <- find_variable base_name ;;
  node <- deref found ;;
  match snd node with
  | NodeDigitalAnalogIO dio =>
      s <- get ;;
      if streq (type (daio_base dio)) "Digital Input"
      then ret (get_digital_input_value (hardware s) (daio_pin_number dio))
      else if streq (type (daio_base dio)) "Digital Output"
      then ret (get_digital_output_value (hardware s) (daio_pin_number dio))
      else ret false
  | NodeBoolean b => ret (b_value b)
  | NodeCounter c =>
      param <- deref variable_parameter ;;
      if streq param ".CU" then ret (cu c)
      else if streq param ".CD" then ret (cd c)
      else if streq param ".QU" then ret (qu c)
      else if streq param ".QD" then ret (qd c)
      else ret false
  | NodeTimer t =>
      param <- deref variable_parameter ;;
      if streq param ".IN" then ret (in_ t)
      else if streq param ".Q" then ret (q t)
      else ret false
  | _ => ret false
  end.

(** [write_variable]. *)
Definition write_variable (var_name : string) (value : bool) : M unit :=
  parsed <- deref (parse_variable_name var_name MAX_VAR_NAME_LENGTH) ;;
  let '(base_name, variable_parameter) := parsed in
  found <- find_variable base_name ;;
  node <- deref found ;;
  let i := fst node in
  match snd node with
  | NodeDigitalAnalogIO dio =>
      modify (fun s => set_hardware
                (set_digital_output_value (hardware s)
                   (daio_pin_number dio) value) s)
  | NodeBoolean b =>
      store_node i (NodeBoolean {| b_base := b_base b; b_value := value |})
  | NodeCounter c =>
      param <- deref variable_parameter ;;
      if streq param ".CU" then store_node i (NodeCounter (set_cu c value))
      else if streq param ".CD" then store_node i (NodeCounter (set_cd c value))
      else if streq param ".QU" then store_node i (NodeCounter (set_qu c value))
      else if streq param ".QD" then store_node i (NodeCounter (set_qd c value))
      else ret tt
  | NodeTimer t =>
      param <- deref variable_parameter ;;
      if streq param ".IN" then store_node i (NodeTimer (set_in t value))
      else if streq param ".Q" then store_node i (NodeTimer (set_q t value))
      else ret tt
  | _ => ret tt
  end.

(** [read_numeric_variable].  An ["Analog Input"] is read through
    [get_digital_input_value], as in the source. *)
Definition read_numeric_variable (var_name : string) : M float :=
  parsed <- deref (parse_variable_name var_name MAX_VAR_NAME_LENGTH) ;;
  let '(base_name, variable_parameter) := parsed in
  found <- find_variable base_name ;;
  node <- deref found ;;
  match snd node with
  | NodeDigitalAnalogIO dio =>
      s <- get ;;
      if streq (type (daio_base dio)) "Analog Input"
      then ret (float_of_bool
                  (get_digital_input_value (hardware s) (daio_pin_number dio)))
      else if streq (type (daio_base dio)) "Analog Output"
      then ret (get_analog_output_value (daio_pin_number dio))
      else ret 0%float
  | NodeOneWire owi => ret (owi_value owi)
  | NodeADCSensor adcs => ret (adcs_value adcs)
  | NodeNumber n => ret (n_value n)
  | NodeTime t => ret (time_value t)
  | NodeCounter c =>
      param <- deref variable_parameter ;;
      if streq param ".PV" then ret (pv c)
      else if streq param ".CV" then ret (cv c)
      else ret 0%float
  | NodeTimer t =>
      param <- deref variable_parameter ;;
      if streq param ".PT" then ret (pt t)
      else if streq param ".ET" then ret (et t)
      else ret 0%float
  | NodeBoolean _ => ret 0%float
  end.

(** [write_numeric_variable].  For a digital/analog I/O variable the value is
    rounded, clamped to 0..255 and handed to [set_analog_output_value], which
    is a stub that does nothing. *)
Definition write_numeric_variable (var_name : string) (value : float)
  : M unit :=
  parsed <- deref (parse_variable_name var_name MAX_VAR_NAME_LENGTH) ;;
  let '(base_name, variable_parameter) := parsed in
  found <- find_variable base_name ;;
  node <- deref found ;;
  let i := fst node in
  match snd node with
  | NodeDigitalAnalogIO dio => ret tt
  | NodeNumber n =>
      store_node i (NodeNumber {| n_base := n_base n; n_value := value |})
  | NodeTime t =>
      store_node i (NodeTime {| time_base := time_base t;
                                time_value := value |})
  | NodeCounter c =>
      param <- deref variable_parameter ;;
      if streq param ".PV" then store_node i (NodeCounter (set_pv c value))
      else if streq param ".CV" then store_node i (NodeCounter (set_cv c value))
      else ret tt
  | NodeTimer t =>
      param <- deref variable_parameter ;;
      if streq param ".PT" then store_node i (NodeTimer (set_pt t value))
      else if streq param ".ET" then store_node i (NodeTimer (set_et t value))
      else ret tt
  | _ => ret tt
  end.

(** What the heap answers during [read_variables_json] and
    [send_variables_to_parents]: whether the root item is created, whether
    the object of the [i]-th variable is created, whether the member [key] of
    the [i]-th variable is added (the [cJSON_Add...ToObject] calls, whose
    results the code ignores), and whether the text can be printed. *)
Record JsonEnv : Type :=
  { create_root_ok : bool;
    create_object_ok : nat -> bool;
    member_added : nat -> string -> bool;
    print_ok : bool }.

(** [cJSON_Add...ToObject(var_json, key, ...)] for the [i]-th variable. *)
Definition add_member (env : JsonEnv) (i : nat) (key : string)
    (value : cJSON) (members : list (string * cJSON))
  : list (string * cJSON) :=
  if member_added env i key then members ++ [(key, value)] else members.

(** [cJSON_CreateBool]. *)
Definition cJSON_CreateBool (b : bool) : cJSON :=
  if b then cJSON_True else cJSON_False.

(** The [switch] of [read_variables_json]: the members of the object of one
    variable.  A digital or analog I/O variable is read through the accessor
    of its name at that moment. *)
Definition snapshot_members (env : JsonEnv) (i : nat) (node : VariableNode)
  : M (list (string * cJSON)) :=
  let add := add_member env i in
  let head (base : VariableBase) :=
    add "Name" (cJSON_String (name base))
      (add "Type" (cJSON_String (type base)) []) in
  match node with
  | NodeDigitalAnalogIO dio =>
      let base := daio_base dio in
      let members :=
        add "Pin" (cJSON_String (daio_pin_number dio)) (head base) in
      if streq (type base) "Digital Input" ||
         streq (type base) "Digital Output" then
        v <- read_variable (name base) ;;
        ret (add "Value" (cJSON_Number (float_of_bool v)) members)
      else if streq (type base) "Analog Input" ||
              streq (type base) "Analog Output" then
        v <- read_numeric_variable (name base) ;;
        ret (add "Value" (cJSON_Number v) members)
      else ret members
  | NodeOneWire owi =>
      ret (add "Value" (cJSON_Number (owi_value owi))
             (add "Pin" (cJSON_String (owi_pin_number owi))
                (head (owi_base owi))))
  | NodeADCSensor adcs =>
      ret (add "Value" (cJSON_Number (adcs_value adcs))
             (add "SamplingRate" (cJSON_String (sampling_rate adcs))
                (add "Gain" (cJSON_Number (gain adcs))
                   (add "MapHigh" (cJSON_Number (map_high adcs))
                      (add "MapLow" (cJSON_Number (map_low adcs))
                         (add "DOUT" (cJSON_String (dout adcs))
                            (add "PD_SCK" (cJSON_String (pd_sck adcs))
                               (add "SensorType"
                                  (cJSON_String (sensor_type adcs))
                                  (head (adcs_base adcs))))))))))
  | NodeBoolean b =>
      ret (add "Value" (cJSON_CreateBool (b_value b)) (head (b_base b)))
  | NodeNumber n =>
      ret (add "Value" (cJSON_Number (n_value n)) (head (n_base n)))
  | NodeCounter c =>
      ret (add "QD" (cJSON_CreateBool (qd c))
             (add "QU" (cJSON_CreateBool (qu c))
                (add "CD" (cJSON_CreateBool (cd c))
                   (add "CU" (cJSON_CreateBool (cu c))
                      (add "CV" (cJSON_Number (cv c))
                         (add "PV" (cJSON_Number (pv c))
                            (head (c_base c))))))))
  | NodeTimer t =>
      ret (add "Q" (cJSON_CreateBool (q t))
             (add "IN" (cJSON_CreateBool (in_ t))
                (add "ET" (cJSON_Number (et t))
                   (add "PT" (cJSON_Number (pt t)) (head (t_base t))))))
  | NodeTime t =>
      ret (add "Value" (cJSON_Number (time_value t)) (head (time_base t)))
  end.

(** The [for] loop of [read_variables_json] from index [i] on: the objects
    appended to the array.  A variable whose object cannot be created is
    left out ([continue]). *)
Fixpoint snapshot_entries (env : JsonEnv) (ns : list VariableNode) (i : nat)
  : M (list cJSON) :=
  match ns with
  | [] => ret []
  | node :: rest =>
      if create_object_ok env i then
        members <- snapshot_members env i node ;;
        items <- snapshot_entries env rest (S i) ;;
        ret (cJSON_Object members :: items)
      else snapshot_entries env rest (S i)
  end.

(** [read_variables_json].  The result is the array that
    [cJSON_PrintUnformatted] prints into the string returned, [None] for
    [NULL]. *)
Definition read_variables_json (env : JsonEnv) : M (option cJSON) :=
  if negb (create_root_ok env) then ret None
  else
    s <- get ;;
    items <- snapshot_entries env (entries (variables_list s)) 0 ;;
    if print_ok env then ret (Some (cJSON_Array items)) else ret None.

(** The body of the loop of [update_variables_from_children] for one node:
    only a Boolean and a Number are looked up, by their whole name. *)
Definition update_node (json : cJSON) (node : VariableNode) : VariableNode :=
  match node with
  | NodeBoolean b =>
      let json_item := cJSON_GetObjectItem (Some json) (name (b_base b)) in
      if cJSON_IsBool json_item
      then NodeBoolean {| b_base := b_base b;
                          b_value := cJSON_IsTrue json_item |}
      else node
  | NodeNumber n =>
      match cJSON_GetObjectItem (Some json) (name (n_base n)) with
      | Some item =>
          if cJSON_IsNumber (Some item)
          then NodeNumber {| n_base := n_base n; n_value := valuedouble item |}
          else node
      | None => node
      end
  | _ => node
  end.

(** [update_variables_from_children] on the bytes of [json_str]. *)
Definition update_variables_from_children (json_str : list ascii) : M unit :=
  match cJSON_Parse json_str with
  | None => ret tt
  | Some json =>
      s <- get ;;
      modify (set_variables_list
                {| nodes := option_map (map (update_node json))
                              (nodes (variables_list s));
                   capacity := capacity (variables_list s) |})
  end.

(** The loop of [send_variables_to_parents] from index [i] on: the members
    added to the object, one per Boolean and Number, keyed by its name. *)
Fixpoint children_members (env : JsonEnv) (ns : list VariableNode) (i : nat)
  : list (string * cJSON) :=
  match ns with
  | [] => []
  | node :: rest =>
      match node with
      | NodeBoolean b =>
          add_member env i (name (b_base b)) (cJSON_CreateBool (b_value b)) []
      | NodeNumber n =>
          add_member env i (name (n_base n)) (cJSON_Number (n_value n)) []
      | _ => []
      end ++ children_members env rest (S i)
  end.

(** [send_variables_to_parents]: the object whose text is published to the
    listener topic of every parent device, [None] when nothing is
    published.  The list of parents is the platform's. *)
Definition send_variables_to_parents (env : JsonEnv) : M (option cJSON) :=
  if negb (create_root_ok env) then ret None
  else
    s <- get ;;
    let members := children_members env (entries (variables_list s)) 0 in
    if print_ok env then ret (Some (cJSON_Object members)) else ret None.

End Variables.

(* ================================================================== *)
(** * The element library (ladder_elements.c) *)
(* ================================================================== *)

Fixpoint find_one_shot (l : list OneShotState) (var_name : string)
  : option nat :=
  match l with
  | [] => None
  | e :: rest =>
      if streq (os_var_name e) var_name then Some O
      else option_map S (find_one_shot rest var_name)
  end.

Fixpoint find_timer_state (l : list TimerState) (var_name : string)
  : option nat :=
  match l with
  | [] => None
  | e :: rest =>
      if streq (ts_var_name e) var_name then Some O
      else option_map S (find_timer_state rest var_name)
  end.

(** An assignment to one field of the [i]-th element of an array. *)
Fixpoint list_update {A} (l : list A) (i : nat) (f : A -> A) : list A :=
  match l, i with
  | [], _ => []
  | h :: t, O => f h :: t
  | h :: t, S j => h :: list_update t j f
  end.

Definition set_prev_state (e : OneShotState) (v : bool) : OneShotState :=
  {| os_var_name := os_var_name e; prev_state := v |}.

Definition set_running (e : TimerState) (r : bool) : TimerState :=
  {| ts_var_name := ts_var_name e; start_time := start_time e; running := r |}.

Definition set_started (e : TimerState) (now : Z) : TimerState :=
  {| ts_var_name := ts_var_name e; start_time := now; running := true |}.

(** [(double)z] for a 64-bit signed [z]. *)
Definition double_of_int64 (z : Z) : float :=
  if (z <? 0)%Z
  then PrimFloat.opp (PrimFloat.of_uint63 (Uint63.of_Z (- z)))
  else PrimFloat.of_uint63 (Uint63.of_Z z).

(** The literal [1e-6] of [divide]: the binary64 value nearest to it. *)
Definition DIV_EPSILON : float := 0x1.0c6f7a0b5ed8dp-20%float.

Section Elements.

Context {P : Platform}.

(** [get_one_shot_state]: the index of the entry of [var_name], appended
    with [prev_state = false] when absent and the table is not full.  The
    stored name is cut to 63 characters; the search compares whole names. *)
Definition get_one_shot_state (var_name : string) : M (option nat) :=
  s <- get ;;
  match find_one_shot (one_shot_states s) var_name with
  | Some i => ret (Some i)
  | None =>
      if (List.length (one_shot_states s) <? MAX_ONE_SHOT_STATES)%nat then
        modify (set_one_shot_states
                  (one_shot_states s ++
                   [{| os_var_name := strncpy var_name (MAX_VAR_NAME_LENGTH - 1);
                       prev_state := false |}])) ;;;
        ret (Some (List.length (one_shot_states s)))
      else ret None
  end.

(** [get_timer_state]. *)
Definition get_timer_state (var_name : string) : M (option nat) :=
  s <- get ;;
  match find_timer_state (timer_states s) var_name with
  | Some i => ret (Some i)
  | None =>
      if (List.length (timer_states s) <? MAX_TIMER_STATES)%nat then
        modify (set_timer_states
                  (timer_states s ++
                   [{| ts_var_name := strncpy var_name (MAX_VAR_NAME_LENGTH - 1);
                       start_time := 0%Z; running := false |}])) ;;;
        ret (Some (List.length (timer_states s)))
      else ret None
  end.

(** [*prev_state] and [*prev_state = v] through the returned pointer. *)
Definition load_prev_state (i : nat) : M bool :=
  s <- get ;;
  e <- deref (nth_error (one_shot_states s) i) ;;
  ret (prev_state e).

Definition store_prev_state (i : nat) (v : bool) : M unit :=
  modify (fun s => set_one_shot_states
            (list_update (one_shot_states s) i (fun e => set_prev_state e v))
            s).

(** [state->running], [state->start_time] and the two stores
    [state->running = r] and [state->start_time = now; state->running = true]
    through the pointer [get_timer_state] returned. *)
Definition state_running (k : nat) : M bool :=
  s <- get ;;
  e <- deref (nth_error (timer_states s) k) ;;
  ret (running e).

Definition state_start_time (k : nat) : M Z :=
  s <- get ;;
  e <- deref (nth_error (timer_states s) k) ;;
  ret (start_time e).

Definition set_state_running (k : nat) (r : bool) : M unit :=
  modify (fun s => set_timer_states
            (list_update (timer_states s) k (fun e => set_running e r)) s).

Definition set_state_started (k : nat) (now : Z) : M unit :=
  modify (fun s => set_timer_states
            (list_update (timer_states s) k (fun e => set_started e now)) s).

(** [esp_timer_get_time()]: the next reading of the clock. *)
Definition esp_timer_get_time : M Z :=
  s <- get ;;
  modify (set_clock_reads (S (clock_reads s))) ;;;
  ret (clock (clock_reads s)).

(** [r_trig]. *)
Definition r_trig (var_name : string) (condition : bool) : M bool :=
  p <- get_one_shot_state var_name ;;
  match p with
  | None => ret false
  | Some i =>
      prev <- load_prev_state i ;;
      let result := condition && negb prev in
      store_prev_state i condition ;;;
      ret result
  end.

(** [f_trig]. *)
Definition f_trig (var_name : string) (condition : bool) : M bool :=
  p <- get_one_shot_state var_name ;;
  match p with
  | None => ret false
  | Some i =>
      prev <- load_prev_state i ;;
      let result := negb condition && prev in
      store_prev_state i condition ;;;
      ret result
  end.

(** Contacts. *)
Definition no_contact (var_name : string) : M bool :=
  result <- read_variable var_name ;;
  ret (negb result).

Definition nc_contact (var_name : string) : M bool :=
  result <- read_variable var_name ;;
  ret result.

(** Coils. *)
Definition coil (var_name : string) (condition : bool) : M unit :=
  write_variable var_name condition.

Definition one_shot_positive_coil (var_name : string) (condition : bool)
  : M unit :=
  p <- get_one_shot_state var_name ;;
  match p with
  | None => ret tt
  | Some i =>
      prev <- load_prev_state i ;;
      let output := condition && negb prev in
      store_prev_state i condition ;;;
      write_variable var_name output
  end.

Definition set_coil (var_name : string) (condition : bool) : M unit :=
  if condition then write_variable var_name true else ret tt.

Definition reset_coil (var_name : string) (condition : bool) : M unit :=
  if condition then write_variable var_name false else ret tt.

(** Math. *)
Definition add (var_name_a var_name_b var_name_c : string) (condition : bool)
  : M unit :=
  fired <- r_trig var_name_c condition ;;
  if fired then
    a <- read_numeric_variable var_name_a ;;
    b <- read_numeric_variable var_name_b ;;
    write_numeric_variable var_name_c (PrimFloat.add a b)
  else ret tt.

Definition subtract (var_name_a var_name_b var_name_c : string)
    (condition : bool) : M unit :=
  fired <- r_trig var_name_c condition ;;
  if fired then
    a <- read_numeric_variable var_name_a ;;
    b <- read_numeric_variable var_name_b ;;
    write_numeric_variable var_name_c (PrimFloat.sub a b)
  else ret tt.

Definition multiply (var_name_a var_name_b var_name_c : string)
    (condition : bool) : M unit :=
  fired <- r_trig var_name_c condition ;;
  if fired then
    a <- read_numeric_variable var_name_a ;;
    b <- read_numeric_variable var_name_b ;;
    write_numeric_variable var_name_c (PrimFloat.mul a b)
  else ret tt.

Definition divide (var_name_a var_name_b var_name_c : string)
    (condition : bool) : M unit :=
  fired <- r_trig var_name_c condition ;;
  if fired then
    a <- read_numeric_variable var_name_a ;;
    b <- read_numeric_variable var_name_b ;;
    if PrimFloat.ltb (PrimFloat.abs b) DIV_EPSILON then ret tt
    else write_numeric_variable var_name_c (PrimFloat.div a b)
  else ret tt.

Definition move (var_name_a var_name_b : string) (condition : bool)
  : M unit :=
  a <- read_numeric_variable var_name_a ;;
  write_numeric_variable var_name_b a.

(** Compares. *)
Definition compare_with (op : float -> float -> bool)
    (var_name_a var_name_b : string) : M bool :=
  a <- read_numeric_variable var_name_a ;;
  b <- read_numeric_variable var_name_b ;;
  ret (op a b).

Definition greater := compare_with (fun a b => PrimFloat.ltb b a).
Definition less := compare_with (fun a b => PrimFloat.ltb a b).
Definition greater_or_equal := compare_with (fun a b => PrimFloat.leb b a).
Definition less_or_equal := compare_with (fun a b => PrimFloat.leb a b).
Definition equal := compare_with (fun a b => PrimFloat.eqb a b).
Definition not_equal := compare_with (fun a b => negb (PrimFloat.eqb a b)).

(** [Counter *c = (Counter * )node->data]: the node is used as a counter
    whatever its tag says; with another struct behind the pointer the access
    is undefined. *)
Definition as_counter (node : VariableNode) : M Counter :=
  match node with NodeCounter c => ret c | _ => fault end.

Definition as_timer (node : VariableNode) : M Timer :=
  match node with NodeTimer t => ret t | _ => fault end.

(** The flag update shared by the counters and [reset]. *)
Definition refresh_flags (c : Counter) : Counter :=
  set_qd (set_qu c (PrimFloat.leb (pv c) (cv c))) (PrimFloat.leb (cv c) 0).

Definition count_up (var_name : string) (condition : bool) : M unit :=
  fired <- r_trig var_name condition ;;
  if fired then
    found <- find_variable var_name ;;
    node <- deref found ;;
    c <- as_counter (snd node) ;;
    store_node (fst node)
      (NodeCounter (refresh_flags (set_cv c (PrimFloat.add (cv c) 1))))
  else ret tt.

Definition count_down (var_name : string) (condition : bool) : M unit :=
  fired <- r_trig var_name condition ;;
  if fired then
    found <- find_variable var_name ;;
    node <- deref found ;;
    c <- as_counter (snd node) ;;
    store_node (fst node)
      (NodeCounter (refresh_flags (set_cv c (PrimFloat.sub (cv c) 1))))
  else ret tt.

(** [(double)(current_time - state->start_time) / 1000.0]. *)
Definition elapsed_ms (current_time start : Z) : float :=
  PrimFloat.div (double_of_int64 (current_time - start)) 1000.

(** [timer_on]. *)
Definition timer_on (var_name : string) (condition : bool) : M bool :=
  found <- find_variable var_name ;;
  node <- deref found ;;
  t <- as_timer (snd node) ;;
  state <- get_timer_state var_name ;;
  match state with
  | None => ret false
  | Some k =>
      let t := set_in t condition in
      if PrimFloat.leb (pt t) 0 then
        store_node (fst node) (NodeTimer (set_q (set_et t 0) false)) ;;;
        set_state_running k false ;;;
        ret false
      else if condition then
        is_running <- state_running k ;;
        (if negb is_running && negb (q t)
         then now <- esp_timer_get_time ;; set_state_started k now
         else ret tt) ;;;
        is_running <- state_running k ;;
        if is_running then
          current_time <- esp_timer_get_time ;;
          start <- state_start_time k ;;
          let e := elapsed_ms current_time start in
          if PrimFloat.ltb (pt t) e then
            set_state_running k false ;;;
            store_node (fst node)
              (NodeTimer (set_q (set_et t (pt t))
                            (PrimFloat.leb (pt t) (pt t)))) ;;;
            ret (PrimFloat.leb (pt t) (pt t))
          else
            store_node (fst node)
              (NodeTimer (set_q (set_et t e) (PrimFloat.leb (pt t) e))) ;;;
            ret (PrimFloat.leb (pt t) e)
        else
          store_node (fst node) (NodeTimer (set_q (set_et t (pt t)) true)) ;;;
          ret true
      else
        store_node (fst node) (NodeTimer (set_q (set_et t 0) false)) ;;;
        set_state_running k false ;;;
        ret false
  end.

(** [timer_off]. *)
Definition timer_off (var_name : string) (condition : bool) : M bool :=
  found <- find_variable var_name ;;
  node <- deref found ;;
  t <- as_timer (snd node) ;;
  state <- get_timer_state var_name ;;
  match state with
  | None => ret false
  | Some k =>
      let t := set_in t condition in
      if PrimFloat.leb (pt t) 0 then
        store_node (fst node) (NodeTimer (set_q (set_et t 0) condition)) ;;;
        set_state_running k false ;;;
        ret condition
      else if condition then
        store_node (fst node) (NodeTimer (set_et (set_q t true) 0)) ;;;
        set_state_running k false ;;;
        ret true
      else
        is_running <- state_running k ;;
        (if negb is_running && q t
         then now <- esp_timer_get_time ;; set_state_started k now
         else ret tt) ;;;
        is_running <- state_running k ;;
        if is_running then
          current_time <- esp_timer_get_time ;;
          start <- state_start_time k ;;
          let e := elapsed_ms current_time start in
          if PrimFloat.ltb (pt t) e then
            set_state_running k false ;;;
            store_node (fst node)
              (NodeTimer (set_q (set_et t (pt t))
                            (PrimFloat.ltb (pt t) (pt t)))) ;;;
            ret (PrimFloat.ltb (pt t) (pt t))
          else
            store_node (fst node)
              (NodeTimer (set_q (set_et t e) (PrimFloat.ltb e (pt t)))) ;;;
            ret (PrimFloat.ltb e (pt t))
        else if negb (q t) then
          store_node (fst node) (NodeTimer (set_et t 0)) ;;;
          ret (q t)
        else
          store_node (fst node) (NodeTimer t) ;;;
          ret (q t)
  end.

(** [reset]. *)
Definition reset (var_name : string) (condition : bool) : M unit :=
  fired <- r_trig var_name condition ;;
  if fired then
    found <- find_variable var_name ;;
    node <- deref found ;;
    match snd node with
    | NodeCounter c =>
        let c1 := if cu c then set_cv c 0 else c in
        let c2 := if cd c1 then set_cv c1 (pv c1) else c1 in
        let c3 := if cu c || cd c then refresh_flags c2 else c2 in
        store_node (fst node) (NodeCounter c3)
    | NodeTimer t =>
        state <- get_timer_state var_name ;;
        match state with
        | Some k =>
            store_node (fst node)
              (NodeTimer (set_in (set_q (set_et t 0) false) false)) ;;;
            set_state_running k false
        | None => ret tt
        end
    | _ => ret tt
    end
  else ret tt.

End Elements.

(* ================================================================== *)
(** * The wire interpreter and the ingestor (conf_task_manager.c) *)
(* ================================================================== *)

(** The bytes [cJSON_Parse] sees in a NUL-terminated buffer. *)
Fixpoint c_str (b : list ascii) : list ascii :=
  match b with
  | [] => []
  | c :: rest => if Ascii.eqb c Ascii.zero then [] else c :: c_str rest
  end.

(** [sizeof(TaskInfo)]: two pointers of the 32-bit target. *)
Definition sizeof_TaskInfo : nat := 8.

(** What the platform answers during one call of [configure]. *)
Record ConfigEnv : Type :=
  { timer_created : bool;
    realloc_ok : bool;
    nvs_writable : bool;
    load_env : LoadEnv;
    free_heap_size : Z;
    tasks_calloc_ok : bool;
    duplicate_ok : nat -> bool;
    stack_ok : nat -> bool;
    task_created : nat -> bool }.

Definition is_some {A} (p : option A) : bool :=
  match p with Some _ => true | None => false end.

(** [(arg && cJSON_IsString(arg)) ? arg->valuestring : NULL]. *)
Definition string_arg (arg : option cJSON) : option string :=
  match arg with Some (cJSON_String s) => Some s | _ => None end.

Definition is_coil_type (element_type : string) : bool :=
  streq element_type "Coil" || streq element_type "OneShotPositiveCoil" ||
  streq element_type "SetCoil" || streq element_type "ResetCoil".

Section Interpreter.

Context {P : Platform}.

(** [process_coil]. *)
Definition process_coil (node : option cJSON) (condition : bool) : M unit :=
  if negb (cJSON_IsObject node) then ret tt
  else
    match cJSON_GetObjectItem node "Type" with
    | Some (cJSON_String ty) =>
        if negb (streq ty "LadderElement") then ret tt
        else
          let combo_values := cJSON_GetObjectItem node "ComboBoxValues" in
          match cJSON_GetObjectItem node "ElementType" with
          | Some (cJSON_String element_type) =>
              if negb (cJSON_IsArray combo_values) then ret tt
              else
                match string_arg (cJSON_GetArrayItem combo_values 0) with
                | Some var1 =>
                    if streq element_type "Coil" then coil var1 condition
                    else if streq element_type "OneShotPositiveCoil"
                    then one_shot_positive_coil var1 condition
                    else if streq element_type "SetCoil"
                    then set_coil var1 condition
                    else if streq element_type "ResetCoil"
                    then reset_coil var1 condition
                    else ret tt
                | None => ret tt
                end
          | _ => ret tt
          end
    | _ => ret tt
    end.

(** The [if]/[else if] chain of [process_node] for a ladder element; the
    result is the value the function returns.  [var1], [var2], [var3] are the
    three [char *] taken from ["ComboBoxValues"]. *)
Definition process_element (element_type : string)
    (var1 var2 var3 : option string) (condition : bool) : M bool :=
  let and_result (m : M bool) : M bool :=
    result <- m ;; ret (condition && result) in
  let action (m : M unit) : M bool := m ;;; ret condition in
  let has1 := is_some var1 in
  let has2 := is_some var1 && is_some var2 in
  let has3 := is_some var1 && is_some var2 && is_some var3 in
  if streq element_type "NOContact" && has1 then
    v1 <- deref var1 ;; and_result (no_contact v1)
  else if streq element_type "NCContact" && has1 then
    v1 <- deref var1 ;; and_result (nc_contact v1)
  else if streq element_type "GreaterCompare" && has2 then
    v1 <- deref var1 ;; v2 <- deref var2 ;; and_result (greater v1 v2)
  else if streq element_type "LessCompare" && has2 then
    v1 <- deref var1 ;; v2 <- deref var2 ;; and_result (less v1 v2)
  else if streq element_type "GreaterOrEqualCompare" && has2 then
    v1 <- deref var1 ;; v2 <- deref var2 ;;
    and_result (greater_or_equal v1 v2)
  else if streq element_type "LessOrEqualCompare" && has2 then
    v1 <- deref var1 ;; v2 <- deref var2 ;; and_result (less_or_equal v1 v2)
  else if streq element_type "EqualCompare" && has2 then
    v1 <- deref var1 ;; v2 <- deref var2 ;; and_result (equal v1 v2)
  else if streq element_type "NotEqualCompare" && has2 then
    v1 <- deref var1 ;; v2 <- deref var2 ;; and_result (not_equal v1 v2)
  else if streq element_type "AddMath" && has3 then
    v1 <- deref var1 ;; v2 <- deref var2 ;; v3 <- deref var3 ;;
    action (add v1 v2 v3 condition)
  else if streq element_type "SubtractMath" && has3 then
    v1 <- deref var1 ;; v2 <- deref var2 ;; v3 <- deref var3 ;;
    action (subtract v1 v2 v3 condition)
  else if streq element_type "MultiplyMath" && has3 then
    v1 <- deref var1 ;; v2 <- deref var2 ;; v3 <- deref var3 ;;
    action (multiply v1 v2 v3 condition)
  else if streq element_type "DivideMath" && has3 then
    v1 <- deref var1 ;; v2 <- deref var2 ;; v3 <- deref var3 ;;
    action (divide v1 v2 v3 condition)
  else if streq element_type "MoveMath" && has2 then
    v1 <- deref var1 ;; v2 <- deref var2 ;; action (move v1 v2 condition)
  else if streq element_type "CountUp" && has1 then
    v1 <- deref var1 ;; action (count_up v1 condition)
  else if streq element_type "CountDown" && has1 then
    v1 <- deref var1 ;; action (count_down v1 condition)
  else if streq element_type "OnDelayTimer" && has1 then
    v1 <- deref var1 ;; and_result (timer_on v1 condition)
  else if streq element_type "OffDelayTimer" && has1 then
    v1 <- deref var1 ;; timer_off v1 condition
  else if streq element_type "Reset" && has1 then
    v1 <- deref var1 ;; action (reset v1 condition)
  else ret condition.

(** Whether the last node of a list is one of the four coils. *)
Definition is_last_coil (last_node : option cJSON) : bool :=
  match cJSON_GetObjectItem last_node "Type",
        cJSON_GetObjectItem last_node "ElementType" with
  | Some (cJSON_String ty), Some (cJSON_String element_type) =>
      streq ty "LadderElement" && is_coil_type element_type
  | _, _ => false
  end.

(** The [for] loop of [process_nodes]:
    [all_conditions_met = process_node(node, &all_conditions_met)]. *)
Fixpoint process_series (process_node : option cJSON -> bool -> M bool)
    (items : list cJSON) (all_conditions_met : bool) : M bool :=
  match items with
  | [] => ret all_conditions_met
  | node :: rest =>
      c <- process_node (Some node) all_conditions_met ;;
      process_series process_node rest c
  end.

(** [process_nodes], over the node processor it calls.  The result is the
    returned value, the final [*condition], and [*last_coil]. *)
Definition process_nodes_with (process_node : option cJSON -> bool -> M bool)
    (nodes : option cJSON) (condition : bool)
  : M (bool * bool * option cJSON) :=
  if negb (cJSON_IsArray nodes) then ret (false, condition, None)
  else
    let node_count := cJSON_GetArraySize nodes in
    if (node_count =? 0)%nat then ret (false, condition, None)
    else
      let last_node := cJSON_GetArrayItem nodes (node_count - 1) in
      let coil_last := is_last_coil last_node in
      let last_coil := if coil_last then last_node else None in
      let node_count := if coil_last then node_count - 1 else node_count in
      all <- process_series process_node
               (firstn node_count (cJSON_children nodes)) condition ;;
      ret (all, all, last_coil).

(** [process_node].  The value is what the function returns; its only caller
    for series processing assigns that value to the running condition.
    [fuel] bounds the nesting of branches. *)
Fixpoint process_node (fuel : nat) (node : option cJSON) (condition : bool)
  : M bool :=
  match fuel with
  | O => fun _ => OutOfFuel
  | S fuel' =>
      if negb (cJSON_IsObject node) then ret false
      else
        match cJSON_GetObjectItem node "Type" with
        | Some (cJSON_String ty) =>
            if streq ty "LadderElement" then
              let combo_values := cJSON_GetObjectItem node "ComboBoxValues" in
              match cJSON_GetObjectItem node "ElementType" with
              | Some (cJSON_String element_type) =>
                  if negb (cJSON_IsArray combo_values) then ret false
                  else
                    process_element element_type
                      (string_arg (cJSON_GetArrayItem combo_values 0))
                      (string_arg (cJSON_GetArrayItem combo_values 1))
                      (string_arg (cJSON_GetArrayItem combo_values 2))
                      condition
              | _ => ret false
              end
            else if streq ty "Branch" then
              let nodes1 := cJSON_GetObjectItem node "Nodes1" in
              let nodes2 := cJSON_GetObjectItem node "Nodes2" in
              if negb (cJSON_IsArray nodes1) || negb (cJSON_IsArray nodes2)
              then ret false
              else
                r1 <- process_nodes_with (process_node fuel') nodes1 true ;;
                r2 <- process_nodes_with (process_node fuel') nodes2 true ;;
                let '(nodes1_active, nodes1_condition, nodes1_last_coil) := r1 in
                let '(nodes2_active, nodes2_condition, nodes2_last_coil) := r2 in
                let branch_condition := nodes1_active || nodes2_active in
                (if is_some nodes1_last_coil && nodes1_condition
                 then process_coil nodes1_last_coil nodes1_condition
                 else ret tt) ;;;
                (if is_some nodes2_last_coil && nodes2_condition
                 then process_coil nodes2_last_coil nodes2_condition
                 else ret tt) ;;;
                ret (condition && branch_condition)
            else ret false
        | _ => ret false
        end
  end.

Definition process_nodes (fuel : nat) :=
  process_nodes_with (process_node fuel).

(** One iteration of the [while (1)] loop of [process_block_task] on the
    wire the task owns. *)
Definition scan_wire (fuel : nat) (wire : option cJSON) : M unit :=
  let nodes := cJSON_GetObjectItem wire "Nodes" in
  r <- process_nodes fuel nodes true ;;
  let '(_, condition, last_coil) := r in
  if is_some last_coil then process_coil last_coil condition else ret tt.

(** [config_timeout_callback]: the expiry of the 10 s timer. *)
Definition config_timeout_callback : M unit :=
  s <- get ;;
  if is_some (large_buffer s) then modify (set_buffer None 0) else ret tt.

(** [delete_all_tasks]. *)
Definition delete_all_tasks : M unit :=
  s <- get ;;
  (if is_some (config_timeout_timer s)
   then modify (set_config_timeout_timer None) else ret tt) ;;;
  (if is_some (large_buffer s)
   then modify (set_buffer None 0) else ret tt) ;;;
  (if is_some (tasks s) then modify (set_tasks None) else ret tt).

(** The [for] loop of [configure] over the wires from index [i] on: the
    [TaskInfo] each wire leaves in [tasks[i]]. *)
Fixpoint spawn_tasks (env : ConfigEnv) (wires : list cJSON) (i : nat)
  : list TaskInfo :=
  match wires with
  | [] => []
  | wire :: rest =>
      (if negb (cJSON_IsObject (Some wire))
       then {| handle := false; wire_copy := None |}
       else if negb (duplicate_ok env i)
       then {| handle := false; wire_copy := None |}
       else if negb (stack_ok env i)
       then {| handle := false; wire_copy := None |}
       else if task_created env i
       then {| handle := true; wire_copy := Some wire |}
       else {| handle := false; wire_copy := None |})
      :: spawn_tasks env rest (S i)
  end.

(** The apply point of [configure]: what runs once [cJSON_Parse] returned a
    tree. *)
Definition apply_config (env : ConfigEnv) (json : cJSON)
    (loaded_from_nvs : bool) : M unit :=
  modify (set_config_timeout_timer (Some false)) ;;;
  s <- get ;;
  (if negb loaded_from_nvs && nvs_writable env
   then modify (set_nvs_json_config
                  (option_map (firstn (total_received s)) (large_buffer s)))
   else ret tt) ;;;
  delete_all_tasks ;;;
  modify (fun s => set_hardware
            (device_init (cJSON_GetObjectItem (Some json) "Device")
               (hardware s)) s) ;;;
  load_variables (load_env env) (cJSON_GetObjectItem (Some json) "Variables") ;;;
  let wires := cJSON_GetObjectItem (Some json) "Wires" in
  if negb (cJSON_IsArray wires) then modify (set_buffer None 0)
  else
    let array_size := cJSON_GetArraySize wires in
    if (free_heap_size env <?
        Z.of_nat array_size * Z.of_nat sizeof_TaskInfo +
        Z.of_nat array_size * 4096 + 1024)%Z
    then modify (set_buffer None 0)
    else if negb (tasks_calloc_ok env) then modify (set_buffer None 0)
    else
      modify (set_tasks (Some (spawn_tasks env (cJSON_children wires) 0))) ;;;
      modify (set_buffer None 0).

(** [configure(data, data_len, loaded_from_nvs)] with [data_len] the length
    of [data]. *)
Definition configure (env : ConfigEnv) (loaded_from_nvs : bool)
    (data : list ascii) : M unit :=
  s <- get ;;
  if negb (is_some (config_timeout_timer s)) && negb (timer_created env)
  then ret tt
  else
    modify (set_config_timeout_timer (Some true)) ;;;
    if negb (realloc_ok env) then
      modify (set_buffer None 0) ;;;
      modify (set_config_timeout_timer (Some false))
    else
      let old := match large_buffer s with Some b => b | None => [] end in
      let buffer := firstn (total_received s) old ++ data in
      modify (set_buffer (Some buffer)
                (total_received s + List.length data)) ;;;
      match cJSON_Parse (c_str buffer) with
      | Some json => apply_config env json loaded_from_nvs
      | None => ret tt
      end.

End Interpreter.

(* ================================================================== *)
(** * Vocabulary of the statements *)
(* ================================================================== *)

Section Vocabulary.

Context {P : Platform}.

(** The result of a call with a function applied to the returned value. *)
Definition omap {A B} (f : A -> B) (o : outcome (A * State))
  : outcome (B * State) :=
  match o with
  | Ok (a, s) => Ok (f a, s)
  | Fault => Fault
  | OutOfFuel => OutOfFuel
  end.

(** [node] is a JSON object that [process_node] reads as the ladder element
    [element_type] with the three arguments [var1], [var2], [var3]. *)
Definition ladder_element (node : option cJSON) (element_type : string)
    (var1 var2 var3 : option string) : Prop :=
  cJSON_IsObject node = true /\
  cJSON_GetObjectItem node "Type" = Some (cJSON_String "LadderElement") /\
  cJSON_GetObjectItem node "ElementType" = Some (cJSON_String element_type) /\
  cJSON_IsArray (cJSON_GetObjectItem node "ComboBoxValues") = true /\
  string_arg
    (cJSON_GetArrayItem (cJSON_GetObjectItem node "ComboBoxValues") 0) = var1 /\
  string_arg
    (cJSON_GetArrayItem (cJSON_GetObjectItem node "ComboBoxValues") 1) = var2 /\
  string_arg
    (cJSON_GetArrayItem (cJSON_GetObjectItem node "ComboBoxValues") 2) = var3.

(** Every successful run of [m] relates the state before to the state
    after by [R]. *)
Definition Preserves {A} (R : State -> State -> Prop) (m : M A) : Prop :=
  forall s a s', m s = Ok (a, s') -> R s s'.

(** The variable store and the pin hardware are the same in both states. *)
Definition same_store (s s' : State) : Prop :=
  variables_list s' = variables_list s /\ hardware s' = hardware s.

(** The two engine tables are the same in both states. *)
Definition same_tables (s s' : State) : Prop :=
  one_shot_states s' = one_shot_states s /\
  timer_states s' = timer_states s.

(** The two engine tables of [s'] extend those of [s]: no entry was removed
    or renamed, entries were at most appended. *)
Definition tables_grow (s s' : State) : Prop :=
  (exists l, map os_var_name (one_shot_states s') =
             map os_var_name (one_shot_states s) ++ l) /\
  (exists l, map ts_var_name (timer_states s') =
             map ts_var_name (timer_states s) ++ l).

(** [prev] of the edge table for [var_name], if it has an entry. *)
Definition prev_of (s : State) (var_name : string) : option bool :=
  match find_one_shot (one_shot_states s) var_name with
  | Some i => option_map prev_state (nth_error (one_shot_states s) i)
  | None => None
  end.

(** [cJSON_GetObjectItem(var, key)->valuedouble] when the member exists. *)
Definition json_double (var : cJSON) (key : string) : option float :=
  option_map valuedouble (cJSON_GetObjectItem (Some var) key).

(** [cJSON_GetObjectItem(var, key)->valuestring] when the member is a
    string. *)
Definition json_string (var : cJSON) (key : string) : option string :=
  match cJSON_GetObjectItem (Some var) key with
  | Some item => valuestring item
  | None => None
  end.

(** The counter [c] holds what the array entry [var] says, member by
    member. *)
Definition counter_entry (var : cJSON) (c : Counter) : Prop :=
  json_string var "Type" = Some "Counter" /\
  type (c_base c) = "Counter" /\
  json_string var "Name" = Some (name (c_base c)) /\
  json_double var "PV" = Some (pv c) /\
  json_double var "CV" = Some (cv c) /\
  cu c = field_true var "CU" /\
  cd c = field_true var "CD" /\
  qu c = field_true var "QU" /\
  qd c = field_true var "QD".

(** The flag relation of a counter: [qu = (cv >= pv)] and [qd = (cv <= 0)]. *)
Definition counter_flags_ok (c : Counter) : Prop :=
  qu c = PrimFloat.leb (pv c) (cv c) /\ qd c = PrimFloat.leb (cv c) 0.

(** The elapsed time of a timer lies between zero and its preset. *)
Definition timer_et_in_range (t : Timer) : Prop :=
  PrimFloat.leb 0 (et t) = true /\ PrimFloat.leb (et t) (pt t) = true.

(** The name resolves to [node] but addresses no boolean of it: a counter or
    timer with a recognised suffix that names none of its boolean fields, or
    a variable of a kind that has no boolean at all. *)
Definition no_boolean_field (node : VariableNode) (suffix : option string)
  : bool :=
  match node with
  | NodeCounter _ =>
      match suffix with
      | Some p => negb (streq p ".CU" || streq p ".CD" ||
                        streq p ".QU" || streq p ".QD")
      | None => false
      end
  | NodeTimer _ =>
      match suffix with
      | Some p => negb (streq p ".IN" || streq p ".Q")
      | None => false
      end
  | NodeOneWire _ | NodeADCSensor _ | NodeNumber _ | NodeTime _ => true
  | NodeDigitalAnalogIO _ | NodeBoolean _ => false
  end.

(** The value a call returned, if it returned. *)
Definition value_of {A} (o : outcome (A * State)) : option A :=
  match o with Ok (a, _) => Some a | _ => None end.

(** Chunks delivered one after the other, each to its own call of
    [configure], with no timer expiry in between. *)
Fixpoint run_chunks (env : ConfigEnv) (loaded_from_nvs : bool)
    (chunks : list (list ascii)) : M unit :=
  match chunks with
  | [] => ret tt
  | data :: rest =>
      configure env loaded_from_nvs data ;;;
      run_chunks env loaded_from_nvs rest
  end.

(** The applied program: the device descriptor and pin hardware, the
    variable store, and the wire tasks with their copies of the wires. *)
Definition applied_program (s : State)
  : hw * VariablesList * option (list TaskInfo) :=
  (hardware s, variables_list s, tasks s).

Definition program_of (o : outcome (unit * State))
  : outcome (hw * VariablesList * option (list TaskInfo)) :=
  match o with
  | Ok (_, s) => Ok (applied_program s)
  | Fault => Fault
  | OutOfFuel => OutOfFuel
  end.

(** The ingestor holds no bytes. *)
Definition idle (s : State) : Prop :=
  large_buffer s = None /\ total_received s = 0.

(** [doc ++ trail] is a valid document for the parser: [doc] is the text of
    the JSON value [json], complete at its last byte and not before; the
    parser accepts it with any part of [trail] after it, as cJSON accepts
    bytes after the value; and no stretch of [trail] (white space after the
    document) is itself something the parser accepts. *)
Definition valid_document (doc trail : list ascii) (json : cJSON) : Prop :=
  (forall p q, doc = p ++ q -> q <> [] -> cJSON_Parse (c_str p) = None) /\
  (forall x y, trail = x ++ y -> cJSON_Parse (c_str (doc ++ x)) = Some json) /\
  (forall x y z, trail = x ++ y ++ z -> cJSON_Parse (c_str y) = None).

(** Two states that agree on everything but the ingestor's own buffer, byte
    count and timer and the persisted blob. *)
Definition same_but_ingest (s s' : State) : Prop :=
  hardware s' = hardware s /\
  variables_list s' = variables_list s /\
  one_wire_task_handle s' = one_wire_task_handle s /\
  adc_sensor_task_handle s' = adc_sensor_task_handle s /\
  one_shot_states s' = one_shot_states s /\
  timer_states s' = timer_states s /\
  clock_reads s' = clock_reads s /\
  tasks s' = tasks s.

(** Two runs ended the same way, with the same value and in states that
    agree but for the ingestor's fields. *)
Definition same_outcome {A} (o o' : outcome (A * State)) : Prop :=
  match o, o' with
  | Ok (a, s), Ok (a', s') => a' = a /\ same_but_ingest s s'
  | Fault, Fault => True
  | OutOfFuel, OutOfFuel => True
  | _, _ => False
  end.

(** [m] does not look at the ingestor's fields. *)
Definition Respects {A} (m : M A) : Prop :=
  forall s s', same_but_ingest s s' -> same_outcome (m s) (m s').

(** [configure] has its timeout timer or can create it. *)
Definition timer_ready (env : ConfigEnv) (s : State) : bool :=
  is_some (config_timeout_timer s) || timer_created env.

(** The ingestor's buffer holds exactly the bytes [acc]. *)
Definition buffer_holds (s : State) (acc : list ascii) : Prop :=
  total_received s = List.length acc /\
  (large_buffer s = Some acc \/ (large_buffer s = None /\ acc = [])).

(** Successive readings of the monotonic clock never decrease. *)
Definition clock_monotone : Prop :=
  forall n m, n <= m -> (clock n <= clock m)%Z.

(** Every running entry of the timer table was started at a reading of the
    clock that is not after the next one. *)
Definition timers_started_in_past (s : State) : Prop :=
  forall e, In e (timer_states s) -> running e = true ->
            (start_time e <= clock (clock_reads s))%Z.

(** [get_timer_state] will return a slot for the name: it has one already
    or the table has room. *)
Definition timer_slot_available (s : State) (var_name : string) : Prop :=
  find_timer_state (timer_states s) var_name <> None \/
  List.length (timer_states s) < MAX_TIMER_STATES.

(** The timer table and the clock are the same in both states. *)
Definition same_timers (s s' : State) : Prop :=
  timer_states s' = timer_states s /\ clock_reads s' = clock_reads s.

(** The clock was not set back, and if the running timers of [s] were
    started in the past then so were those of [s']. *)
Definition keeps_past (s s' : State) : Prop :=
  clock_reads s <= clock_reads s' /\
  (timers_started_in_past s -> timers_started_in_past s').

(** The timer a run of [timer_on] or [timer_off] leaves in the store. *)
Definition timer_written (s s' : State) (i : nat) (t0 x : Timer)
    (condition out : bool) : Prop :=
  variables_list s' =
    {| nodes := option_map (fun ns => list_set ns i (NodeTimer x))
                  (nodes (variables_list s));
       capacity := capacity (variables_list s) |} /\
  t_base x = t_base t0 /\ pt x = pt t0 /\ in_ x = condition /\ q x = out /\
  (et x = 0%float \/ et x = pt t0 \/
   (PrimFloat.leb 0 (et x) = true /\ PrimFloat.ltb (pt t0) (et x) = false)).

(** The names that address a boolean of a node that [write_variable]
    stores to: a Boolean under any suffix, the four flags of a Counter and
    the two of a Timer. *)
Definition boolean_field (node : VariableNode) (suffix : option string)
  : bool :=
  match node with
  | NodeBoolean _ => true
  | NodeCounter _ =>
      match suffix with
      | Some p => streq p ".CU" || streq p ".CD" ||
                  streq p ".QU" || streq p ".QD"
      | None => false
      end
  | NodeTimer _ =>
      match suffix with
      | Some p => streq p ".IN" || streq p ".Q"
      | None => false
      end
  | _ => false
  end.

(** The names that address a number of a node that
    [write_numeric_variable] stores to. *)
Definition numeric_field (node : VariableNode) (suffix : option string)
  : bool :=
  match node with
  | NodeNumber _ | NodeTime _ => true
  | NodeCounter _ =>
      match suffix with
      | Some p => streq p ".PV" || streq p ".CV"
      | None => false
      end
  | NodeTimer _ =>
      match suffix with
      | Some p => streq p ".PT" || streq p ".ET"
      | None => false
      end
  | _ => false
  end.

(** A node with one member per field, as the switch of the accessors sees
    it: Boolean and Number hold one value under every suffix. *)
Definition single_valued (node : VariableNode) : bool :=
  match node with
  | NodeBoolean _ | NodeNumber _ | NodeTime _ => true
  | _ => false
  end.

(** The next call of an edge-triggered element on [var_name] with a true
    condition sees a rising edge: the last condition recorded for the name
    is [false], or the name has no entry yet and the table has room. *)
Definition edge_armed (s : State) (var_name : string) : Prop :=
  prev_of s var_name = Some false \/
  (prev_of s var_name = None /\
   List.length (one_shot_states s) < MAX_ONE_SHOT_STATES).

(** [running] of the timer table for [var_name], if it has an entry. *)
Definition running_of (s : State) (var_name : string) : option bool :=
  match find_timer_state (timer_states s) var_name with
  | Some k => option_map running (nth_error (timer_states s) k)
  | None => None
  end.

(** Both engine tables are within their arrays. *)
Definition tables_bounded (s : State) : Prop :=
  List.length (one_shot_states s) <= MAX_ONE_SHOT_STATES /\
  List.length (timer_states s) <= MAX_TIMER_STATES.

Definition keeps_bounds (s s' : State) : Prop :=
  tables_bounded s -> tables_bounded s'.

(** What a variable is apart from the values the ladder elements write: a
    Boolean, Number, Time, Counter or Timer with its values blanked, and
    every other variable (a pin descriptor or a sensor with its reading) as
    it is. *)
Definition skeleton (node : VariableNode) : VariableNode :=
  match node with
  | NodeBoolean b => NodeBoolean {| b_base := b_base b; b_value := false |}
  | NodeNumber n => NodeNumber {| n_base := n_base n; n_value := 0 |}
  | NodeTime t => NodeTime {| time_base := time_base t; time_value := 0 |}
  | NodeCounter c =>
      NodeCounter {| c_base := c_base c; pv := 0; cv := 0; cu := false;
                     cd := false; qu := false; qd := false |}
  | NodeTimer t =>
      NodeTimer {| t_base := t_base t; pt := 0; et := 0; in_ := false;
                   q := false |}
  | _ => node
  end.

(** The store of [s'] has the variables of the store of [s], in the same
    order and with the same capacity, up to the values of [skeleton]. *)
Definition same_skeleton (s s' : State) : Prop :=
  option_map (map skeleton) (nodes (variables_list s')) =
    option_map (map skeleton) (nodes (variables_list s)) /\
  capacity (variables_list s') = capacity (variables_list s).

(** The node at index [i] of the store has the skeleton [sk]. *)
Definition slot_holds (i : nat) (sk : VariableNode) (s : State) : Prop :=
  option_map skeleton (nth_error (entries (variables_list s)) i) = Some sk.

(** From a state whose slot [i] holds the skeleton [sk], the store keeps
    its skeleton. *)
Definition keeps_skeleton_at (i : nat) (sk : VariableNode) (s s' : State)
  : Prop :=
  slot_holds i sk s -> same_skeleton s s'.

(** The variable store is the same in both states. *)
Definition same_variables (s s' : State) : Prop :=
  variables_list s' = variables_list s.

(** Every allocation and every print of [read_variables_json] and
    [send_variables_to_parents] succeeds. *)
Definition json_env_ok (env : JsonEnv) : Prop :=
  create_root_ok env = true /\ (forall i, create_object_ok env i = true) /\
  (forall i key, member_added env i key = true) /\ print_ok env = true.

(** The node array and the struct of every entry can be allocated. *)
Definition load_env_ample (env : LoadEnv) : Prop :=
  calloc_nodes_ok env = true /\ forall i, alloc_ok env i = true.

Definition VariableType_eqb (a b : VariableType) : bool :=
  match a, b with
  | VAR_TYPE_DIGITAL_ANALOG_IO, VAR_TYPE_DIGITAL_ANALOG_IO
  | VAR_TYPE_ONE_WIRE, VAR_TYPE_ONE_WIRE
  | VAR_TYPE_ADC_SENSOR, VAR_TYPE_ADC_SENSOR
  | VAR_TYPE_BOOLEAN, VAR_TYPE_BOOLEAN
  | VAR_TYPE_NUMBER, VAR_TYPE_NUMBER
  | VAR_TYPE_COUNTER, VAR_TYPE_COUNTER
  | VAR_TYPE_TIMER, VAR_TYPE_TIMER
  | VAR_TYPE_TIME, VAR_TYPE_TIME => true
  | _, _ => false
  end.

(** A variable of the program proper (a Boolean, Number, Counter, Timer or
    Time) whose type string is the one of its kind, as every loaded variable
    has it. *)
Definition program_variable (node : VariableNode) : bool :=
  VariableType_eqb (var_type_of (type (node_base node))) (node_type node) &&
  match node with
  | NodeBoolean _ | NodeNumber _ | NodeCounter _ | NodeTimer _
  | NodeTime _ => true
  | _ => false
  end.

(** [load_variables] builds [node] from the array entry [item], whatever the
    platform answers and whatever the state is. *)
Definition loads_as (item : cJSON) (node : VariableNode) : Prop :=
  exists ty nm,
    cJSON_GetObjectItem (Some item) "Type" = Some (cJSON_String ty) /\
    cJSON_GetObjectItem (Some item) "Name" = Some (cJSON_String nm) /\
    forall env s,
      build_variable env item (var_type_of ty) ty (Some nm) s =
      Ok (Some node, s).

(** The variables [send_variables_to_parents] puts into its message. *)
Definition is_shared (node : VariableNode) : bool :=
  match node with
  | NodeBoolean _ | NodeNumber _ => true
  | _ => false
  end.

(** What a variable of the receiving device becomes when the message
    carries, under its name, the value of the variable [sent]: a Boolean
    takes the value of a Boolean and a Number that of a Number; everything
    else stays. *)
Definition takes_value_of (node sent : VariableNode) : VariableNode :=
  match node, sent with
  | NodeBoolean b, NodeBoolean x =>
      NodeBoolean {| b_base := b_base b; b_value := b_value x |}
  | NodeNumber n, NodeNumber x =>
      NodeNumber {| n_base := n_base n; n_value := n_value x |}
  | _, _ => node
  end.

End Vocabulary.

(** The binary64 values the order facts below are about: one that is a
    number (no NaN) and not negative, and one that is a number. *)
Definition sf_nonneg (x : spec_float) : bool :=
  match x with
  | S754_zero _ => true
  | S754_infinity s => negb s
  | S754_finite s _ _ => negb s
  | S754_nan => false
  end.

Definition sf_number (x : spec_float) : bool :=
  match x with S754_nan => false | _ => true end.

(** The JSON text of a ladder element as the authoring tool writes it. *)
Definition element (element_type : string) (args : list string) : cJSON :=
  cJSON_Object
    [("Type", cJSON_String "LadderElement");
     ("ElementType", cJSON_String element_type);
     ("ComboBoxValues", cJSON_Array (map cJSON_String args))].

(* ================================================================== *)
(** * A test bench *)
(* ================================================================== *)

(** A small platform on which the statements below are exercised: the pin
    hardware is a table of levels by pin name (an unknown pin reads [true],
    the [-1] the drivers return), the clock advances one second per reading,
    and the parser knows one document, [bench_text], which it accepts with
    anything after it, as cJSON accepts trailing bytes. *)
Module Bench.

Fixpoint level (h : list (string * bool)) (pin_name : string) : bool :=
  match h with
  | [] => true
  | (k, v) :: rest => if streq k pin_name then v else level rest pin_name
  end.

(** JSON entries of the kinds the bench loads, and a wire of elements. *)
Definition boolean_entry (nm : string) (v : bool) : cJSON :=
  cJSON_Object [("Type", cJSON_String "Boolean"); ("Name", cJSON_String nm);
                ("Value", if v then cJSON_True else cJSON_False)].

Definition counter_json (nm : string) (p c : float)
    (flags : list (string * cJSON)) : cJSON :=
  cJSON_Object ([("Type", cJSON_String "Counter"); ("Name", cJSON_String nm);
                 ("PV", cJSON_Number p); ("CV", cJSON_Number c)] ++ flags).

Definition timer_json (nm : string) (p e : float) (i o : bool) : cJSON :=
  cJSON_Object [("Type", cJSON_String "Timer"); ("Name", cJSON_String nm);
                ("PT", cJSON_Number p); ("ET", cJSON_Number e);
                ("IN", if i then cJSON_True else cJSON_False);
                ("Q", if o then cJSON_True else cJSON_False)].

Definition wire_json (elements : list cJSON) : cJSON :=
  cJSON_Object [("Nodes", cJSON_Array elements)].

(** A wire that leaves the flag "b" alone, and the wire of the bench
    document: it runs the on-delay timer "T1" and keeps an edge of "b". *)
Definition flag_wire : cJSON :=
  wire_json [element "NCContact" ["b"]; element "Coil" ["b"]].

Definition pulse_wire : cJSON :=
  wire_json [element "NCContact" ["b"]; element "OnDelayTimer" ["T1"];
             element "OneShotPositiveCoil" ["b"]].

(** The one document of the bench: a flag, a timer and [pulse_wire]. *)
Definition bench_text : list ascii :=
  list_ascii_of_string
    ("{'Variables':[{'Type':'Boolean','Name':'b','Value':true}," ++
     "{'Type':'Timer','Name':'T1','PT':5000,'ET':0,'IN':false,'Q':false}]," ++
     "'Wires':[{'Nodes':[" ++
     "{'Type':'LadderElement','ElementType':'NCContact'," ++
     "'ComboBoxValues':['b']}," ++
     "{'Type':'LadderElement','ElementType':'OnDelayTimer'," ++
     "'ComboBoxValues':['T1']}," ++
     "{'Type':'LadderElement','ElementType':'OneShotPositiveCoil'," ++
     "'ComboBoxValues':['b']}]}]}").

Definition bench_json : cJSON :=
  cJSON_Object
    [("Variables",
      cJSON_Array [boolean_entry "b" true;
                   timer_json "T1" 5000 0 false false]);
     ("Wires", cJSON_Array [pulse_wire])].

Fixpoint starts_with (text b : list ascii) : bool :=
  match text, b with
  | [], _ => true
  | x :: text', y :: b' => Ascii.eqb x y && starts_with text' b'
  | _ :: _, [] => false
  end.

Definition platform : Platform :=
  {| hw := list (string * bool);
     device_init := fun _ h => h;
     get_digital_input_value := level;
     get_digital_output_value := level;
     set_digital_output_value := fun h pin_name v => (pin_name, v) :: h;
     clock := fun n => (Z.of_nat n * 1000000)%Z;
     cJSON_Parse := fun b =>
       if starts_with bench_text b then Some bench_json else None |}.

#[local] Existing Instance platform.

(** The state after boot, before any configuration. *)
Definition boot : State :=
  {| hardware := []; variables_list := empty_list;
     one_wire_task_handle := false; adc_sensor_task_handle := false;
     one_shot_states := []; timer_states := []; clock_reads := 0;
     config_timeout_timer := None; large_buffer := None;
     total_received := 0; tasks := None; nvs_json_config := None |}.

Definition with_variables (ns : list VariableNode) (s : State) : State :=
  set_variables_list {| nodes := Some ns; capacity := List.length ns |} s.

(** Every platform call succeeds. *)
Definition load_env_ok : LoadEnv :=
  {| calloc_nodes_ok := true; alloc_ok := fun _ => true;
     adc_sensor_init_ok := fun _ _ _ => true;
     one_wire_task_created := true; adc_sensor_task_created := true |}.

Definition config_env_ok : ConfigEnv :=
  {| timer_created := true; realloc_ok := true; nvs_writable := true;
     load_env := load_env_ok; free_heap_size := 200000%Z;
     tasks_calloc_ok := true; duplicate_ok := fun _ => true;
     stack_ok := fun _ => true; task_created := fun _ => true |}.

(** A heap that serves the first [n] variable allocations of a load. *)
Definition heap_for (n : nat) : LoadEnv :=
  {| calloc_nodes_ok := true; alloc_ok := fun i => (i <? n)%nat;
     adc_sensor_init_ok := fun _ _ _ => true;
     one_wire_task_created := true; adc_sensor_task_created := true |}.

Definition boolean (nm : string) (v : bool) : VariableNode :=
  NodeBoolean {| b_base := {| name := nm; type := "Boolean" |}; b_value := v |}.

Definition number (nm : string) (v : float) : VariableNode :=
  NodeNumber {| n_base := {| name := nm; type := "Number" |}; n_value := v |}.

Definition counter (nm : string) (p c : float) (u d : bool) : VariableNode :=
  NodeCounter {| c_base := {| name := nm; type := "Counter" |};
                 pv := p; cv := c; cu := false; cd := false;
                 qu := u; qd := d |}.

Definition timer (nm : string) (p e : float) (i o : bool) : VariableNode :=
  NodeTimer {| t_base := {| name := nm; type := "Timer" |};
               pt := p; et := e; in_ := i; q := o |}.

(** The table of an earlier configuration with the state it loads into, and
    a table of two entries of which the heap serves the first. *)
Definition one_boolean : option cJSON :=
  Some (cJSON_Array [boolean_entry "keep" true]).

Definition kept : State := with_variables [boolean "keep" true] boot.

Definition two_booleans : option cJSON :=
  Some (cJSON_Array [boolean_entry "x" true; boolean_entry "y" false]).

(** The store and the engine tables after the bench document was applied
    and its wire scanned once. *)
Definition bench_store : list VariableNode :=
  [boolean "b" true; timer "T1" 5000 0 false false].

Definition bench_tasks : option (list TaskInfo) :=
  Some [{| handle := true; wire_copy := Some pulse_wire |}].

Definition edge_of_b : list OneShotState :=
  [{| os_var_name := "b"; prev_state := false |}].

Definition timer_of_T1 : list TimerState :=
  [{| ts_var_name := "T1"; start_time := 0%Z; running := true |}].

(** A counter entry above its preset that carries no flags. *)
Definition one_counter : option cJSON :=
  Some (cJSON_Array [counter_json "C1" 5 10 []]).

Definition loaded_counter : Counter :=
  {| c_base := {| name := "C1"; type := "Counter" |};
     pv := 5; cv := 10; cu := false; cd := false; qu := false; qd := false |}.

Definition mixed : State :=
  with_variables
    [boolean "b" true; number "n" 5; counter "C1" 5 0 false true;
     timer "T1" 100 0 false false; timer "T2" 5000 0 true true] boot.

(** The operands of a division by zero, before and after the edge of the
    destination was recorded. *)
Definition operands : State :=
  with_variables [number "a" 6; number "b" 0; number "c" 9] boot.

Definition edge_seen : State :=
  set_one_shot_states [{| os_var_name := "c"; prev_state := true |}] operands.




(** A timer entry whose elapsed time is above its preset, beside the flag
    of [flag_wire]. *)
Definition timer_and_flag : option cJSON :=
  Some (cJSON_Array [boolean_entry "b" true;
                     timer_json "T1" 100 500 true false]).

Definition stale_timer : State :=
  with_variables [boolean "b" true; timer "T1" 100 500 true false] boot.

Definition newline : list ascii := ["010"%char].

(** The text [bench_text] in three pieces with a line feed after it. *)
Definition bench_chunks : list (list ascii) :=
  [firstn 100 bench_text; firstn 150 (skipn 100 bench_text);
   skipn 250 bench_text; newline].


(** Two variables of one name. *)
Definition duplicates : State :=
  with_variables [boolean "d" true; number "d" 1] boot.

(** The edge table and the timer table with every slot taken by other
    names. *)
Definition full_edges : State :=
  set_one_shot_states
    (List.repeat {| os_var_name := "other"; prev_state := false |}
       MAX_ONE_SHOT_STATES) mixed.

Definition full_timers : State :=
  set_timer_states
    (List.repeat {| ts_var_name := "other"; start_time := 0%Z;
                    running := false |} MAX_TIMER_STATES) mixed.

(** A branch whose first arm is a lone coil on "b" and whose second arm is
    empty. *)
Definition coil_branch : cJSON :=
  cJSON_Object
    [("Type", cJSON_String "Branch");
     ("Nodes1", cJSON_Array [element "Coil" ["b"]]);
     ("Nodes2", cJSON_Array [])].

(** Every allocation of the JSON builders is served. *)
Definition json_env_all : JsonEnv :=
  {| create_root_ok := true; create_object_ok := fun _ => true;
     member_added := fun _ _ => true; print_ok := true |}.

(** A store with a load cell behind a flag. *)
Definition load_cell : VariableNode :=
  NodeADCSensor
    {| adcs_base := {| name := "W1"; type := "ADC Sensor" |};
       sensor_type := "TM7711"; pd_sck := "IO4"; dout := "IO5";
       map_low := 0; map_high := 100; gain := 1; sampling_rate := "10Hz";
       adcs_value := 0 |}.

Definition with_sensor : State :=
  with_variables [boolean "b" true; load_cell] boot.

(** A parent device: it parses the message a child with the variables of
    [mixed] publishes, and holds a flag and a number under the names of the
    child, the flag in another case. *)
Definition sync_text : list ascii :=
  list_ascii_of_string "{'b':true,'n':5}".

Definition sync_message : cJSON :=
  cJSON_Object [("b", cJSON_True); ("n", cJSON_Number 5)].

Definition parent_device : Platform :=
  {| hw := list (string * bool);
     device_init := fun _ h => h;
     get_digital_input_value := level;
     get_digital_output_value := level;
     set_digital_output_value := fun h pin_name v => (pin_name, v) :: h;
     clock := fun n => (Z.of_nat n * 1000000)%Z;
     cJSON_Parse := fun b =>
       if starts_with sync_text b then Some sync_message else None |}.

Definition on_parent_device (ns : list VariableNode)
  : @State parent_device :=
  {| hardware := ([] : @hw parent_device);
     variables_list := {| nodes := Some ns; capacity := List.length ns |};
     one_wire_task_handle := false; adc_sensor_task_handle := false;
     one_shot_states := []; timer_states := []; clock_reads := 0;
     config_timeout_timer := None; large_buffer := None;
     total_received := 0; tasks := None; nvs_json_config := None |}.

Definition sender : @State parent_device :=
  on_parent_device
    [boolean "b" true; number "n" 5; counter "C1" 5 0 false true].

Definition receiver : @State parent_device :=
  on_parent_device [boolean "B" false; number "n" 0; boolean "n" false].

End Bench.

(* ================================================================== *)
(** * Proofs *)
(* ================================================================== *)

Section MonadFacts.

Context {P : Platform}.

Lemma bind_ok {A B} (m : M A) (f : A -> M B) s a s1 :
  m s = Ok (a, s1) -> bind m f s = f a s1.
Proof. intros H; unfold bind; rewrite H; reflexivity. Qed.

Lemma bind_inv {A B} (m : M A) (f : A -> M B) s b s' :
  bind m f s = Ok (b, s') ->
  exists a s1, m s = Ok (a, s1) /\ f a s1 = Ok (b, s').
Proof.
  unfold bind; destruct (m s) as [[a s1]| |]; intros H; try discriminate.
  exists a, s1; split; [reflexivity | exact H].
Qed.

Lemma deref_inv {A} (p : option A) s a s' :
  deref p s = Ok (a, s') -> p = Some a /\ s' = s.
Proof.
  destruct p; simpl; unfold ret, fault; intros H; inversion H; auto.
Qed.

Lemma preserves_ret {A} (R : State -> State -> Prop) (a : A) :
  (forall s, R s s) -> Preserves R (ret a).
Proof. intros Hr s x s' H; inversion H; subst; apply Hr. Qed.

Lemma preserves_fault {A} (R : State -> State -> Prop) :
  Preserves R (@fault P A).
Proof. intros s x s' H; discriminate. Qed.

Lemma preserves_get (R : State -> State -> Prop) :
  (forall s, R s s) -> Preserves R get.
Proof. intros Hr s x s' H; inversion H; subst; apply Hr. Qed.

Lemma preserves_deref {A} (R : State -> State -> Prop) (p : option A) :
  (forall s, R s s) -> Preserves R (deref p).
Proof.
  intros Hr; destruct p; simpl;
    [apply preserves_ret; exact Hr | apply preserves_fault].
Qed.

Lemma preserves_modify (R : State -> State -> Prop) f :
  (forall s, R s (f s)) -> Preserves R (modify f).
Proof. intros Hf s x s' H; inversion H; subst; apply Hf. Qed.

Lemma preserves_bind {A B} (R : State -> State -> Prop)
    (m : M A) (f : A -> M B) :
  (forall s1 s2 s3, R s1 s2 -> R s2 s3 -> R s1 s3) ->
  Preserves R m -> (forall a, Preserves R (f a)) -> Preserves R (bind m f).
Proof.
  intros Ht Hm Hf s b s' H.
  apply bind_inv in H; destruct H as (a & s1 & H1 & H2).
  eapply Ht; [eapply Hm; exact H1 | eapply Hf; exact H2].
Qed.

Lemma preserves_weaken {A} (R R' : State -> State -> Prop) (m : M A) :
  (forall s s', R s s' -> R' s s') -> Preserves R m -> Preserves R' m.
Proof. intros Hw Hm s a s' H; apply Hw; eapply Hm; exact H. Qed.

Lemma same_store_refl s : same_store s s.
Proof. split; reflexivity. Qed.

Lemma same_store_trans s1 s2 s3 :
  same_store s1 s2 -> same_store s2 s3 -> same_store s1 s3.
Proof. intros [A B] [C D]; split; congruence. Qed.

Lemma same_tables_refl s : same_tables s s.
Proof. split; reflexivity. Qed.

Lemma same_tables_trans s1 s2 s3 :
  same_tables s1 s2 -> same_tables s2 s3 -> same_tables s1 s3.
Proof. intros [A B] [C D]; split; congruence. Qed.

Lemma tables_grow_refl s : tables_grow s s.
Proof. split; exists []; rewrite app_nil_r; reflexivity. Qed.

Lemma tables_grow_trans s1 s2 s3 :
  tables_grow s1 s2 -> tables_grow s2 s3 -> tables_grow s1 s3.
Proof.
  intros [[a Ha] [b Hb]] [[c Hc] [d Hd]]; split.
  - exists (a ++ c); rewrite Hc, Ha, app_assoc; reflexivity.
  - exists (b ++ d); rewrite Hd, Hb, app_assoc; reflexivity.
Qed.

Lemma same_tables_grow s s' : same_tables s s' -> tables_grow s s'.
Proof.
  intros [A B]; split; exists []; rewrite app_nil_r; congruence.
Qed.

Lemma eq_same_tables (s s' : State) : s = s' -> same_tables s s'.
Proof. intros ->; apply same_tables_refl. Qed.

Lemma eq_same_store (s s' : State) : s = s' -> same_store s s'.
Proof. intros ->; apply same_store_refl. Qed.

End MonadFacts.

(** Split a goal along its top-level conjunctions only. *)
Ltac conjs := repeat match goal with |- _ /\ _ => split end.

(** One step of a frame proof: split the computation along its syntax. *)
Ltac frame_step Hrefl Htrans :=
  lazymatch goal with
  | |- Preserves _ (ret _) => apply preserves_ret; exact Hrefl
  | |- Preserves _ fault => apply preserves_fault
  | |- Preserves _ get => apply preserves_get; exact Hrefl
  | |- Preserves _ (deref _) => apply preserves_deref; exact Hrefl
  | |- Preserves _ (modify _) =>
      apply preserves_modify; intros ?; cbn;
      first [ exact (Hrefl _) | split; reflexivity ]
  | |- Preserves _ (bind _ _) =>
      apply preserves_bind; [exact Htrans | | intros]
  | |- Preserves _ (if ?b then _ else _) => destruct b
  | |- Preserves _ (match ?x with _ => _ end) => destruct x
  | |- Preserves _ (let '(_, _) := ?x in _) => destruct x
  end.

Create HintDb frames.
Create HintDb respects.

Ltac frame Hrefl Htrans :=
  repeat first [ assumption
               | solve [auto with frames]
               | frame_step Hrefl Htrans ].

(* ------------------------------------------------------------------ *)
(** ** Order facts of binary64 numbers *)
(* ------------------------------------------------------------------ *)

Module FloatFacts.

Unset Implicit Arguments.

Lemma SFcompare_antisym x y :
  SFcompare y x = option_map CompOpp (SFcompare x y).
Proof.
  destruct x as [sx|sx| |sx mx ex], y as [sy|sy| |sy my ey]; simpl;
    try destruct sx; try destruct sy; simpl; try reflexivity.
  all: assert (Hm : Pos.compare_cont Eq my mx =
                    CompOpp (Pos.compare_cont Eq mx my))
         by (symmetry; apply (Pos.compare_cont_antisym mx my Eq)).
  all: rewrite (Z.compare_antisym ex ey), Hm.
  all: destruct (ex ?= ey)%Z; simpl; try reflexivity.
  all: destruct (Pos.compare_cont Eq mx my); reflexivity.
Qed.

Lemma SFcompare_refl x : sf_number x = true -> SFcompare x x = Some Eq.
Proof.
  destruct x as [s|s| |s m e]; simpl; intros H; try discriminate;
    try (destruct s; reflexivity).
  rewrite Z.compare_refl.
  assert (Hm : Pos.compare_cont Eq m m = Eq) by apply Pos.compare_refl.
  rewrite Hm. destruct s; reflexivity.
Qed.

Lemma SFcompare_number x y :
  sf_number x = true -> sf_number y = true ->
  exists c, SFcompare x y = Some c.
Proof.
  destruct x as [sx|sx| |sx mx ex], y as [sy|sy| |sy my ey]; simpl;
    intros Hx Hy; try discriminate; eexists; reflexivity.
Qed.

Lemma SFcompare_some_number x y c :
  SFcompare x y = Some c -> sf_number x = true /\ sf_number y = true.
Proof.
  destruct x as [sx|sx| |sx mx ex], y as [sy|sy| |sy my ey]; simpl;
    intros H; try discriminate; split; reflexivity.
Qed.

Lemma sf_nonneg_leb x :
  sf_nonneg x = true -> SFleb (S754_zero false) x = true.
Proof.
  destruct x as [s|s| |s m e]; simpl; intros H; try discriminate;
    try reflexivity; destruct s; try discriminate; reflexivity.
Qed.

Lemma sf_nonneg_number x : sf_nonneg x = true -> sf_number x = true.
Proof. destruct x; simpl; intros H; try discriminate; reflexivity. Qed.

Lemma leb_number x y :
  PrimFloat.leb x y = true ->
  sf_number (Prim2SF x) = true /\ sf_number (Prim2SF y) = true.
Proof.
  rewrite leb_spec. unfold SFleb.
  destruct (SFcompare (Prim2SF x) (Prim2SF y)) as [c|] eqn:E; [|discriminate].
  intros _. eapply SFcompare_some_number; exact E.
Qed.

Lemma ltb_number x y :
  PrimFloat.ltb x y = true ->
  sf_number (Prim2SF x) = true /\ sf_number (Prim2SF y) = true.
Proof.
  rewrite ltb_spec. unfold SFltb.
  destruct (SFcompare (Prim2SF x) (Prim2SF y)) as [c|] eqn:E; [|discriminate].
  intros _. eapply SFcompare_some_number; exact E.
Qed.

(** [0 < x] gives [0 <= x], [x <= x] and not [x <= 0]. *)
Lemma ltb_zero_facts x :
  PrimFloat.ltb 0 x = true ->
  PrimFloat.leb 0 x = true /\ PrimFloat.leb x x = true /\
  PrimFloat.leb x 0 = false.
Proof.
  intros H. destruct (ltb_number _ _ H) as [_ Hx].
  rewrite ltb_spec in H. rewrite !leb_spec. unfold SFltb, SFleb in *.
  rewrite (SFcompare_refl _ Hx).
  rewrite (SFcompare_antisym (Prim2SF 0) (Prim2SF x)).
  destruct (SFcompare (Prim2SF 0) (Prim2SF x)) as [[]|]; try discriminate.
  repeat split; reflexivity.
Qed.

(** Not [p < e], for two numbers, gives [e <= p]. *)
Lemma not_ltb_leb p e :
  PrimFloat.ltb p e = false ->
  sf_number (Prim2SF p) = true -> sf_number (Prim2SF e) = true ->
  PrimFloat.leb e p = true.
Proof.
  intros H Hp He. rewrite ltb_spec in H. rewrite leb_spec.
  unfold SFltb, SFleb in *.
  rewrite (SFcompare_antisym (Prim2SF p) (Prim2SF e)).
  destruct (SFcompare_number _ _ Hp He) as (c & Hc). rewrite Hc in *.
  destruct c; try discriminate; reflexivity.
Qed.

(* Rounding keeps the sign and never produces NaN from a non-negative
   mantissa. *)

Lemma shr_1_nonneg mrs : (0 <= shr_m mrs)%Z -> (0 <= shr_m (shr_1 mrs))%Z.
Proof.
  destruct mrs as [m r s]; simpl. destruct m as [|p|p]; simpl; intros H.
  - lia.
  - destruct p; simpl; lia.
  - lia.
Qed.

Lemma iter_pos_nonneg n :
  forall mrs, (0 <= shr_m mrs)%Z -> (0 <= shr_m (iter_pos shr_1 n mrs))%Z.
Proof.
  induction n as [n IH|n IH|]; intros mrs H; simpl.
  - apply IH, IH, shr_1_nonneg, H.
  - apply IH, IH, H.
  - apply shr_1_nonneg, H.
Qed.

Lemma shr_fexp_nonneg m e l :
  (0 <= m)%Z -> (0 <= shr_m (fst (shr_fexp prec emax m e l)))%Z.
Proof.
  intros H. unfold shr_fexp, shr.
  assert (H0 : (0 <= shr_m (shr_record_of_loc m l))%Z)
    by (destruct l as [|[]]; exact H).
  destruct (_ - _)%Z; simpl; try exact H0.
  apply iter_pos_nonneg, H0.
Qed.

Lemma round_nearest_even_nonneg m l :
  (0 <= m)%Z -> (0 <= round_nearest_even m l)%Z.
Proof.
  intros H. unfold round_nearest_even.
  destruct l as [|[]]; try lia. destruct (Z.even m); lia.
Qed.

Lemma binary_round_aux_sign sx mx ex lx :
  (0 <= mx)%Z ->
  sf_nonneg (binary_round_aux prec emax sx mx ex lx) = negb sx \/
  binary_round_aux prec emax sx mx ex lx = S754_zero sx.
Proof.
  intros H. unfold binary_round_aux.
  pose proof (shr_fexp_nonneg mx ex lx H) as H1.
  destruct (shr_fexp prec emax mx ex lx) as [mrs' e']. simpl in H1.
  pose proof (round_nearest_even_nonneg _ (loc_of_shr_record mrs') H1) as H2.
  pose proof (shr_fexp_nonneg _ e' loc_Exact H2) as H3.
  destruct (shr_fexp prec emax _ e' loc_Exact) as [mrs'' e'']. simpl in H3.
  destruct (shr_m mrs'') as [|p|p].
  - right; reflexivity.
  - left. destruct (Z.leb e'' _); reflexivity.
  - lia.
Qed.

Lemma binary_round_aux_nonneg mx ex lx :
  (0 <= mx)%Z ->
  sf_nonneg (binary_round_aux prec emax false mx ex lx) = true.
Proof.
  intros H. destruct (binary_round_aux_sign false mx ex lx H) as [E | E].
  - exact E.
  - rewrite E; reflexivity.
Qed.

Lemma of_uint63_nonneg n : sf_nonneg (Prim2SF (PrimFloat.of_uint63 n)) = true.
Proof.
  rewrite of_uint63_spec. unfold binary_normalize.
  pose proof (Uint63.to_Z_bounded n) as [Hn _].
  destruct (Uint63.to_Z n) as [|p|p]; try reflexivity; [|lia].
  unfold binary_round. destruct (shl_align _ _ _) as [mz ez].
  apply binary_round_aux_nonneg. lia.
Qed.

Lemma SFdiv_nonneg x m e :
  sf_nonneg x = true ->
  sf_nonneg (SF64div x (S754_finite false m e)) = true.
Proof.
  unfold SF64div, SFdiv.
  destruct x as [s|s| |s mx ex]; simpl; intros H; try discriminate;
    try (destruct s; try discriminate; reflexivity).
  destruct s; [discriminate|]. simpl.
  unfold SFdiv_core_binary.
  match goal with
  | |- context [Z.div_eucl ?a ?b] =>
      pose proof (Z.div_pos a b) as Hq;
      assert (Ha : (0 <= a)%Z);
      [| unfold Z.div in Hq; destruct (Z.div_eucl a b) as [q r] ]
  end.
  - destruct (_ - _ - _)%Z; try lia. apply Z.shiftl_nonneg. lia.
  - apply binary_round_aux_nonneg. apply Hq; [exact Ha | lia].
Qed.

Set Implicit Arguments.

Lemma elapsed_ms_nonneg cur start :
  (start <= cur)%Z -> PrimFloat.leb 0 (elapsed_ms cur start) = true.
Proof.
  intros H. unfold elapsed_ms, double_of_int64.
  assert (Hlt : (cur - start <? 0)%Z = false) by (apply Z.ltb_ge; lia).
  rewrite Hlt, leb_spec, div_spec.
  remember (Prim2SF 1000) as k eqn:Ek. vm_compute in Ek. subst k.
  remember (Prim2SF 0) as z eqn:Ez. vm_compute in Ez. subst z.
  apply sf_nonneg_leb. apply SFdiv_nonneg. apply of_uint63_nonneg.
Qed.

(** The value the timers leave in [et] when the preset is positive: zero,
    the preset, or a non-negative elapsed time that is not above the
    preset. *)
Lemma et_candidates p e :
  PrimFloat.ltb 0 p = true ->
  e = 0%float \/ e = p \/
  (PrimFloat.leb 0 e = true /\ PrimFloat.ltb p e = false) ->
  PrimFloat.leb 0 e = true /\ PrimFloat.leb e p = true.
Proof.
  intros Hp H. destruct (ltb_zero_facts p Hp) as (H0p & Hpp & _).
  destruct H as [-> | [-> | [H0e Hpe]]].
  - split; [reflexivity | exact H0p].
  - split; [exact H0p | exact Hpp].
  - split; [exact H0e|]. apply not_ltb_leb; [exact Hpe | |].
    + apply (ltb_number _ _ Hp).
    + apply (leb_number _ _ H0e).
Qed.

End FloatFacts.

Section Proofs.

Context {P : Platform}.

(** Frame proofs for [tables_grow], reusing the [same_tables] facts. *)
Ltac grow :=
  repeat first [ solve [auto with frames]
               | frame_step (@tables_grow_refl P) (@tables_grow_trans P) ].

Lemma same_tables_lift {A} (m : M A) :
  Preserves same_tables m -> Preserves tables_grow m.
Proof. apply preserves_weaken; exact same_tables_grow. Qed.
Hint Resolve same_tables_lift : frames.

Lemma process_node_element fuel node element_type var1 var2 var3 condition :
  ladder_element node element_type var1 var2 var3 ->
  process_node (S fuel) node condition =
  process_element element_type var1 var2 var3 condition.
Proof.
  intros (Hobj & Hty & Het & Harr & H1 & H2 & H3).
  simpl. rewrite Hobj, Hty, Het, Harr, H1, H2, H3. reflexivity.
Qed.

Lemma ladder_element_element element_type args :
  ladder_element (Some (element element_type args)) element_type
    (nth_error args 0) (nth_error args 1) (nth_error args 2).
Proof.
  unfold ladder_element, element; simpl.
  repeat split; unfold cJSON_GetArrayItem; simpl.
  - destruct args; reflexivity.
  - destruct args as [|? [|? ?]]; reflexivity.
  - destruct args as [|? [|? [|? ?]]]; reflexivity.
Qed.

(* ------------------------------------------------------------------ *)
(** ** Contacts and timers in the series condition *)
(* ------------------------------------------------------------------ *)

(** C5.  For every variable name [a]: [no_contact a] returns the negation of
    what [read_variable a] returns and [nc_contact a] returns it unchanged,
    with the same final state and the same fault behaviour; and a ladder
    element of type ["NOContact"] (["NCContact"]) whose first argument is
    [a] turns the running condition [c] into [c && negb r] ([c && r]) where
    [r] is the value read. *)
Theorem contacts_return_inverted_reading
    (node_no node_nc : option cJSON) (a : string)
    (o2 o3 c2 c3 : option string) (fuel : nat) (condition : bool)
    (s : State) :
  ladder_element node_no "NOContact" (Some a) o2 o3 ->
  ladder_element node_nc "NCContact" (Some a) c2 c3 ->
  no_contact a s = omap negb (read_variable a s) /\
  nc_contact a s = omap (fun r => r) (read_variable a s) /\
  process_node (S fuel) node_no condition s =
    omap (fun r => condition && negb r) (read_variable a s) /\
  process_node (S fuel) node_nc condition s =
    omap (fun r => condition && r) (read_variable a s).
Proof.
  intros Hno Hnc.
  rewrite (process_node_element fuel condition Hno).
  rewrite (process_node_element fuel condition Hnc).
  unfold process_element, no_contact, nc_contact; simpl.
  unfold bind, ret, omap.
  destruct (read_variable a s) as [[r s']| |]; repeat split; reflexivity.
Qed.

(** C6.  In a wire scan an ["OnDelayTimer"] element leaves the running
    condition at [c && q], where [q] is what [timer_on] returned for the
    condition [c], while an ["OffDelayTimer"] element leaves it at the [q]
    that [timer_off] returned, whatever [c] was. *)
Theorem on_delay_ands_off_delay_overwrites
    (node_on node_off : option cJSON) (v : string)
    (o2 o3 f2 f3 : option string) (fuel : nat) (condition : bool)
    (s : State) :
  ladder_element node_on "OnDelayTimer" (Some v) o2 o3 ->
  ladder_element node_off "OffDelayTimer" (Some v) f2 f3 ->
  process_node (S fuel) node_on condition s =
    omap (fun q => condition && q) (timer_on v condition s) /\
  process_node (S fuel) node_off condition s =
    omap (fun q => q) (timer_off v condition s).
Proof.
  intros Hon Hoff.
  rewrite (process_node_element fuel condition Hon).
  rewrite (process_node_element fuel condition Hoff).
  unfold process_element.
  destruct o2, o3, f2, f3; simpl; unfold bind, ret, omap;
    (split;
     [ destruct (timer_on v condition s) as [[r s']| |]; reflexivity
     | destruct (timer_off v condition s) as [[r s']| |]; reflexivity ]).
Qed.

(* ------------------------------------------------------------------ *)
(** ** What each operation leaves alone *)
(* ------------------------------------------------------------------ *)

Lemma find_variable_pure v : Preserves eq (find_variable v).
Proof.
  unfold find_variable.
  frame (@eq_refl State) (@eq_trans State).
Qed.
Hint Resolve find_variable_pure : frames.

Lemma read_variable_pure v : Preserves eq (read_variable v).
Proof.
  unfold read_variable.
  frame (@eq_refl State) (@eq_trans State).
Qed.

Lemma read_numeric_variable_pure v : Preserves eq (read_numeric_variable v).
Proof.
  unfold read_numeric_variable.
  frame (@eq_refl State) (@eq_trans State).
Qed.

(* Frames of the variable store. *)

Lemma store_node_same_tables i n : Preserves same_tables (store_node i n).
Proof.
  unfold store_node. frame same_tables_refl same_tables_trans.
Qed.
Hint Resolve store_node_same_tables : frames.

Lemma find_variable_same_tables v : Preserves same_tables (find_variable v).
Proof.
  unfold find_variable. frame same_tables_refl same_tables_trans.
Qed.
Hint Resolve find_variable_same_tables : frames.

Lemma read_variable_same_tables v : Preserves same_tables (read_variable v).
Proof.
  eapply preserves_weaken; [apply eq_same_tables | apply read_variable_pure].
Qed.
Hint Resolve read_variable_same_tables : frames.

Lemma read_numeric_variable_same_tables v :
  Preserves same_tables (read_numeric_variable v).
Proof.
  eapply preserves_weaken;
    [apply eq_same_tables | apply read_numeric_variable_pure].
Qed.
Hint Resolve read_numeric_variable_same_tables : frames.

Lemma write_variable_same_tables v b :
  Preserves same_tables (write_variable v b).
Proof.
  unfold write_variable. frame same_tables_refl same_tables_trans.
Qed.
Hint Resolve write_variable_same_tables : frames.

Lemma write_numeric_variable_same_tables v x :
  Preserves same_tables (write_numeric_variable v x).
Proof.
  unfold write_numeric_variable. frame same_tables_refl same_tables_trans.
Qed.
Hint Resolve write_numeric_variable_same_tables : frames.

Lemma variables_list_free_same_tables :
  Preserves same_tables variables_list_free.
Proof.
  unfold variables_list_free. frame same_tables_refl same_tables_trans.
Qed.
Hint Resolve variables_list_free_same_tables : frames.

Lemma variables_list_add_same_tables n :
  Preserves same_tables (variables_list_add n).
Proof.
  unfold variables_list_add. frame same_tables_refl same_tables_trans.
Qed.
Hint Resolve variables_list_add_same_tables : frames.

Lemma build_variable_same_tables env var vt ts nm :
  Preserves same_tables (build_variable env var vt ts nm).
Proof.
  unfold build_variable, field_string, field_double.
  frame same_tables_refl same_tables_trans.
Qed.
Hint Resolve build_variable_same_tables : frames.

Lemma load_entries_same_tables env vars :
  forall i, Preserves same_tables (load_entries env vars i).
Proof.
  induction vars as [|var rest IH]; intros i; simpl.
  - frame same_tables_refl same_tables_trans.
  - frame same_tables_refl same_tables_trans; apply IH.
Qed.
Hint Resolve load_entries_same_tables : frames.

Lemma load_variables_same_tables env variables :
  Preserves same_tables (load_variables env variables).
Proof.
  unfold load_variables, variables_list_init, create_one_wire_task,
    create_adc_sensor_task.
  frame same_tables_refl same_tables_trans.
Qed.
Hint Resolve load_variables_same_tables : frames.

(* Frames of the ingestor. *)

Lemma delete_all_tasks_same_tables : Preserves same_tables delete_all_tasks.
Proof.
  unfold delete_all_tasks. frame same_tables_refl same_tables_trans.
Qed.
Hint Resolve delete_all_tasks_same_tables : frames.

Lemma apply_config_same_tables env json lf :
  Preserves same_tables (apply_config env json lf).
Proof.
  unfold apply_config. frame same_tables_refl same_tables_trans.
Qed.
Hint Resolve apply_config_same_tables : frames.

Lemma configure_same_tables env lf data :
  Preserves same_tables (configure env lf data).
Proof.
  unfold configure. frame same_tables_refl same_tables_trans.
Qed.

(* Frames of the element library. *)

Lemma map_list_update {A B} (f : A -> B) (g : A -> A) (l : list A) i :
  (forall x, f (g x) = f x) -> map f (list_update l i g) = map f l.
Proof.
  intros Hg; revert i; induction l as [|h t IH]; intros [|i]; simpl;
    rewrite ?Hg, ?IH; reflexivity.
Qed.

Lemma get_one_shot_state_grow v : Preserves tables_grow (get_one_shot_state v).
Proof.
  intros s a s' H.
  unfold get_one_shot_state, bind, get, modify, ret in H.
  destruct (find_one_shot _ _); [inversion H; subst; apply tables_grow_refl|].
  destruct (_ <? _)%nat; inversion H; subst; [|apply tables_grow_refl].
  split; simpl.
  - rewrite map_app; eexists; reflexivity.
  - exists []; rewrite app_nil_r; reflexivity.
Qed.
Hint Resolve get_one_shot_state_grow : frames.

Lemma get_timer_state_grow v : Preserves tables_grow (get_timer_state v).
Proof.
  intros s a s' H.
  unfold get_timer_state, bind, get, modify, ret in H.
  destruct (find_timer_state _ _); [inversion H; subst; apply tables_grow_refl|].
  destruct (_ <? _)%nat; inversion H; subst; [|apply tables_grow_refl].
  split; simpl.
  - exists []; rewrite app_nil_r; reflexivity.
  - rewrite map_app; eexists; reflexivity.
Qed.
Hint Resolve get_timer_state_grow : frames.

Lemma store_prev_state_grow i v : Preserves tables_grow (store_prev_state i v).
Proof.
  unfold store_prev_state.
  apply preserves_modify; intros s0; split; simpl; exists [];
    rewrite app_nil_r; [apply map_list_update|]; reflexivity.
Qed.
Hint Resolve store_prev_state_grow : frames.

Lemma set_state_running_grow k r :
  Preserves tables_grow (set_state_running k r).
Proof.
  unfold set_state_running.
  apply preserves_modify; intros s0; split; simpl; exists [];
    rewrite app_nil_r; [|apply map_list_update]; reflexivity.
Qed.
Hint Resolve set_state_running_grow : frames.

Lemma set_state_started_grow k now :
  Preserves tables_grow (set_state_started k now).
Proof.
  unfold set_state_started.
  apply preserves_modify; intros s0; split; simpl; exists [];
    rewrite app_nil_r; [|apply map_list_update]; reflexivity.
Qed.
Hint Resolve set_state_started_grow : frames.

Lemma esp_timer_get_time_same_tables : Preserves same_tables esp_timer_get_time.
Proof.
  unfold esp_timer_get_time. frame same_tables_refl same_tables_trans.
Qed.
Hint Resolve esp_timer_get_time_same_tables : frames.

Lemma r_trig_grow v c : Preserves tables_grow (r_trig v c).
Proof. unfold r_trig, load_prev_state. grow. Qed.
Hint Resolve r_trig_grow : frames.

Lemma f_trig_grow v c : Preserves tables_grow (f_trig v c).
Proof. unfold f_trig, load_prev_state. grow. Qed.

Lemma contacts_grow v :
  Preserves tables_grow (no_contact v) /\ Preserves tables_grow (nc_contact v).
Proof. unfold no_contact, nc_contact. conjs; grow. Qed.

Lemma coils_grow v c :
  Preserves tables_grow (coil v c) /\
  Preserves tables_grow (one_shot_positive_coil v c) /\
  Preserves tables_grow (set_coil v c) /\
  Preserves tables_grow (reset_coil v c).
Proof.
  unfold coil, one_shot_positive_coil, set_coil, reset_coil, load_prev_state.
  conjs; grow.
Qed.

Lemma math_grow a b c cond :
  Preserves tables_grow (add a b c cond) /\
  Preserves tables_grow (subtract a b c cond) /\
  Preserves tables_grow (multiply a b c cond) /\
  Preserves tables_grow (divide a b c cond).
Proof.
  unfold add, subtract, multiply, divide. conjs; grow.
Qed.

Lemma move_grow a b cond : Preserves tables_grow (move a b cond).
Proof. unfold move. grow. Qed.

Lemma compare_with_grow op a b : Preserves tables_grow (compare_with op a b).
Proof. unfold compare_with. grow. Qed.

Lemma counters_grow v c :
  Preserves tables_grow (count_up v c) /\
  Preserves tables_grow (count_down v c) /\
  Preserves tables_grow (reset v c).
Proof.
  unfold count_up, count_down, reset, as_counter. conjs; grow.
Qed.

Lemma timers_grow v c :
  Preserves tables_grow (timer_on v c) /\ Preserves tables_grow (timer_off v c).
Proof.
  unfold timer_on, timer_off, as_timer, state_running, state_start_time.
  conjs; grow.
Qed.

Lemma process_coil_grow node c : Preserves tables_grow (process_coil node c).
Proof.
  unfold process_coil.
  grow; apply coils_grow.
Qed.
Hint Resolve process_coil_grow : frames.

Lemma process_element_grow et v1 v2 v3 c :
  Preserves tables_grow (process_element et v1 v2 v3 c).
Proof.
  unfold process_element; cbv beta zeta.
  grow;
    first [ apply contacts_grow | apply compare_with_grow | apply math_grow
          | apply move_grow | apply counters_grow | apply timers_grow ].
Qed.
Hint Resolve process_element_grow : frames.

Lemma process_series_grow pn items :
  (forall node c, Preserves tables_grow (pn node c)) ->
  forall c, Preserves tables_grow (process_series pn items c).
Proof.
  intros Hpn; induction items as [|node rest IH]; intros c; simpl.
  - grow.
  - grow.
Qed.

Lemma process_nodes_with_grow pn nodes c :
  (forall node c, Preserves tables_grow (pn node c)) ->
  Preserves tables_grow (process_nodes_with pn nodes c).
Proof.
  intros Hpn; unfold process_nodes_with.
  grow; try (apply process_series_grow; exact Hpn).
Qed.

Lemma process_node_grow fuel :
  forall node c, Preserves tables_grow (process_node fuel node c).
Proof.
  induction fuel as [|fuel IH]; intros node c; simpl.
  - intros s a s' H; discriminate.
  - grow; try (apply process_nodes_with_grow; exact IH).
Qed.

Lemma scan_wire_grow fuel wire : Preserves tables_grow (scan_wire fuel wire).
Proof.
  unfold scan_wire, process_nodes.
  grow; try (apply process_nodes_with_grow; apply process_node_grow).
Qed.

(** C2 (as the code has it).  A call of [configure], and so every apply of
    a new configuration, leaves both engine tables exactly as they were:
    nothing resets them.  A scan iteration of a wire never removes or renames an
    entry of either table; it can only append entries and update their
    flags. *)
Theorem engine_tables_outlive_apply_and_scan
    (env : ConfigEnv) (loaded_from_nvs : bool) (data : list ascii)
    (fuel : nat) (wire : option cJSON) (s : State) :
  (forall s', configure env loaded_from_nvs data s = Ok (tt, s') ->
              same_tables s s') /\
  (forall s', scan_wire fuel wire s = Ok (tt, s') -> tables_grow s s').
Proof.
  split; intros s' H.
  - eapply configure_same_tables; exact H.
  - eapply scan_wire_grow; exact H.
Qed.

(* ------------------------------------------------------------------ *)
(** ** Loading the variable table *)
(* ------------------------------------------------------------------ *)

Lemma variables_list_free_spec s :
  nodes (variables_list s) <> None ->
  exists s', variables_list_free s = Ok (tt, s') /\
             variables_list s' = empty_list /\ same_tables s s'.
Proof.
  intros Hn. unfold variables_list_free, bind, get, modify.
  destruct (nodes (variables_list s)); [|congruence].
  eexists; split; [reflexivity|]. split; [reflexivity | split; reflexivity].
Qed.

Lemma build_variable_pure env var vt ts nm :
  Preserves eq (build_variable env var vt ts nm).
Proof.
  unfold build_variable, field_string, field_double.
  frame (@eq_refl State) (@eq_trans State).
Qed.

Lemma variables_list_add_spec n s b s' :
  variables_list_add n s = Ok (b, s') ->
  exists ns, nodes (variables_list s) = Some ns /\
             nodes (variables_list s') = Some (ns ++ [n]).
Proof.
  unfold variables_list_add, bind, get, deref; intros H.
  destruct (nodes (variables_list s)) as [ns|] eqn:E; [|discriminate H].
  inversion H; subst; clear H.
  exists ns; split; reflexivity.
Qed.

Lemma sampler_task_spec env s b s' :
  nodes (variables_list s) <> None ->
  create_one_wire_task env s = Ok (b, s') ->
  (b = true /\ variables_list s' = variables_list s /\ same_tables s s') \/
  (b = false /\ variables_list s' = empty_list).
Proof.
  intros Hn H. unfold create_one_wire_task in H.
  apply bind_inv in H; destruct H as (s0 & s0' & Hg & H).
  unfold get in Hg; inversion Hg; subst s0 s0'; clear Hg.
  destruct (existsb is_one_wire _).
  - destruct (one_wire_task_created env).
    + apply bind_inv in H; destruct H as (? & ? & Hm & H).
      inversion Hm; inversion H; subst. left.
      split; [reflexivity | split; [reflexivity | split; reflexivity]].
    + edestruct variables_list_free_spec as (s2 & Hf & He & _); [exact Hn|].
      unfold bind in H; rewrite Hf in H; inversion H; subst.
      right; split; [reflexivity | exact He].
  - inversion H; subst. left.
    split; [reflexivity | split; [reflexivity | split; reflexivity]].
Qed.

Lemma sampler_task_spec' env s b s' :
  nodes (variables_list s) <> None ->
  create_adc_sensor_task env s = Ok (b, s') ->
  (b = true /\ variables_list s' = variables_list s /\ same_tables s s') \/
  (b = false /\ variables_list s' = empty_list).
Proof.
  intros Hn H. unfold create_adc_sensor_task in H.
  apply bind_inv in H; destruct H as (s0 & s0' & Hg & H).
  unfold get in Hg; inversion Hg; subst s0 s0'; clear Hg.
  destruct (existsb is_adc_sensor _).
  - destruct (adc_sensor_task_created env).
    + apply bind_inv in H; destruct H as (? & ? & Hm & H).
      inversion Hm; inversion H; subst. left.
      split; [reflexivity | split; [reflexivity | split; reflexivity]].
    + edestruct variables_list_free_spec as (s2 & Hf & He & _); [exact Hn|].
      unfold bind in H; rewrite Hf in H; inversion H; subst.
      right; split; [reflexivity | exact He].
  - inversion H; subst. left.
    split; [reflexivity | split; [reflexivity | split; reflexivity]].
Qed.

Lemma load_entries_false env vars :
  forall i s s',
    nodes (variables_list s) <> None ->
    load_entries env vars i s = Ok (false, s') ->
    variables_list s' = empty_list.
Proof.
  induction vars as [|var rest IH]; intros i s s' Hn H; simpl in H.
  - discriminate H.
  - apply bind_inv in H; destruct H as (type_item & s1 & E1 & H).
    apply bind_inv in H; destruct H as (name_item & s2 & E2 & H).
    apply bind_inv in H; destruct H as (type_str & s3 & E3 & H).
    apply deref_inv in E1, E2, E3.
    destruct E1 as [_ ->], E2 as [_ ->], E3 as [_ ->].
    destruct (alloc_ok env i).
    + apply bind_inv in H; destruct H as (data & s1 & Hb & H).
      apply build_variable_pure in Hb; subst s1.
      destruct data as [node|]; [|eapply IH; eassumption].
      apply bind_inv in H; destruct H as (added & s1 & Ha & H).
      edestruct variables_list_add_spec as (ns & _ & Hs1); [exact Ha|].
      assert (Hn1 : nodes (variables_list s1) <> None) by congruence.
      destruct added; [eapply IH; eassumption|].
      edestruct variables_list_free_spec as (s2 & Hf & He & _); [exact Hn1|].
      unfold bind in H; rewrite Hf in H; inversion H; subst; exact He.
    + edestruct variables_list_free_spec as (s2 & Hf & He & _); [exact Hn|].
      unfold bind in H; rewrite Hf in H; inversion H; subst; exact He.
Qed.

Lemma load_entries_nodes env vars :
  forall i s b s',
    nodes (variables_list s) <> None ->
    load_entries env vars i s = Ok (b, s') ->
    b = true -> nodes (variables_list s') <> None.
Proof.
  induction vars as [|var rest IH]; intros i s b s' Hn H Hb; simpl in H.
  - inversion H; subst; exact Hn.
  - subst b. apply bind_inv in H; destruct H as (type_item & s1 & E1 & H).
    apply bind_inv in H; destruct H as (name_item & s2 & E2 & H).
    apply bind_inv in H; destruct H as (type_str & s3 & E3 & H).
    apply deref_inv in E1, E2, E3.
    destruct E1 as [_ ->], E2 as [_ ->], E3 as [_ ->].
    destruct (alloc_ok env i).
    + apply bind_inv in H; destruct H as (data & s1 & Hb & H).
      apply build_variable_pure in Hb; subst s1.
      destruct data as [node|]; [|eapply IH; eauto].
      apply bind_inv in H; destruct H as (added & s1 & Ha & H).
      edestruct variables_list_add_spec as (ns & _ & Hs1); [exact Ha|].
      assert (Hn1 : nodes (variables_list s1) <> None) by congruence.
      destruct added; [eapply IH; eauto|].
      apply bind_inv in H; destruct H as (? & ? & _ & H); discriminate H.
    + apply bind_inv in H; destruct H as (? & ? & _ & H); discriminate H.
Qed.

(** C1 (as the code has it).  [load_variables] discards the previous store
    before it reads the first entry and never restores it: whenever the load
    fails, that is returns [false], the store observable afterwards is the
    empty store. *)
Theorem failed_load_leaves_empty_store
    (env : LoadEnv) (variables : option cJSON) (s s' : State) :
  load_variables env variables s = Ok (false, s') ->
  variables_list s' = empty_list.
Proof.
  unfold load_variables, variables_list_init. intros H.
  apply bind_inv in H; destruct H as (u & s1 & _ & H).
  apply bind_inv in H; destruct H as (u' & s2 & Hi & H).
  unfold modify in Hi; inversion Hi; subst s2 u'; clear Hi.
  destruct (calloc_nodes_ok env); [|inversion H; subst; reflexivity].
  apply bind_inv in H; destruct H as (u' & s2 & Hi & H).
  unfold modify in Hi; inversion Hi; subst s2 u'; clear Hi.
  apply bind_inv in H; destruct H as (completed & s3 & Hl & H).
  assert (Hn : nodes (variables_list
                (set_variables_list
                   {| nodes := Some []; capacity := cJSON_GetArraySize variables |}
                   (set_variables_list empty_list s1))) <> None)
    by (simpl; discriminate).
  destruct completed.
  - assert (Hn3 : nodes (variables_list s3) <> None)
      by (eapply load_entries_nodes; [exact Hn | exact Hl | reflexivity]).
    apply bind_inv in H; destruct H as (ow & s4 & Ho & H).
    destruct (@sampler_task_spec env s3 ow s4 Hn3 Ho) as [[-> [Hv4 _]] | [-> He]].
    + assert (Hn4 : nodes (variables_list s4) <> None) by congruence.
      destruct (@sampler_task_spec' env s4 false s' Hn4 H) as [[Hc _] | [_ He]];
        [discriminate Hc | exact He].
    + inversion H; subst; exact He.
  - inversion H; subst.
    eapply load_entries_false; [exact Hn | exact Hl].
Qed.

Lemma var_type_of_counter type_str :
  var_type_of type_str = VAR_TYPE_COUNTER -> type_str = "Counter".
Proof.
  unfold var_type_of.
  repeat match goal with
         | |- context [if ?b then _ else _] => destruct b eqn:?
         end; try discriminate.
  intros _. apply String.eqb_eq. assumption.
Qed.

Lemma field_double_inv var key s v s' :
  field_double var key s = Ok (v, s') ->
  json_double var key = Some v /\ s' = s.
Proof.
  unfold field_double, json_double, bind, ret; intros H.
  destruct (cJSON_GetObjectItem (Some var) key); simpl in *;
    inversion H; auto.
Qed.

Lemma build_variable_counter env var vt ts nm s c s' :
  build_variable env var vt ts nm s = Ok (Some (NodeCounter c), s') ->
  vt = VAR_TYPE_COUNTER /\ nm = Some (name (c_base c)) /\
  type (c_base c) = ts /\
  json_double var "PV" = Some (pv c) /\
  json_double var "CV" = Some (cv c) /\
  cu c = field_true var "CU" /\ cd c = field_true var "CD" /\
  qu c = field_true var "QU" /\ qd c = field_true var "QD".
Proof.
  unfold build_variable; intros H.
  apply bind_inv in H; destruct H as (n & s1 & Hn & H).
  apply deref_inv in Hn; destruct Hn as [-> ->].
  destruct vt;
    repeat (apply bind_inv in H; destruct H as (? & ? & ? & H));
    try (destruct (adc_sensor_init_ok _ _ _ _));
    try (inversion H; fail).
  unfold ret in H; inversion H; subst; clear H; simpl.
  repeat match goal with
         | Hd : field_double _ _ _ = Ok _ |- _ =>
             apply field_double_inv in Hd; destruct Hd as [? ->]
         end.
  repeat split; assumption.
Qed.

Lemma load_entries_counters env vars :
  forall i s b s' ns c,
    nodes (variables_list s) = Some ns ->
    load_entries env vars i s = Ok (b, s') ->
    In (NodeCounter c) (entries (variables_list s')) ->
    In (NodeCounter c) ns \/
    exists var, In var vars /\ counter_entry var c.
Proof.
  induction vars as [|var rest IH]; intros i s b s' ns c Hns H Hin; simpl in H.
  - inversion H; subst. left. unfold entries in Hin.
    rewrite Hns in Hin; exact Hin.
  - destruct b.
    2:{ assert (He : variables_list s' = empty_list).
        { eapply load_entries_false with (vars := var :: rest);
            [|exact H]. congruence. }
        rewrite He in Hin. destruct Hin. }
    apply bind_inv in H; destruct H as (type_item & s1 & E1 & H).
    apply bind_inv in H; destruct H as (name_item & s2 & E2 & H).
    apply bind_inv in H; destruct H as (type_str & s3 & E3 & H).
    apply deref_inv in E1, E2, E3.
    destruct E1 as [E1 ->], E2 as [E2 ->], E3 as [E3 ->].
    destruct (alloc_ok env i).
    2:{ apply bind_inv in H; destruct H as (? & ? & _ & H); discriminate H. }
    apply bind_inv in H; destruct H as (data & s1 & Hb & H).
    assert (s = s1) by (eapply build_variable_pure; exact Hb); subst s1.
    destruct data as [node|].
    + apply bind_inv in H; destruct H as (added & s1 & Ha & H).
      edestruct variables_list_add_spec as (ns' & Hs & Hs1); [exact Ha|].
      rewrite Hns in Hs; inversion Hs; subst ns'; clear Hs.
      destruct added.
      2:{ apply bind_inv in H; destruct H as (? & ? & _ & H); discriminate H. }
      edestruct IH as [Hold | (v & Hv & Hc)]; [exact Hs1 | exact H | exact Hin | |].
      * apply in_app_or in Hold. destruct Hold as [Hold | [Hnew | []]].
        -- left; exact Hold.
        -- right. exists var. split; [left; reflexivity|]. subst node.
           apply build_variable_counter in Hb.
           destruct Hb as (Hvt & Hnm & Hty & Hpv & Hcv & Hcu & Hcd & Hqu & Hqd).
           apply var_type_of_counter in Hvt. subst type_str.
           change (cJSON_GetObjectItem (Some var) "Type" = Some type_item)
             in E1.
           change (cJSON_GetObjectItem (Some var) "Name" = Some name_item)
             in E2.
           unfold counter_entry, json_string.
           rewrite E1, E2, E3, <- Hnm.
           repeat split; assumption.
      * right. exists v. split; [right; exact Hv | exact Hc].
    + edestruct IH as [Hold | (v & Hv & Hc)]; [exact Hns | exact H | exact Hin | |].
      * left; exact Hold.
      * right. exists v. split; [right; exact Hv | exact Hc].
Qed.

Lemma load_variables_true env variables s s' :
  load_variables env variables s = Ok (true, s') ->
  exists s0 s3,
    nodes (variables_list s0) = Some [] /\
    load_entries env (cJSON_children variables) 0 s0 = Ok (true, s3) /\
    variables_list s' = variables_list s3.
Proof.
  unfold load_variables, variables_list_init. intros H.
  apply bind_inv in H; destruct H as (u & s1 & _ & H).
  apply bind_inv in H; destruct H as (u' & s2 & Hi & H).
  unfold modify in Hi; inversion Hi; subst s2 u'; clear Hi.
  destruct (calloc_nodes_ok env); [|discriminate H].
  apply bind_inv in H; destruct H as (u' & s2 & Hi & H).
  unfold modify in Hi; inversion Hi; subst s2 u'; clear Hi.
  apply bind_inv in H; destruct H as (completed & s3 & Hl & H).
  destruct completed; [|discriminate H].
  eexists; exists s3. split; [|split; [exact Hl|]]; [reflexivity|].
  assert (Hn : nodes (variables_list
                (set_variables_list
                   {| nodes := Some []; capacity := cJSON_GetArraySize variables |}
                   (set_variables_list empty_list s1))) <> None)
    by (simpl; discriminate).
  assert (Hn3 : nodes (variables_list s3) <> None)
    by (eapply load_entries_nodes; [exact Hn | exact Hl | reflexivity]).
  apply bind_inv in H; destruct H as (ow & s4 & Ho & H).
  destruct (@sampler_task_spec env s3 ow s4 Hn3 Ho) as [[-> [Hv4 _]] | [-> He]];
    [|discriminate H].
  assert (Hn4 : nodes (variables_list s4) <> None) by congruence.
  destruct (@sampler_task_spec' env s4 true s' Hn4 H) as [[_ [Hv5 _]] | [Hc _]];
    [congruence | discriminate Hc].
Qed.

(** C3 (as the code has it).  Immediately after every successful load of a
    variable table, every Counter variable in the store holds exactly what
    its array entry gives: [pv] and [cv] are the entry's ["PV"] and ["CV"] numbers and
    each of [cu], [cd], [qu], [qd] is true exactly when the entry's member of
    that name is the JSON literal [true].  The load does not recompute [qu]
    and [qd]; they satisfy [qu = (cv >= pv)] and [qd = (cv <= 0)] after the
    load exactly when the entry's own values do. *)
Theorem loaded_counters_copy_their_entries
    (env : LoadEnv) (variables : option cJSON) (s s' : State) (c : Counter) :
  load_variables env variables s = Ok (true, s') ->
  In (NodeCounter c) (entries (variables_list s')) ->
  exists var,
    In var (cJSON_children variables) /\ counter_entry var c /\
    (counter_flags_ok c <->
     (field_true var "QU" = PrimFloat.leb (pv c) (cv c) /\
      field_true var "QD" = PrimFloat.leb (cv c) 0)).
Proof.
  intros H Hin.
  apply load_variables_true in H. destruct H as (s0 & s3 & H0 & Hl & Hv).
  unfold entries in Hin. rewrite Hv in Hin.
  edestruct load_entries_counters as [Hold | (var & Hvar & Hc)];
    [exact H0 | exact Hl | exact Hin | destruct Hold |].
  exists var. split; [exact Hvar|]. split; [exact Hc|].
  destruct Hc as (_ & _ & _ & _ & _ & _ & _ & Hqu & Hqd).
  unfold counter_flags_ok. rewrite Hqu, Hqd. tauto.
Qed.

(** C4 (as the code has it).  For every name whose base resolves to a
    variable of the store: when the variable is a counter or a timer and the
    name carries a recognised suffix that is none of its boolean fields, or
    when the variable is of a kind without a boolean value (one-wire input,
    ADC sensor, number, time), [read_variable] returns [false] and
    [write_variable] changes nothing, and neither faults.  When the variable
    is a Boolean, the suffix is not looked at: the read returns the flag and
    the write stores into it. *)
Theorem mismatched_boolean_access_is_inert
    (var_name base_name : string) (suffix : option string)
    (i : nat) (node : VariableNode) (value : bool) (s : State) :
  parse_variable_name var_name MAX_VAR_NAME_LENGTH = Some (base_name, suffix) ->
  find_index (entries (variables_list s)) base_name = Some (i, node) ->
  (no_boolean_field node suffix = true ->
   read_variable var_name s = Ok (false, s) /\
   write_variable var_name value s = Ok (tt, s)) /\
  (forall b, node = NodeBoolean b ->
   read_variable var_name s = Ok (b_value b, s) /\
   write_variable var_name value s =
     store_node i (NodeBoolean {| b_base := b_base b; b_value := value |}) s).
Proof.
  intros Hp Hf.
  unfold read_variable, write_variable, find_variable, bind, get, ret.
  rewrite Hp; simpl. rewrite Hf; simpl.
  split.
  - intros Hm.
    destruct node; simpl in Hm; try discriminate Hm;
      try (split; reflexivity);
      destruct suffix as [p|]; try discriminate Hm; simpl;
      apply negb_true_iff in Hm;
      repeat (apply orb_false_iff in Hm; destruct Hm as [Hm ?]);
      repeat match goal with
             | Hx : streq _ _ = false |- _ => rewrite Hx; clear Hx
             end;
      split; reflexivity.
  - intros b ->. split; reflexivity.
Qed.

(* ------------------------------------------------------------------ *)
(** ** The rising-edge gate and the division *)
(* ------------------------------------------------------------------ *)

Lemma strncpy_short s n : String.length s <= n -> strncpy s n = s.
Proof.
  unfold strncpy. revert n; induction s as [|c s IH]; intros [|n] H; simpl in *;
    try reflexivity; try lia.
  rewrite IH; [reflexivity | lia].
Qed.

Lemma find_one_shot_some l v i :
  find_one_shot l v = Some i ->
  exists e, nth_error l i = Some e /\ os_var_name e = v.
Proof.
  revert i; induction l as [|h t IH]; intros i H; simpl in H; [discriminate|].
  destruct (streq (os_var_name h) v) eqn:E.
  - inversion H; subst. exists h. split; [reflexivity|].
    apply String.eqb_eq; exact E.
  - destruct (find_one_shot t v) as [j|]; [|discriminate].
    inversion H; subst. destruct (IH j eq_refl) as (e & He & Hn).
    exists e; split; assumption.
Qed.

Lemma find_one_shot_update l v i b :
  find_one_shot (list_update l i (fun e => set_prev_state e b)) v =
  find_one_shot l v.
Proof.
  revert i; induction l as [|h t IH]; intros [|i]; simpl; try reflexivity.
  rewrite IH; reflexivity.
Qed.

Lemma find_one_shot_app l v e :
  find_one_shot l v = None ->
  streq (os_var_name e) v = true ->
  find_one_shot (l ++ [e]) v = Some (List.length l).
Proof.
  intros Hn He; induction l as [|h t IH]; simpl in *.
  - rewrite He; reflexivity.
  - destruct (streq (os_var_name h) v); [discriminate|].
    destruct (find_one_shot t v); [discriminate|].
    rewrite IH; reflexivity.
Qed.

Lemma nth_error_list_update {A} (l : list A) i f :
  nth_error (list_update l i f) i = option_map f (nth_error l i).
Proof.
  revert i; induction l as [|h t IH]; intros [|i]; simpl; auto.
Qed.

Lemma list_update_id {A} (l : list A) i f e :
  nth_error l i = Some e -> f e = e -> list_update l i f = l.
Proof.
  revert i; induction l as [|h t IH]; intros [|i] Hn Hf; simpl in *;
    try discriminate.
  - inversion Hn; subst; rewrite Hf; reflexivity.
  - rewrite (IH i Hn Hf); reflexivity.
Qed.

Lemma set_one_shot_states_id (s : State) :
  set_one_shot_states (one_shot_states s) s = s.
Proof. destruct s; reflexivity. Qed.

(** What [r_trig] does when the table already has an entry for the name. *)
Lemma r_trig_known v condition s p :
  prev_of s v = Some p ->
  exists s', r_trig v condition s = Ok (condition && negb p, s') /\
             prev_of s' v = Some condition /\ same_store s s' /\
             (p = condition -> s' = s).
Proof.
  unfold prev_of. intros H.
  destruct (find_one_shot (one_shot_states s) v) as [i|] eqn:Hf; [|discriminate].
  destruct (nth_error (one_shot_states s) i) as [e|] eqn:Hn; [|discriminate].
  simpl in H; inversion H; subst p; clear H.
  eexists. split; [|split; [|split]].
  - unfold r_trig, get_one_shot_state, load_prev_state, store_prev_state,
      bind, get, ret, modify. rewrite Hf. simpl. rewrite Hn. simpl.
    reflexivity.
  - simpl. rewrite find_one_shot_update, Hf, nth_error_list_update, Hn.
    reflexivity.
  - split; reflexivity.
  - intros Hp. erewrite list_update_id; [apply set_one_shot_states_id | exact Hn |].
    destruct e; simpl in *; subst; reflexivity.
Qed.


Lemma read_numeric_variable_frame x s s1 :
  same_store s s1 ->
  value_of (read_numeric_variable x s1) = value_of (read_numeric_variable x s).
Proof.
  intros [Hv Hh].
  unfold read_numeric_variable, find_variable, deref, fault, bind, get, ret.
  destruct (parse_variable_name x MAX_VAR_NAME_LENGTH) as [[base sfx]|];
    [|reflexivity].
  cbv beta iota. rewrite Hv.
  destruct (find_index (entries (variables_list s)) base) as [[i node]|];
    [|reflexivity].
  destruct node; cbn [snd]; cbv beta iota; try reflexivity;
    try (destruct sfx; [|reflexivity]);
    repeat match goal with
           | |- context [if streq ?y ?z then _ else _] => destruct (streq y z)
           end; cbv beta iota; rewrite ?Hh; reflexivity.
Qed.

(** The run of [divide] whose gate fires on a divisor below the threshold. *)
Lemma divide_suppressed a b c condition s s1 va vb sa sb :
  r_trig c condition s = Ok (true, s1) ->
  read_numeric_variable a s1 = Ok (va, sa) ->
  read_numeric_variable b s1 = Ok (vb, sb) ->
  PrimFloat.ltb (PrimFloat.abs vb) DIV_EPSILON = true ->
  divide a b c condition s = Ok (tt, s1).
Proof.
  intros Hr Ha Hb Hz.
  assert (s1 = sa) by (eapply read_numeric_variable_pure; exact Ha).
  assert (s1 = sb) by (eapply read_numeric_variable_pure; exact Hb).
  subst sa sb.
  unfold divide. erewrite bind_ok by exact Hr. cbv iota.
  erewrite bind_ok by exact Ha. erewrite bind_ok by exact Hb.
  rewrite Hz. reflexivity.
Qed.

Lemma r_trig_same_store v c : Preserves same_store (r_trig v c).
Proof.
  intros s r s' H.
  destruct (prev_of s v) as [p|] eqn:Hp.
  - destruct (@r_trig_known v c s p Hp) as (s1 & Hr & _ & Hs & _).
    rewrite Hr in H; inversion H; subst; exact Hs.
  - unfold prev_of in Hp.
    unfold r_trig, get_one_shot_state, load_prev_state, store_prev_state,
      bind, get, ret, modify in H.
    destruct (find_one_shot (one_shot_states s) v) as [i|] eqn:Hf.
    + destruct (@find_one_shot_some _ _ _ Hf) as (e & He & _).
      rewrite He in Hp; discriminate.
    + destruct (List.length (one_shot_states s) <? MAX_ONE_SHOT_STATES)%nat.
      * simpl in H. rewrite nth_error_app2 in H by lia.
        rewrite Nat.sub_diag in H. simpl in H.
        inversion H; subst; split; reflexivity.
      * inversion H; subst; split; reflexivity.
Qed.

(** C7.  Whenever [divide a b c cond] is invoked, the rising-edge gate on
    [c] fires and the value read for [b] is below [1e-6] in absolute value,
    the call returns without writing: the variable store and the pin
    hardware are what they were before the call, and so reading [c] (or any
    other name) gives the same value as before. *)
Theorem divide_by_near_zero_writes_nothing
    (a b c : string) (condition : bool) (s s1 sa sb : State) (va vb : float) :
  r_trig c condition s = Ok (true, s1) ->
  read_numeric_variable a s1 = Ok (va, sa) ->
  read_numeric_variable b s1 = Ok (vb, sb) ->
  PrimFloat.ltb (PrimFloat.abs vb) DIV_EPSILON = true ->
  divide a b c condition s = Ok (tt, s1) /\
  same_store s s1 /\
  forall x, value_of (read_numeric_variable x s1) =
            value_of (read_numeric_variable x s).
Proof.
  intros Hr Ha Hb Hz.
  assert (Hs : same_store s s1) by (eapply r_trig_same_store; exact Hr).
  split; [eapply divide_suppressed; eassumption|].
  split; [exact Hs|].
  intros x; apply read_numeric_variable_frame; exact Hs.
Qed.


(* ------------------------------------------------------------------ *)
(** ** Chunked ingestion *)
(* ------------------------------------------------------------------ *)

Lemma same_but_ingest_refl s : same_but_ingest s s.
Proof. repeat split. Qed.

Lemma same_but_ingest_sym s s' : same_but_ingest s s' -> same_but_ingest s' s.
Proof. unfold same_but_ingest; intuition congruence. Qed.

Lemma same_but_ingest_trans s1 s2 s3 :
  same_but_ingest s1 s2 -> same_but_ingest s2 s3 -> same_but_ingest s1 s3.
Proof. unfold same_but_ingest; intuition congruence. Qed.

Lemma same_but_ingest_program s s' :
  same_but_ingest s s' -> applied_program s' = applied_program s.
Proof.
  unfold same_but_ingest, applied_program; intros H.
  destruct H as (-> & -> & _ & _ & _ & _ & _ & ->); reflexivity.
Qed.

Lemma same_outcome_program (o o' : outcome (unit * State)) :
  same_outcome o o' -> program_of o' = program_of o.
Proof.
  destruct o as [[[] s]| |], o' as [[[] s']| |]; simpl; try tauto.
  intros [_ H]. rewrite (same_but_ingest_program H). reflexivity.
Qed.

Lemma respects_ret {A} (a : A) : Respects (ret a).
Proof. intros s s' H; simpl; auto. Qed.

Lemma respects_fault {A} : Respects (@fault P A).
Proof. intros s s' H; exact I. Qed.

Lemma respects_deref {A} (p : option A) : Respects (deref p).
Proof. destruct p; [apply respects_ret | apply respects_fault]. Qed.

Lemma respects_modify f :
  (forall s s', same_but_ingest s s' -> same_but_ingest (f s) (f s')) ->
  Respects (modify f).
Proof. intros Hf s s' H; simpl; auto. Qed.

Lemma respects_bind {A B} (m : M A) (f : A -> M B) :
  Respects m -> (forall a, Respects (f a)) -> Respects (bind m f).
Proof.
  intros Hm Hf s s' H. unfold bind.
  specialize (Hm s s' H).
  destruct (m s) as [[a s1]| |], (m s') as [[a' s1']| |]; simpl in Hm;
    try tauto.
  destruct Hm as [-> Hm]. apply Hf; exact Hm.
Qed.

(** An obligation about one field update: unfold and compare field by
    field. *)
Ltac fields :=
  let H := fresh in
  intros ? ? H; unfold same_but_ingest in *; simpl;
  destruct H as (? & ? & ? & ? & ? & ? & ? & ?);
  repeat split; congruence.

Ltac respects_step :=
  lazymatch goal with
  | |- Respects (ret _) => apply respects_ret
  | |- Respects fault => apply respects_fault
  | |- Respects (deref _) => apply respects_deref
  | |- Respects (modify _) => apply respects_modify; fields
  | |- Respects (bind _ _) => apply respects_bind; [ | intros]
  | |- Respects (if ?b then _ else _) => destruct b
  | |- Respects (match ?x with _ => _ end) => destruct x
  end.

Ltac respects :=
  repeat first [ solve [auto with respects] | respects_step ].

(** A computation that starts by reading the state respects the ingestor's
    fields when what it does with the state read does. *)
Lemma respects_get {A} (k : State -> M A) :
  (forall s s', same_but_ingest s s' -> same_outcome (k s s) (k s' s')) ->
  Respects (bind get k).
Proof. intros Hk s s' H. unfold bind, get. apply Hk; exact H. Qed.

Lemma variables_list_free_respects : Respects variables_list_free.
Proof.
  unfold variables_list_free. apply respects_get. intros s s' H.
  assert (Hv : variables_list s' = variables_list s) by apply H.
  rewrite Hv. destruct (nodes (variables_list s)).
  - assert (R : Respects (modify (set_variables_list empty_list) ;;;
                          modify (set_sampler_tasks false false)))
      by respects.
    apply R; exact H.
  - simpl; auto.
Qed.
Hint Resolve variables_list_free_respects : respects.

Lemma variables_list_add_respects n : Respects (variables_list_add n).
Proof.
  unfold variables_list_add. apply respects_get. intros s s' H.
  assert (Hv : variables_list s' = variables_list s) by apply H.
  rewrite Hv.
  match goal with
  | |- same_outcome (?m s) (?m s') => assert (R : Respects m) by respects
  end.
  apply R; exact H.
Qed.
Hint Resolve variables_list_add_respects : respects.

Lemma build_variable_respects env var vt ts nm :
  Respects (build_variable env var vt ts nm).
Proof. unfold build_variable, field_string, field_double. respects. Qed.
Hint Resolve build_variable_respects : respects.

Lemma load_entries_respects env vars :
  forall i, Respects (load_entries env vars i).
Proof.
  induction vars as [|var rest IH]; intros i; simpl; respects.
Qed.
Hint Resolve load_entries_respects : respects.

Lemma create_one_wire_task_respects env : Respects (create_one_wire_task env).
Proof.
  unfold create_one_wire_task. apply respects_get. intros s s' H.
  assert (Hv : variables_list s' = variables_list s) by apply H.
  assert (Ha : adc_sensor_task_handle s' = adc_sensor_task_handle s)
    by apply H.
  rewrite Hv, Ha.
  match goal with
  | |- same_outcome (?m s) (?m s') => assert (R : Respects m) by respects
  end.
  apply R; exact H.
Qed.
Hint Resolve create_one_wire_task_respects : respects.

Lemma create_adc_sensor_task_respects env :
  Respects (create_adc_sensor_task env).
Proof.
  unfold create_adc_sensor_task. apply respects_get. intros s s' H.
  assert (Hv : variables_list s' = variables_list s) by apply H.
  assert (Ha : one_wire_task_handle s' = one_wire_task_handle s) by apply H.
  rewrite Hv, Ha.
  match goal with
  | |- same_outcome (?m s) (?m s') => assert (R : Respects m) by respects
  end.
  apply R; exact H.
Qed.
Hint Resolve create_adc_sensor_task_respects : respects.

Lemma load_variables_respects env variables :
  Respects (load_variables env variables).
Proof. unfold load_variables, variables_list_init. respects. Qed.
Hint Resolve load_variables_respects : respects.

Lemma delete_all_tasks_respects : Respects delete_all_tasks.
Proof.
  unfold delete_all_tasks. apply respects_get. intros s s' H.
  assert (Ht : tasks s' = tasks s) by apply H.
  rewrite Ht.
  unfold bind, modify, ret.
  destruct (is_some (config_timeout_timer s)),
           (is_some (config_timeout_timer s')),
           (is_some (large_buffer s)), (is_some (large_buffer s')),
           (is_some (tasks s)); simpl; split; try reflexivity;
    unfold same_but_ingest in *; simpl; intuition congruence.
Qed.
Hint Resolve delete_all_tasks_respects : respects.

Lemma apply_config_respects env json lf : Respects (apply_config env json lf).
Proof.
  unfold apply_config.
  apply respects_bind; [respects | intros _].
  apply respects_get. intros s s' H.
  match goal with
  | |- same_outcome (bind ?a ?k s) (bind ?a' ?k s') =>
      assert (Ra : same_outcome (a s) (a' s'));
      [| assert (Rk : forall x, Respects (k x)) by (intros; respects)]
  end.
  - destruct (negb lf && nvs_writable env); simpl; split; try reflexivity;
      unfold same_but_ingest in *; simpl; intuition congruence.
  - unfold bind.
    match type of Ra with
    | same_outcome ?o ?o' =>
        destruct o as [[[] s1]| |], o' as [[[] s1']| |]; simpl in Ra; try tauto
    end.
    apply (Rk tt). apply Ra.
Qed.

Lemma app_eq_cases {A} (a b c d : list A) :
  a ++ b = c ++ d ->
  (exists l, l <> [] /\ c = a ++ l /\ b = l ++ d) \/
  (exists l, a = c ++ l /\ d = l ++ b).
Proof.
  intros H. apply app_eq_app in H. destruct H as (l & [[H1 H2] | [H1 H2]]).
  - right. exists l. split; assumption.
  - destruct l as [|x l].
    + right. exists []. rewrite app_nil_r in H1. simpl in H2.
      split; [rewrite app_nil_r; symmetry; exact H1 | symmetry; exact H2].
    + left. exists (x :: l). split; [discriminate | split; assumption].
Qed.

(** One call of [configure] when the heap answers and the timeout timer
    exists or can be created. *)
Lemma configure_step env lf data s acc :
  realloc_ok env = true -> timer_ready env s = true ->
  buffer_holds s acc ->
  let s1 := set_buffer (Some (acc ++ data))
              (List.length acc + List.length data)
              (set_config_timeout_timer (Some true) s) in
  configure env lf data s =
  match cJSON_Parse (c_str (acc ++ data)) with
  | Some json => apply_config env json lf s1
  | None => Ok (tt, s1)
  end.
Proof.
  intros Hr Ht [Hn Hb] s1. unfold configure, bind, get, modify.
  unfold timer_ready in Ht. rewrite <- negb_orb, Ht, Hr. simpl.
  assert (Hacc : firstn (total_received s)
                   match large_buffer s with Some b => b | None => [] end
                 = acc).
  { rewrite Hn. destruct Hb as [-> | [-> ->]]; [apply firstn_all | reflexivity]. }
  rewrite Hacc, Hn. fold s1.
  destruct (cJSON_Parse (c_str (acc ++ data))); reflexivity.
Qed.

(** Without a timer [configure] returns at once, for every chunk. *)
Lemma configure_refused env lf data s :
  timer_ready env s = false -> configure env lf data s = Ok (tt, s).
Proof.
  intros H. unfold configure, bind, get.
  unfold timer_ready in H. rewrite <- negb_orb, H. reflexivity.
Qed.

Lemma run_chunks_refused env lf chunks s :
  timer_ready env s = false -> run_chunks env lf chunks s = Ok (tt, s).
Proof.
  intros H. induction chunks as [|c rest IH]; simpl; [reflexivity|].
  unfold bind. rewrite (@configure_refused env lf c s H). exact IH.
Qed.

(** Without heap [configure] drops what it holds, for every chunk. *)
Lemma configure_without_heap env lf data s :
  realloc_ok env = false ->
  exists s', configure env lf data s = Ok (tt, s') /\ same_but_ingest s s'.
Proof.
  intros Hr. unfold configure, bind, get, modify.
  destruct (negb (is_some (config_timeout_timer s)) && negb (timer_created env)).
  - exists s. split; [reflexivity | apply same_but_ingest_refl].
  - rewrite Hr. simpl. eexists. split; [reflexivity | repeat split].
Qed.

Lemma run_chunks_without_heap env lf chunks :
  realloc_ok env = false ->
  forall s, exists s', run_chunks env lf chunks s = Ok (tt, s') /\
                       same_but_ingest s s'.
Proof.
  intros Hr. induction chunks as [|c rest IH]; intros s; simpl.
  - exists s. split; [reflexivity | apply same_but_ingest_refl].
  - destruct (@configure_without_heap env lf c s Hr) as (s1 & Hc & H1).
    destruct (IH s1) as (s2 & Hrun & H2).
    exists s2. split.
    + unfold bind. rewrite Hc. exact Hrun.
    + eapply same_but_ingest_trans; eassumption.
Qed.

Lemma apply_config_idle env json lf s s' :
  apply_config env json lf s = Ok (tt, s') -> idle s'.
Proof.
  unfold apply_config. intros H.
  repeat (apply bind_inv in H; destruct H as (? & ? & _ & H)).
  repeat match type of H with
         | (if ?b then _ else _) _ = _ => destruct b
         end;
    repeat (apply bind_inv in H; destruct H as (? & ? & _ & H));
    inversion H; split; reflexivity.
Qed.

Section Ingestion.

Variables (env : ConfigEnv) (lf : bool) (doc trail : list ascii)
          (json : cJSON).
Hypothesis Hrealloc : realloc_ok env = true.
Hypothesis Hvalid : valid_document doc trail json.

(** Chunks after the apply point that the ingestor accumulates. *)
Lemma trailing_chunks_kept chunks :
  forall acc s x z,
    timer_ready env s = true ->
    buffer_holds s acc ->
    trail = x ++ (acc ++ List.concat chunks) ++ z ->
    exists s', run_chunks env lf chunks s = Ok (tt, s') /\
               same_but_ingest s s'.
Proof.
  induction chunks as [|c rest IH]; intros acc s x z Hready Hb Ht; simpl.
  - exists s. split; [reflexivity | apply same_but_ingest_refl].
  - simpl in Ht.
    assert (Hnone : cJSON_Parse (c_str (acc ++ c)) = None).
    { destruct Hvalid as (_ & _ & H3).
      apply (H3 x (acc ++ c) (List.concat rest ++ z)).
      rewrite Ht, <- !app_assoc. reflexivity. }
    pose proof (@configure_step env lf c s acc Hrealloc Hready Hb) as Hc.
    simpl in Hc. rewrite Hnone in Hc.
    destruct (IH (acc ++ c)
                (set_buffer (Some (acc ++ c))
                   (List.length acc + List.length c)
                   (set_config_timeout_timer (Some true) s)) x z)
      as (s' & Hrun & Hs').
    + reflexivity.
    + split; [simpl; rewrite length_app; reflexivity | left; reflexivity].
    + rewrite Ht, <- !app_assoc. reflexivity.
    + exists s'. split.
      * unfold bind. rewrite Hc. exact Hrun.
      * eapply same_but_ingest_trans; [|exact Hs']. repeat split.
Qed.

(** Chunks after the apply point, accumulated or refused. *)
Lemma trailing_chunks chunks s x z :
  buffer_holds s [] ->
  trail = x ++ List.concat chunks ++ z ->
  exists s', run_chunks env lf chunks s = Ok (tt, s') /\
             same_but_ingest s s'.
Proof.
  intros Hb Ht. destruct (timer_ready env s) eqn:Hready.
  - apply (@trailing_chunks_kept chunks [] s x z Hready Hb). exact Ht.
  - exists s. split; [apply run_chunks_refused; exact Hready|].
    apply same_but_ingest_refl.
Qed.

Lemma pending_chunks s0 chunks :
  forall acc s,
    timer_ready env s = true ->
    buffer_holds s acc ->
    List.length acc < List.length doc ->
    acc ++ List.concat chunks = doc ++ trail ->
    same_but_ingest s0 s ->
    program_of (run_chunks env lf chunks s) =
    program_of (apply_config env json lf s0).
Proof.
  induction chunks as [|c rest IH]; intros acc s Hready Hb Hlen Heq Hs; simpl.
  - simpl in Heq. rewrite app_nil_r in Heq. subst acc.
    rewrite length_app in Hlen. lia.
  - simpl in Heq. rewrite app_assoc in Heq.
    pose proof (@configure_step env lf c s acc Hrealloc Hready Hb) as Hc.
    simpl in Hc.
    set (s1 := set_buffer (Some (acc ++ c))
                 (List.length acc + List.length c)
                 (set_config_timeout_timer (Some true) s)) in *.
    assert (Hs1 : same_but_ingest s0 s1).
    { eapply same_but_ingest_trans; [exact Hs|]. repeat split. }
    destruct (@app_eq_cases _ _ _ _ _ Heq) as [(l & Hl & Hd & Hr) | (l & Ha & Ht)].
    + (* the document is still incomplete *)
      destruct Hvalid as (H1 & _ & _).
      rewrite (H1 (acc ++ c) l Hd Hl) in Hc.
      unfold bind. rewrite Hc.
      apply (IH (acc ++ c) s1).
      * reflexivity.
      * split; [simpl; rewrite length_app; reflexivity | left; reflexivity].
      * rewrite Hd. destruct l; [congruence | rewrite !length_app; simpl; lia].
      * rewrite <- Heq. reflexivity.
      * exact Hs1.
    + (* this chunk completes the document: the apply point *)
      destruct Hvalid as (_ & H2 & _).
      rewrite Ha, (H2 l (List.concat rest) Ht) in Hc.
      unfold bind. rewrite Hc.
      pose proof (@apply_config_respects env json lf s0 s1 Hs1) as Ho.
      destruct (apply_config env json lf s0) as [[[] t0]| |] eqn:E0,
               (apply_config env json lf s1) as [[[] t1]| |] eqn:E1;
        simpl in Ho; try tauto.
      destruct Ho as [_ Ho].
      apply apply_config_idle in E1. destruct E1 as [Eb En].
      destruct (@trailing_chunks rest t1 l [])
        as (t2 & Hrun & Ht2).
      * split; [exact En | right; split; [exact Eb | reflexivity]].
      * rewrite app_nil_r. exact Ht.
      * rewrite Hrun. simpl.
        rewrite (same_but_ingest_program Ht2), (same_but_ingest_program Ho).
        reflexivity.
Qed.

Lemma doc_not_empty : doc <> [].
Proof.
  intros ->. destruct Hvalid as (_ & H2 & H3).
  specialize (H2 [] trail eq_refl). specialize (H3 [] [] trail eq_refl).
  simpl in H2, H3. congruence.
Qed.

Lemma single_chunk s :
  timer_ready env s = true ->
  idle s ->
  program_of (configure env lf (doc ++ trail) s) =
  program_of (apply_config env json lf s).
Proof.
  intros Hready [Hb Hn].
  assert (Hh : buffer_holds s [])
    by (split; [exact Hn | right; split; [exact Hb | reflexivity]]).
  pose proof (@configure_step env lf (doc ++ trail) s [] Hrealloc Hready Hh) as Hc.
  simpl in Hc.
  destruct Hvalid as (_ & H2 & _).
  rewrite (H2 trail [] (eq_sym (app_nil_r trail))) in Hc. rewrite Hc.
  apply same_outcome_program. apply apply_config_respects. repeat split.
Qed.

(** The ingestion with heap and timer at hand. *)
Lemma chunks_with_heap_and_timer chunks s :
  timer_ready env s = true ->
  idle s ->
  List.concat chunks = doc ++ trail ->
  program_of (run_chunks env lf chunks s) =
  program_of (configure env lf (doc ++ trail) s).
Proof.
  intros Hready Hi Hc.
  rewrite (single_chunk Hready Hi).
  apply pending_chunks with (acc := []).
  - exact Hready.
  - destruct Hi as [Hb Hn].
    split; [exact Hn | right; split; [exact Hb | reflexivity]].
  - pose proof doc_not_empty as Hd.
    destruct doc; [congruence | simpl; lia].
  - exact Hc.
  - apply same_but_ingest_refl.
Qed.

End Ingestion.

(** C9.  Let [doc ++ trail] be a valid configuration document.  For any
    partition of its bytes into chunks, delivered one call of [configure]
    each to an idle ingestor with no timer expiry in between, the applied
    program (device and pin hardware, variable store, wire tasks) is the one
    that the submission of the same bytes as a single chunk produces; a run
    that faults faults in both.  The platform answers the same way in both
    deliveries: when it has no heap for the buffer or no timer, neither
    delivery applies anything. *)
Theorem chunked_ingestion_applies_same_program
    (env : ConfigEnv) (loaded_from_nvs : bool) (doc trail : list ascii)
    (json : cJSON) (chunks : list (list ascii)) (s : State) :
  valid_document doc trail json ->
  idle s ->
  List.concat chunks = doc ++ trail ->
  program_of (run_chunks env loaded_from_nvs chunks s) =
  program_of (configure env loaded_from_nvs (doc ++ trail) s).
Proof.
  intros Hv Hi Hc.
  destruct (realloc_ok env) eqn:Hr.
  - destruct (timer_ready env s) eqn:Ht.
    + eapply chunks_with_heap_and_timer; eassumption.
    + rewrite (@run_chunks_refused env loaded_from_nvs chunks s Ht).
      rewrite (@configure_refused env loaded_from_nvs (doc ++ trail) s Ht).
      reflexivity.
  - destruct (@run_chunks_without_heap env loaded_from_nvs chunks Hr s)
      as (s1 & -> & H1).
    destruct (@configure_without_heap env loaded_from_nvs (doc ++ trail) s Hr)
      as (s2 & -> & H2).
    simpl. rewrite (same_but_ingest_program H1), (same_but_ingest_program H2).
    reflexivity.
Qed.

(* ------------------------------------------------------------------ *)
(** ** Running timers were started in the past *)
(* ------------------------------------------------------------------ *)

Lemma same_timers_refl s : same_timers s s.
Proof. split; reflexivity. Qed.

Lemma same_timers_trans s1 s2 s3 :
  same_timers s1 s2 -> same_timers s2 s3 -> same_timers s1 s3.
Proof. intros [A B] [C D]; split; congruence. Qed.

Lemma keeps_past_refl s : keeps_past s s.
Proof. split; [apply Nat.le_refl | auto]. Qed.

Lemma keeps_past_trans s1 s2 s3 :
  keeps_past s1 s2 -> keeps_past s2 s3 -> keeps_past s1 s3.
Proof. intros [A B] [C D]; split; [eapply Nat.le_trans; eassumption | auto]. Qed.

Lemma same_timers_keeps_past s s' : same_timers s s' -> keeps_past s s'.
Proof.
  intros [Ht Hc]; split; [rewrite Hc; apply Nat.le_refl|].
  unfold timers_started_in_past. rewrite Ht, Hc. auto.
Qed.

Lemma eq_same_timers (s s' : State) : s = s' -> same_timers s s'.
Proof. intros ->; apply same_timers_refl. Qed.

Lemma timers_started_at_boot s :
  timer_states s = [] -> timers_started_in_past s.
Proof. intros H e Hin. rewrite H in Hin. destruct Hin. Qed.

Ltac timers :=
  repeat first [ solve [auto with frames]
               | frame_step same_timers_refl (@same_timers_trans) ].

Ltac past :=
  repeat first [ solve [auto with frames]
               | frame_step keeps_past_refl (@keeps_past_trans) ].

Lemma same_timers_lift {A} (m : M A) :
  Preserves same_timers m -> Preserves keeps_past m.
Proof. apply preserves_weaken; exact same_timers_keeps_past. Qed.
Hint Resolve same_timers_lift : frames.

Lemma pure_same_timers {A} (m : M A) :
  Preserves eq m -> Preserves same_timers m.
Proof. apply preserves_weaken; exact eq_same_timers. Qed.

Lemma find_variable_same_timers v : Preserves same_timers (find_variable v).
Proof. apply pure_same_timers, find_variable_pure. Qed.
Hint Resolve find_variable_same_timers : frames.

Lemma read_variable_same_timers v : Preserves same_timers (read_variable v).
Proof. apply pure_same_timers, read_variable_pure. Qed.
Hint Resolve read_variable_same_timers : frames.

Lemma read_numeric_variable_same_timers v :
  Preserves same_timers (read_numeric_variable v).
Proof. apply pure_same_timers, read_numeric_variable_pure. Qed.
Hint Resolve read_numeric_variable_same_timers : frames.

Lemma store_node_same_timers i n : Preserves same_timers (store_node i n).
Proof. unfold store_node. timers. Qed.
Hint Resolve store_node_same_timers : frames.

Lemma write_variable_same_timers v b :
  Preserves same_timers (write_variable v b).
Proof. unfold write_variable. timers. Qed.
Hint Resolve write_variable_same_timers : frames.

Lemma write_numeric_variable_same_timers v x :
  Preserves same_timers (write_numeric_variable v x).
Proof. unfold write_numeric_variable. timers. Qed.
Hint Resolve write_numeric_variable_same_timers : frames.

Lemma get_one_shot_state_same_timers v :
  Preserves same_timers (get_one_shot_state v).
Proof. unfold get_one_shot_state. timers. Qed.
Hint Resolve get_one_shot_state_same_timers : frames.

Lemma store_prev_state_same_timers i v :
  Preserves same_timers (store_prev_state i v).
Proof. unfold store_prev_state. timers. Qed.
Hint Resolve store_prev_state_same_timers : frames.

Lemma r_trig_same_timers v c : Preserves same_timers (r_trig v c).
Proof. unfold r_trig, load_prev_state. timers. Qed.
Hint Resolve r_trig_same_timers : frames.

Lemma f_trig_same_timers v c : Preserves same_timers (f_trig v c).
Proof. unfold f_trig, load_prev_state. timers. Qed.
Hint Resolve f_trig_same_timers : frames.

Lemma variables_list_free_same_timers :
  Preserves same_timers variables_list_free.
Proof. unfold variables_list_free. timers. Qed.
Hint Resolve variables_list_free_same_timers : frames.

Lemma load_entries_same_timers env vars :
  forall i, Preserves same_timers (load_entries env vars i).
Proof.
  induction vars as [|var rest IH]; intros i; simpl;
    unfold variables_list_add, build_variable, field_string, field_double;
    timers; apply IH.
Qed.
Hint Resolve load_entries_same_timers : frames.

Lemma load_variables_same_timers env variables :
  Preserves same_timers (load_variables env variables).
Proof.
  unfold load_variables, variables_list_init, create_one_wire_task,
    create_adc_sensor_task.
  timers.
Qed.
Hint Resolve load_variables_same_timers : frames.

(** An apply leaves the timer table and the clock alone. *)
Lemma configure_same_timers env lf data :
  Preserves same_timers (configure env lf data).
Proof.
  unfold configure, apply_config, delete_all_tasks. timers.
Qed.

Section Past.

Hypothesis Hmono : clock_monotone.

Lemma esp_timer_get_time_past : Preserves keeps_past esp_timer_get_time.
Proof.
  intros s a s' H. unfold esp_timer_get_time, bind, get, modify, ret in H.
  inversion H; subst; clear H. split; cbn; [lia|].
  intros Hp e Hin Hrun. cbn in *.
  eapply Z.le_trans; [apply (Hp e Hin Hrun) | apply Hmono; lia].
Qed.
Hint Resolve esp_timer_get_time_past : frames.

Lemma get_timer_state_past v : Preserves keeps_past (get_timer_state v).
Proof.
  intros s a s' H.
  unfold get_timer_state, bind, get, modify, ret in H.
  destruct (find_timer_state _ _); [inversion H; subst; apply keeps_past_refl|].
  destruct (_ <? _)%nat; inversion H; subst; [|apply keeps_past_refl].
  split; cbn; [lia|].
  intros Hp e Hin Hrun. cbn in *.
  apply in_app_or in Hin. destruct Hin as [Hin | [<- | []]].
  - apply (Hp e Hin Hrun).
  - discriminate Hrun.
Qed.
Hint Resolve get_timer_state_past : frames.

Lemma in_list_update {A} (l : list A) i f x :
  In x (list_update l i f) -> In x l \/ exists y, In y l /\ x = f y.
Proof.
  revert i; induction l as [|h t IH]; intros [|i] H; simpl in H; auto.
  - destruct H as [<- | H]; [right; exists h; split; [left|]; reflexivity|].
    left; right; exact H.
  - destruct H as [<- | H]; [left; left; reflexivity|].
    destruct (IH i H) as [Hin | (y & Hy & ->)]; [left; right; exact Hin|].
    right; exists y; split; [right; exact Hy | reflexivity].
Qed.

Lemma set_state_running_false_past k :
  Preserves keeps_past (set_state_running k false).
Proof.
  unfold set_state_running. apply preserves_modify; intros s.
  split; cbn; [lia|].
  intros Hp e Hin Hrun. cbn in *.
  destruct (in_list_update _ _ _ _ Hin) as [Hin' | (y & _ & ->)].
  - apply (Hp e Hin' Hrun).
  - discriminate Hrun.
Qed.
Hint Resolve set_state_running_false_past : frames.

(** [state->start_time = esp_timer_get_time(); state->running = true]. *)
Lemma start_timer_past k :
  Preserves keeps_past
    (now <- esp_timer_get_time ;; set_state_started k now).
Proof.
  intros s a s' H.
  unfold esp_timer_get_time, set_state_started, bind, get, modify, ret in H.
  inversion H; subst; clear H. split; cbn; [lia|].
  intros Hp e Hin Hrun. cbn in *.
  destruct (in_list_update _ _ _ _ Hin) as [Hin' | (y & _ & ->)].
  - eapply Z.le_trans; [apply (Hp e Hin' Hrun) | apply Hmono; lia].
  - cbn. apply Hmono; lia.
Qed.
Hint Resolve start_timer_past : frames.

Lemma timers_past v c :
  Preserves keeps_past (timer_on v c) /\ Preserves keeps_past (timer_off v c).
Proof.
  unfold timer_on, timer_off, as_timer, state_running, state_start_time.
  conjs; past.
Qed.

Lemma contacts_past v :
  Preserves keeps_past (no_contact v) /\ Preserves keeps_past (nc_contact v).
Proof. unfold no_contact, nc_contact. conjs; past. Qed.

Lemma coils_past v c :
  Preserves keeps_past (coil v c) /\
  Preserves keeps_past (one_shot_positive_coil v c) /\
  Preserves keeps_past (set_coil v c) /\
  Preserves keeps_past (reset_coil v c).
Proof.
  unfold coil, one_shot_positive_coil, set_coil, reset_coil, load_prev_state.
  conjs; past.
Qed.

Lemma math_past a b c cond :
  Preserves keeps_past (add a b c cond) /\
  Preserves keeps_past (subtract a b c cond) /\
  Preserves keeps_past (multiply a b c cond) /\
  Preserves keeps_past (divide a b c cond).
Proof. unfold add, subtract, multiply, divide. conjs; past. Qed.

Lemma move_past a b cond : Preserves keeps_past (move a b cond).
Proof. unfold move. past. Qed.

Lemma compare_with_past op a b : Preserves keeps_past (compare_with op a b).
Proof. unfold compare_with. past. Qed.

Lemma counters_past v c :
  Preserves keeps_past (count_up v c) /\
  Preserves keeps_past (count_down v c) /\
  Preserves keeps_past (reset v c).
Proof. unfold count_up, count_down, reset, as_counter. conjs; past. Qed.

Lemma process_coil_past node c : Preserves keeps_past (process_coil node c).
Proof. unfold process_coil. past; apply coils_past. Qed.
Hint Resolve process_coil_past : frames.

Lemma process_element_past et v1 v2 v3 c :
  Preserves keeps_past (process_element et v1 v2 v3 c).
Proof.
  unfold process_element; cbv beta zeta.
  past;
    first [ apply contacts_past | apply compare_with_past | apply math_past
          | apply move_past | apply counters_past | apply timers_past ].
Qed.
Hint Resolve process_element_past : frames.

Lemma process_series_past pn items :
  (forall node c, Preserves keeps_past (pn node c)) ->
  forall c, Preserves keeps_past (process_series pn items c).
Proof.
  intros Hpn; induction items as [|node rest IH]; intros c; simpl; past.
Qed.

Lemma process_nodes_with_past pn nodes c :
  (forall node c, Preserves keeps_past (pn node c)) ->
  Preserves keeps_past (process_nodes_with pn nodes c).
Proof.
  intros Hpn; unfold process_nodes_with.
  past; try (apply process_series_past; exact Hpn).
Qed.

Lemma process_node_past fuel :
  forall node c, Preserves keeps_past (process_node fuel node c).
Proof.
  induction fuel as [|fuel IH]; intros node c; simpl.
  - intros s a s' H; discriminate.
  - past; try (apply process_nodes_with_past; exact IH).
Qed.

(** A scan of a wire keeps the running timers started in the past. *)
Lemma scan_wire_past fuel wire : Preserves keeps_past (scan_wire fuel wire).
Proof.
  unfold scan_wire, process_nodes.
  past; try (apply process_nodes_with_past; apply process_node_past).
Qed.

End Past.

(* ------------------------------------------------------------------ *)
(** ** Timers: the elapsed time stays between zero and the preset *)
(* ------------------------------------------------------------------ *)

Lemma find_timer_state_some l v k :
  find_timer_state l v = Some k -> exists e, nth_error l k = Some e /\ In e l.
Proof.
  revert k; induction l as [|h t IH]; intros k H; simpl in H; [discriminate|].
  destruct (streq (ts_var_name h) v).
  - inversion H; subst. exists h. split; [reflexivity | left; reflexivity].
  - destruct (find_timer_state t v) as [j|]; [|discriminate].
    inversion H; subst. destruct (IH j eq_refl) as (e & He & Hin).
    exists e; split; [exact He | right; exact Hin].
Qed.

(** With a slot available [get_timer_state] returns an entry that, when
    running, was started in the past; the store and the clock are as
    before. *)
Lemma get_timer_state_slot v s :
  timer_slot_available s v -> timers_started_in_past s ->
  exists k e s1,
    get_timer_state v s = Ok (Some k, s1) /\
    nth_error (timer_states s1) k = Some e /\
    variables_list s1 = variables_list s /\
    clock_reads s1 = clock_reads s /\
    (running e = true -> (start_time e <= clock (clock_reads s))%Z).
Proof.
  intros Hslot Hpast. unfold get_timer_state, bind, get, ret, modify.
  destruct (find_timer_state (timer_states s) v) as [k|] eqn:Hf.
  - destruct (find_timer_state_some _ _ Hf) as (e & He & Hin).
    exists k, e, s. repeat split; auto.
  - destruct Hslot as [Hs | Hs]; [congruence|].
    apply Nat.ltb_lt in Hs. rewrite Hs. simpl.
    eexists _, _, _. split; [reflexivity|]. simpl.
    rewrite nth_error_app2 by lia. rewrite Nat.sub_diag. simpl.
    repeat split; auto. simpl. discriminate.
Qed.

Lemma timer_on_written v condition s out s' i t0 :
  clock_monotone -> timers_started_in_past s -> timer_slot_available s v ->
  find_index (entries (variables_list s)) v = Some (i, NodeTimer t0) ->
  timer_on v condition s = Ok (out, s') ->
  exists x, timer_written s s' i t0 x condition out.
Proof.
  intros Hmono Hpast Hslot Hfind H.
  destruct (get_timer_state_slot Hslot Hpast) as (k & e & s1 & Hg & Hk & Hv & Hc & He).
  unfold timer_on in H.
  apply bind_inv in H. destruct H as (found & sa & Hf & H).
  unfold find_variable, bind, get, ret in Hf. rewrite Hfind in Hf.
  inversion Hf; subst found sa; clear Hf.
  apply bind_inv in H. destruct H as (node & sa & Hd & H).
  apply deref_inv in Hd. destruct Hd as [Hd ->]. inversion Hd; subst node; clear Hd.
  cbn [fst snd as_timer] in H.
  apply bind_inv in H. destruct H as (t & sa & Hr & H).
  inversion Hr; subst t sa; clear Hr.
  apply bind_inv in H. destruct H as (state & sa & Hg' & H).
  rewrite Hg in Hg'. inversion Hg'; subst state sa; clear Hg'.
  unfold timer_written.
  rewrite <- Hc in He. rewrite <- Hv. clear Hg Hpast Hslot Hfind Hv Hc s.
  unfold state_running, state_start_time, set_state_running,
    set_state_started, esp_timer_get_time, store_node, bind, get, ret,
    modify in H.
  cbn [pt set_in q] in H.
  destruct (PrimFloat.leb (pt t0) 0).
  { inversion H; subst; clear H. eexists. cbn. repeat split; auto. }
  destruct condition.
  2:{ inversion H; subst; clear H. eexists. cbn. repeat split; auto. }
  rewrite Hk in H. cbn [deref ret] in H.
  destruct (negb (running e) && negb (q t0)) eqn:Hstart.
  - cbn in H. rewrite nth_error_list_update, Hk in H. cbn in H.
    rewrite nth_error_list_update, Hk in H. cbn in H.
    assert (Hle : (clock (clock_reads s1) <= clock (S (clock_reads s1)))%Z)
      by (apply Hmono; lia).
    destruct (PrimFloat.ltb (pt t0) _) eqn:Hlt in H;
      inversion H; subst; clear H; eexists; cbn; repeat split; auto.
    right; right. split; [apply FloatFacts.elapsed_ms_nonneg; exact Hle | exact Hlt].
  - rewrite Hk in H. cbn in H.
    destruct (running e) eqn:Hrun.
    + rewrite Hk in H. cbn in H. specialize (He eq_refl).
      destruct (PrimFloat.ltb (pt t0) _) eqn:Hlt in H;
        inversion H; subst; clear H; eexists; cbn; repeat split; auto.
      right; right.
      split; [apply FloatFacts.elapsed_ms_nonneg; exact He | exact Hlt].
    + inversion H; subst; clear H. eexists. cbn. repeat split; auto.
Qed.

Lemma timer_off_written v condition s out s' i t0 :
  clock_monotone -> timers_started_in_past s -> timer_slot_available s v ->
  find_index (entries (variables_list s)) v = Some (i, NodeTimer t0) ->
  timer_off v condition s = Ok (out, s') ->
  exists x, timer_written s s' i t0 x condition out.
Proof.
  intros Hmono Hpast Hslot Hfind H.
  destruct (get_timer_state_slot Hslot Hpast) as (k & e & s1 & Hg & Hk & Hv & Hc & He).
  unfold timer_off in H.
  apply bind_inv in H. destruct H as (found & sa & Hf & H).
  unfold find_variable, bind, get, ret in Hf. rewrite Hfind in Hf.
  inversion Hf; subst found sa; clear Hf.
  apply bind_inv in H. destruct H as (node & sa & Hd & H).
  apply deref_inv in Hd. destruct Hd as [Hd ->]. inversion Hd; subst node; clear Hd.
  cbn [fst snd as_timer] in H.
  apply bind_inv in H. destruct H as (t & sa & Hr & H).
  inversion Hr; subst t sa; clear Hr.
  apply bind_inv in H. destruct H as (state & sa & Hg' & H).
  rewrite Hg in Hg'. inversion Hg'; subst state sa; clear Hg'.
  unfold timer_written.
  rewrite <- Hc in He. rewrite <- Hv. clear Hg Hpast Hslot Hfind Hv Hc s.
  unfold state_running, state_start_time, set_state_running,
    set_state_started, esp_timer_get_time, store_node, bind, get, ret,
    modify in H.
  cbn [pt set_in set_q q] in H.
  destruct (PrimFloat.leb (pt t0) 0).
  { inversion H; subst; clear H. eexists. cbn. repeat split; auto. }
  destruct condition.
  { inversion H; subst; clear H. eexists. cbn. repeat split; auto. }
  rewrite Hk in H. cbn [deref ret] in H.
  destruct (negb (running e) && q t0) eqn:Hstart.
  - cbn in H. rewrite nth_error_list_update, Hk in H. cbn in H.
    rewrite nth_error_list_update, Hk in H. cbn in H.
    assert (Hle : (clock (clock_reads s1) <= clock (S (clock_reads s1)))%Z)
      by (apply Hmono; lia).
    destruct (PrimFloat.ltb (pt t0) _) eqn:Hlt in H;
      inversion H; subst; clear H; eexists; cbn; repeat split; auto.
    right; right. split; [apply FloatFacts.elapsed_ms_nonneg; exact Hle | exact Hlt].
  - rewrite Hk in H. cbn in H.
    destruct (running e) eqn:Hrun.
    + rewrite Hk in H. cbn in H. specialize (He eq_refl).
      destruct (PrimFloat.ltb (pt t0) _) eqn:Hlt in H;
        inversion H; subst; clear H; eexists; cbn; repeat split; auto.
      right; right.
      split; [apply FloatFacts.elapsed_ms_nonneg; exact He | exact Hlt].
    + cbn in Hstart. rewrite Hstart in H. cbn in H.
      inversion H; subst; clear H. eexists. cbn. repeat split; auto.
Qed.

(** A store through the pointer [find_variable] returned, keeping the name,
    is what [find_variable] finds afterwards. *)
Lemma find_index_list_set ns v i n n' :
  find_index ns v = Some (i, n) ->
  name (node_base n') = name (node_base n) ->
  find_index (list_set ns i n') v = Some (i, n').
Proof.
  revert i; induction ns as [|h t IH]; intros i H Hn; simpl in H; [discriminate|].
  destruct (streq (name (node_base h)) v) eqn:E.
  - inversion H; subst. simpl. rewrite Hn, E. reflexivity.
  - destruct (find_index t v) as [[j m]|] eqn:F; [|discriminate].
    inversion H; subst. simpl. rewrite E.
    rewrite (IH j eq_refl Hn). reflexivity.
Qed.

(** C8 (as the code has it).  A run of [timer_on] or [timer_off] on a timer
    whose preset is positive leaves its elapsed time between zero and the
    preset, with the input flag equal to the condition and the output flag
    equal to the value returned: given a clock that never runs backwards,
    running timers that were started in the past and a slot in the timer
    table.  The elapsed time a configuration loads is not clamped, so the
    range holds only from the timer's first execution on.  The running
    timers are started in the past after the run as well, so the statement
    applies to the next run. *)
Theorem timer_run_clamps_elapsed_time
    (v : string) (condition out : bool) (s s' : State) (i : nat) (t0 : Timer) :
  clock_monotone -> timers_started_in_past s -> timer_slot_available s v ->
  find_index (entries (variables_list s)) v = Some (i, NodeTimer t0) ->
  PrimFloat.ltb 0 (pt t0) = true ->
  timer_on v condition s = Ok (out, s') \/
  timer_off v condition s = Ok (out, s') ->
  (exists t,
     find_index (entries (variables_list s')) v = Some (i, NodeTimer t) /\
     pt t = pt t0 /\ in_ t = condition /\ q t = out /\
     timer_et_in_range t) /\
  timers_started_in_past s'.
Proof.
  intros Hmono Hpast Hslot Hfind Hpt H.
  split.
  2:{ destruct (timers_past Hmono v condition) as [Hon Hoff].
      destruct H as [H | H]; [apply (Hon _ _ _ H) | apply (Hoff _ _ _ H)];
        exact Hpast. }
  assert (Hw : exists x, timer_written s s' i t0 x condition out).
  { destruct H as [H | H].
    - eapply timer_on_written; eassumption.
    - eapply timer_off_written; eassumption. }
  destruct Hw as (x & Hs' & Hb & Hp & Hi & Hq & He).
  exists x. split; [|split; [exact Hp | split; [exact Hi | split; [exact Hq|]]]].
  - rewrite Hs'. unfold entries in *. cbn.
    destruct (nodes (variables_list s)) as [ns|]; [|discriminate Hfind].
    cbn. apply find_index_list_set with (n := NodeTimer t0); [exact Hfind|].
    cbn. rewrite Hb. reflexivity.
  - unfold timer_et_in_range. rewrite Hp.
    apply FloatFacts.et_candidates; [exact Hpt | exact He].
Qed.

(* ------------------------------------------------------------------ *)
(** ** Names: splitting at a suffix and finding a variable *)
(* ------------------------------------------------------------------ *)

Lemma strncpy_app base rest :
  strncpy (base ++ rest) (String.length base) = base.
Proof.
  unfold strncpy. induction base as [|c base IH]; simpl.
  - destruct rest; reflexivity.
  - rewrite IH. reflexivity.
Qed.

Lemma length_append (a b : string) :
  String.length (a ++ b) = String.length a + String.length b.
Proof. induction a as [|c a IH]; simpl; [reflexivity | rewrite IH; reflexivity]. Qed.

(** [strrchr] returns a tail of its argument. *)
Lemma strrchr_dot_tail s t :
  strrchr_dot s = Some t -> exists p, s = (p ++ t)%string.
Proof.
  revert t; induction s as [|c s IH]; intros t H; simpl in H; [discriminate|].
  destruct (strrchr_dot s) as [u|] eqn:E.
  - inversion H; subst. destruct (IH t eq_refl) as (p & ->).
    exists (String c p). reflexivity.
  - destruct (Ascii.eqb c "."); [|discriminate].
    inversion H; subst. exists EmptyString. reflexivity.
Qed.

(** The last dot of a name that ends in a recognised suffix is the dot of
    the suffix. *)
Lemma strrchr_dot_suffix base sfx :
  recognized_suffix sfx = true ->
  strrchr_dot (base ++ sfx) = Some sfx.
Proof.
  intros H.
  assert (Hs : strrchr_dot sfx = Some sfx).
  { unfold recognized_suffix in H.
    repeat (apply orb_true_iff in H; destruct H as [H | H]);
      apply String.eqb_eq in H; subst sfx; reflexivity. }
  induction base as [|c base IH]; simpl; [exact Hs|].
  rewrite IH. reflexivity.
Qed.

(** X1.  [parse_variable_name] splits a name at a recognised suffix and
    nowhere else.  A base of fewer characters than the buffer followed by one
    of the ten suffixes comes back as that base and that suffix, whatever
    dots the base has; and whenever the result carries a suffix, the name is
    the base followed by the suffix, the suffix is one of the ten, and the
    base fits the buffer. *)
Theorem parse_variable_name_splits_at_suffix
    (var_name base sfx : string) (size : nat) :
  (recognized_suffix sfx = true -> String.length base < size ->
   parse_variable_name (base ++ sfx) size = Some (base, Some sfx)) /\
  (parse_variable_name var_name size = Some (base, Some sfx) ->
   var_name = (base ++ sfx)%string /\ recognized_suffix sfx = true /\
   String.length base < size).
Proof.
  split.
  - intros Hr Hlen. unfold parse_variable_name.
    rewrite (@strrchr_dot_suffix base sfx Hr), Hr, length_append.
    replace (String.length base + String.length sfx - String.length sfx)
      with (String.length base) by lia.
    apply Nat.ltb_lt in Hlen. rewrite Hlen, strncpy_app. reflexivity.
  - unfold parse_variable_name. intros H.
    destruct (strrchr_dot var_name) as [dot|] eqn:E; [|discriminate].
    destruct (recognized_suffix dot) eqn:Hr; [|discriminate].
    destruct (@strrchr_dot_tail _ _ E) as (p & ->).
    rewrite length_append in H.
    replace (String.length p + String.length dot - String.length dot)
      with (String.length p) in H by lia.
    destruct (String.length p <? size)%nat eqn:Hlen; [|discriminate].
    rewrite strncpy_app in H. inversion H; subst.
    split; [reflexivity|]. split; [exact Hr|]. apply Nat.ltb_lt; exact Hlen.
Qed.


(** What [find_index] finds is the first node of that name. *)
Lemma find_index_first ns v i n :
  find_index ns v = Some (i, n) ->
  nth_error ns i = Some n /\ name (node_base n) = v /\
  forall j m, j < i -> nth_error ns j = Some m -> name (node_base m) <> v.
Proof.
  revert i; induction ns as [|h t IH]; intros i H; simpl in H; [discriminate|].
  destruct (streq (name (node_base h)) v) eqn:E.
  - inversion H; subst. split; [reflexivity|].
    split; [apply String.eqb_eq; exact E|]. intros j m Hj; lia.
  - destruct (find_index t v) as [[k m]|] eqn:F; [|discriminate].
    inversion H; subst. destruct (IH k eq_refl) as (Hn & Hv & Hfirst).
    split; [exact Hn|]. split; [exact Hv|].
    intros [|j] m' Hj Hm'; simpl in Hm'.
    + inversion Hm'; subst. apply String.eqb_neq; exact E.
    + apply (Hfirst j m'); [lia | exact Hm'].
Qed.

Lemma find_index_none ns v :
  find_index ns v = None -> forall n, In n ns -> name (node_base n) <> v.
Proof.
  induction ns as [|h t IH]; intros H n Hin; simpl in *; [destruct Hin|].
  destruct (streq (name (node_base h)) v) eqn:E; [discriminate|].
  destruct (find_index t v) as [[k m]|] eqn:F; [discriminate|].
  destruct Hin as [<- | Hin]; [apply String.eqb_neq; exact E|].
  apply IH; [reflexivity | exact Hin].
Qed.

(** X3.  [find_variable] changes nothing and returns the first node of the
    store that has the name: no node before it has that name, so of two
    variables of one name the later one is never found; it returns [NULL]
    exactly when no node of the store has the name. *)
Theorem find_variable_returns_first_of_name
    (v : string) (s s' : State) (found : option (nat * VariableNode)) :
  find_variable v s = Ok (found, s') ->
  s' = s /\
  match found with
  | Some (i, n) =>
      nth_error (entries (variables_list s)) i = Some n /\
      name (node_base n) = v /\
      forall j m, j < i ->
                  nth_error (entries (variables_list s)) j = Some m ->
                  name (node_base m) <> v
  | None =>
      forall n, In n (entries (variables_list s)) -> name (node_base n) <> v
  end.
Proof.
  unfold find_variable, bind, get, ret. intros H. inversion H; subst.
  split; [reflexivity|].
  destruct (find_index (entries (variables_list s')) v) as [[i n]|] eqn:E.
  - apply find_index_first; exact E.
  - apply find_index_none; exact E.
Qed.

(* ------------------------------------------------------------------ *)
(** ** Accessors: what a write stores and what it leaves alone *)
(* ------------------------------------------------------------------ *)

Lemma find_index_list_set_other ns i n n' v' :
  nth_error ns i = Some n ->
  name (node_base n') = name (node_base n) ->
  name (node_base n) <> v' ->
  find_index (list_set ns i n') v' = find_index ns v'.
Proof.
  revert i; induction ns as [|h t IH]; intros [|i] Hn Hb Hv; simpl in *;
    try discriminate.
  - inversion Hn; subst. rewrite Hb.
    apply String.eqb_neq in Hv. unfold streq. rewrite Hv. reflexivity.
  - rewrite (IH i Hn Hb Hv). reflexivity.
Qed.

Lemma store_node_ok i n s :
  exists s', store_node i n s = Ok (tt, s') /\
    entries (variables_list s') = list_set (entries (variables_list s)) i n /\
    hardware s' = hardware s /\ same_tables s s'.
Proof.
  eexists. split; [reflexivity|]. cbn.
  split; [|split; [reflexivity | split; reflexivity]].
  unfold entries. cbn. destruct (nodes (variables_list s)); reflexivity.
Qed.


Lemma stored_node (s s' : State) i node n' base :
  find_index (entries (variables_list s)) base = Some (i, node) ->
  node_base n' = node_base node ->
  entries (variables_list s') = list_set (entries (variables_list s)) i n' ->
  find_index (entries (variables_list s')) base = Some (i, n') /\
  map node_base (entries (variables_list s')) =
    map node_base (entries (variables_list s)) /\
  forall base', base' <> base ->
    find_index (entries (variables_list s')) base' =
    find_index (entries (variables_list s)) base'.
Proof.
  intros Hf Hb He. rewrite He.
  destruct (@find_index_first _ _ _ _ Hf) as (Hn & Hv & _).
  split; [|split].
  - apply (@find_index_list_set _ _ _ _ _ Hf). rewrite Hb. reflexivity.
  - clear Hf Hv He. revert i Hn.
    induction (entries (variables_list s)) as [|h t IH]; intros [|i] Hn;
      simpl in *; try discriminate.
    + inversion Hn; subst. rewrite Hb. reflexivity.
    + rewrite (IH i Hn). reflexivity.
  - intros base' Hne. apply (@find_index_list_set_other _ _ _ _ _ Hn).
    + rewrite Hb. reflexivity.
    + rewrite Hv. congruence.
Qed.

Lemma read_variable_ext var s s' :
  hardware s' = hardware s ->
  (forall base sfx,
     parse_variable_name var MAX_VAR_NAME_LENGTH = Some (base, sfx) ->
     find_index (entries (variables_list s')) base =
     find_index (entries (variables_list s)) base) ->
  value_of (read_variable var s') = value_of (read_variable var s).
Proof.
  intros Hh Hf. unfold read_variable, bind, find_variable, get, ret, deref.
  destruct (parse_variable_name var MAX_VAR_NAME_LENGTH) as [[base sfx]|];
    [|reflexivity].
  cbn. rewrite (Hf base sfx eq_refl).
  destruct (find_index (entries (variables_list s)) base) as [[i node]|];
    [|reflexivity].
  cbn. destruct node; cbn; try reflexivity.
  - rewrite Hh.
    repeat match goal with |- context [if ?c then _ else _] => destruct c end;
    reflexivity.
  - destruct sfx; cbn; [|reflexivity].
    repeat match goal with |- context [if ?c then _ else _] => destruct c end;
    reflexivity.
  - destruct sfx; cbn; [|reflexivity].
    repeat match goal with |- context [if ?c then _ else _] => destruct c end;
    reflexivity.
Qed.

Lemma read_numeric_variable_ext var s s' :
  hardware s' = hardware s ->
  (forall base sfx,
     parse_variable_name var MAX_VAR_NAME_LENGTH = Some (base, sfx) ->
     find_index (entries (variables_list s')) base =
     find_index (entries (variables_list s)) base) ->
  value_of (read_numeric_variable var s') =
  value_of (read_numeric_variable var s).
Proof.
  intros Hh Hf.
  unfold read_numeric_variable, bind, find_variable, get, ret, deref.
  destruct (parse_variable_name var MAX_VAR_NAME_LENGTH) as [[base sfx]|];
    [|reflexivity].
  cbn. rewrite (Hf base sfx eq_refl).
  destruct (find_index (entries (variables_list s)) base) as [[i node]|];
    [|reflexivity].
  cbn. destruct node; cbn; try reflexivity.
  - rewrite Hh.
    repeat match goal with |- context [if ?c then _ else _] => destruct c end;
    reflexivity.
  - destruct sfx; cbn; [|reflexivity].
    repeat match goal with |- context [if ?c then _ else _] => destruct c end;
    reflexivity.
  - destruct sfx; cbn; [|reflexivity].
    repeat match goal with |- context [if ?c then _ else _] => destruct c end;
    reflexivity.
Qed.


Ltac access Hp Hf :=
  unfold read_variable, write_variable, read_numeric_variable,
    write_numeric_variable, bind, find_variable, get, ret, deref;
  rewrite ?Hp; cbn; rewrite ?Hf; cbn.

Ltac suffix_cases H :=
  repeat (apply orb_true_iff in H; destruct H as [H | H]);
  apply String.eqb_eq in H; subst.

Ltac other_field :=
  repeat match goal with
         | |- context [if streq ?p ?k then _ else _] =>
             let E := fresh "E" in
             destruct (streq p k) eqn:E;
             [apply String.eqb_eq in E; subst; try congruence|]
         end;
  try reflexivity.

Ltac same_base Hf :=
  let s' := fresh "s'" in let other := fresh "other" in
  let sfx' := fresh "sfx'" in let Hp' := fresh "Hp'" in
  let Hf' := fresh "Hf'" in
  intros s' other sfx' Hp' Hf'; intros;
  try match goal with H : single_valued _ = false |- _ => discriminate H end;
  unfold read_variable, read_numeric_variable, bind, find_variable, get,
    ret, deref;
  rewrite Hp'; cbn; rewrite Hf', Hf; cbn;
  try (destruct sfx'; cbn); other_field.

(** What a write through [write_variable] to a name that addresses a field
    does: the helper behind the statements on writes below. *)
Lemma write_variable_effect
    (var_name base : string) (sfx : option string) (i : nat)
    (node : VariableNode) (value : bool) (s : State) :
  parse_variable_name var_name MAX_VAR_NAME_LENGTH = Some (base, sfx) ->
  find_index (entries (variables_list s)) base = Some (i, node) ->
  boolean_field node sfx = true ->
  exists s' n',
    find_index (entries (variables_list s')) base = Some (i, n') /\
    (forall x, boolean_field n' x = boolean_field node x) /\
    (forall x, numeric_field n' x = numeric_field node x) /\
    write_variable var_name value s = Ok (tt, s') /\
    read_variable var_name s' = Ok (value, s') /\
    same_tables s s' /\ hardware s' = hardware s /\
    map node_base (entries (variables_list s')) =
      map node_base (entries (variables_list s)) /\
    (forall other,
       value_of (read_numeric_variable other s') =
       value_of (read_numeric_variable other s)) /\
    (forall other base' sfx',
       parse_variable_name other MAX_VAR_NAME_LENGTH = Some (base', sfx') ->
       base' <> base \/ (sfx' <> sfx /\ single_valued node = false) ->
       value_of (read_variable other s') = value_of (read_variable other s)).
Proof.
  intros Hp Hf Hb.
  assert (Hw : exists n',
    write_variable var_name value s = store_node i n' s /\
    node_base n' = node_base node /\
    (forall x, boolean_field n' x = boolean_field node x) /\
    (forall x, numeric_field n' x = numeric_field node x) /\
    (forall s', find_index (entries (variables_list s')) base = Some (i, n') ->
                read_variable var_name s' = Ok (value, s')) /\
    (forall s' other sfx',
       parse_variable_name other MAX_VAR_NAME_LENGTH = Some (base, sfx') ->
       find_index (entries (variables_list s')) base = Some (i, n') ->
       value_of (read_numeric_variable other s') =
       value_of (read_numeric_variable other s)) /\
    (forall s' other sfx',
       parse_variable_name other MAX_VAR_NAME_LENGTH = Some (base, sfx') ->
       find_index (entries (variables_list s')) base = Some (i, n') ->
       sfx' <> sfx -> single_valued node = false ->
       value_of (read_variable other s') =
       value_of (read_variable other s))).
  { destruct node; try discriminate Hb; cbn in Hb.
    - eexists. split; [access Hp Hf; reflexivity|].
      split; [reflexivity|]. split; [reflexivity|]. split; [reflexivity|].
      split; [intros s' Hf'; access Hp Hf'; reflexivity|].
      split; [same_base Hf|]. same_base Hf.
    - destruct sfx as [p|]; [|discriminate]. suffix_cases Hb.
      all: eexists; (split; [access Hp Hf; reflexivity|]);
        (split; [reflexivity|]); (split; [reflexivity|]); (split; [reflexivity|]);
        (split; [intros s' Hf'; access Hp Hf'; reflexivity|]);
        (split; [same_base Hf|]); same_base Hf.
    - destruct sfx as [p|]; [|discriminate]. suffix_cases Hb.
      all: eexists; (split; [access Hp Hf; reflexivity|]);
        (split; [reflexivity|]); (split; [reflexivity|]); (split; [reflexivity|]);
        (split; [intros s' Hf'; access Hp Hf'; reflexivity|]);
        (split; [same_base Hf|]); same_base Hf. }
  destruct Hw as (n' & Hw & Hnb & Hkb & Hkn & Hr & Hnum & Hbool).
  destruct (store_node_ok i n' s) as (s' & Hs & He & Hh & Ht).
  destruct (@stored_node s s' i node n' base Hf Hnb He) as (Hf' & Hm & Ho).
  exists s', n'. rewrite Hw.
  split; [exact Hf'|]. split; [exact Hkb|]. split; [exact Hkn|].
  split; [exact Hs|]. split; [apply Hr; exact Hf'|].
  split; [exact Ht|]. split; [exact Hh|]. split; [exact Hm|]. split.
  - intros other.
    destruct (parse_variable_name other MAX_VAR_NAME_LENGTH)
      as [[base' sfx']|] eqn:Hp'.
    + destruct (String.string_dec base' base) as [-> | Hne].
      * apply (Hnum s' other sfx' Hp' Hf').
      * apply read_numeric_variable_ext; [exact Hh|].
        intros b x Hq. rewrite Hp' in Hq. inversion Hq; subst.
        apply Ho; exact Hne.
    + unfold read_numeric_variable, bind, deref. rewrite Hp'. reflexivity.
  - intros other base' sfx' Hp' [Hne | [Hne Hsv]].
    + apply read_variable_ext; [exact Hh|].
      intros b x Hq. rewrite Hp' in Hq. inversion Hq; subst.
      apply Ho; exact Hne.
    + destruct (String.string_dec base' base) as [-> | Hnb'].
      * apply (Hbool s' other sfx' Hp' Hf' Hne Hsv).
      * apply read_variable_ext; [exact Hh|].
        intros b x Hq. rewrite Hp' in Hq. inversion Hq; subst.
        apply Ho; exact Hnb'.
Qed.

(** X4.  A boolean written through a name that addresses one (a Boolean
    under any suffix, a flag of a Counter or of a Timer) is the value the
    same name reads afterwards.  The write keeps the engine tables, the pin
    hardware and the names and type strings of the store, changes no numeric
    read of any name, and changes no boolean read of a name with another
    base name or, on a Counter or Timer, another suffix. *)
Theorem boolean_write_then_read
    (var_name base : string) (sfx : option string) (i : nat)
    (node : VariableNode) (value : bool) (s : State) :
  parse_variable_name var_name MAX_VAR_NAME_LENGTH = Some (base, sfx) ->
  find_index (entries (variables_list s)) base = Some (i, node) ->
  boolean_field node sfx = true ->
  exists s',
    write_variable var_name value s = Ok (tt, s') /\
    read_variable var_name s' = Ok (value, s') /\
    same_tables s s' /\ hardware s' = hardware s /\
    map node_base (entries (variables_list s')) =
      map node_base (entries (variables_list s)) /\
    (forall other,
       value_of (read_numeric_variable other s') =
       value_of (read_numeric_variable other s)) /\
    (forall other base' sfx',
       parse_variable_name other MAX_VAR_NAME_LENGTH = Some (base', sfx') ->
       base' <> base \/ (sfx' <> sfx /\ single_valued node = false) ->
       value_of (read_variable other s') = value_of (read_variable other s)).
Proof.
  intros Hp Hf Hb.
  destruct (@write_variable_effect var_name base sfx i node value s Hp Hf Hb)
    as (s' & n' & _ & _ & _ & H).
  exists s'. exact H.
Qed.
(** What a write through [write_numeric_variable] to a name that addresses a field
    does: the helper behind the statements on writes below. *)
Lemma write_numeric_variable_effect
    (var_name base : string) (sfx : option string) (i : nat)
    (node : VariableNode) (value : float) (s : State) :
  parse_variable_name var_name MAX_VAR_NAME_LENGTH = Some (base, sfx) ->
  find_index (entries (variables_list s)) base = Some (i, node) ->
  numeric_field node sfx = true ->
  exists s' n',
    find_index (entries (variables_list s')) base = Some (i, n') /\
    (forall x, boolean_field n' x = boolean_field node x) /\
    (forall x, numeric_field n' x = numeric_field node x) /\
    write_numeric_variable var_name value s = Ok (tt, s') /\
    read_numeric_variable var_name s' = Ok (value, s') /\
    same_tables s s' /\ hardware s' = hardware s /\
    map node_base (entries (variables_list s')) =
      map node_base (entries (variables_list s)) /\
    (forall other,
       value_of (read_variable other s') =
       value_of (read_variable other s)) /\
    (forall other base' sfx',
       parse_variable_name other MAX_VAR_NAME_LENGTH = Some (base', sfx') ->
       base' <> base \/ (sfx' <> sfx /\ single_valued node = false) ->
       value_of (read_numeric_variable other s') = value_of (read_numeric_variable other s)).
Proof.
  intros Hp Hf Hb.
  assert (Hw : exists n',
    write_numeric_variable var_name value s = store_node i n' s /\
    node_base n' = node_base node /\
    (forall x, boolean_field n' x = boolean_field node x) /\
    (forall x, numeric_field n' x = numeric_field node x) /\
    (forall s', find_index (entries (variables_list s')) base = Some (i, n') ->
                read_numeric_variable var_name s' = Ok (value, s')) /\
    (forall s' other sfx',
       parse_variable_name other MAX_VAR_NAME_LENGTH = Some (base, sfx') ->
       find_index (entries (variables_list s')) base = Some (i, n') ->
       value_of (read_variable other s') =
       value_of (read_variable other s)) /\
    (forall s' other sfx',
       parse_variable_name other MAX_VAR_NAME_LENGTH = Some (base, sfx') ->
       find_index (entries (variables_list s')) base = Some (i, n') ->
       sfx' <> sfx -> single_valued node = false ->
       value_of (read_numeric_variable other s') =
       value_of (read_numeric_variable other s))).
  { destruct node; try discriminate Hb; cbn in Hb.
    all: try (destruct sfx as [p|]; [|discriminate Hb]; suffix_cases Hb).
    all: eexists; (split; [access Hp Hf; reflexivity|]);
      (split; [reflexivity|]); (split; [reflexivity|]); (split; [reflexivity|]);
      (split; [intros s' Hf'; access Hp Hf'; reflexivity|]);
      (split; [same_base Hf|]); same_base Hf. }
  destruct Hw as (n' & Hw & Hnb & Hkb & Hkn & Hr & Hbool & Hnum).
  destruct (store_node_ok i n' s) as (s' & Hs & He & Hh & Ht).
  destruct (@stored_node s s' i node n' base Hf Hnb He) as (Hf' & Hm & Ho).
  exists s', n'. rewrite Hw.
  split; [exact Hf'|]. split; [exact Hkb|]. split; [exact Hkn|].
  split; [exact Hs|]. split; [apply Hr; exact Hf'|].
  split; [exact Ht|]. split; [exact Hh|]. split; [exact Hm|]. split.
  - intros other.
    destruct (parse_variable_name other MAX_VAR_NAME_LENGTH)
      as [[base' sfx']|] eqn:Hp'.
    + destruct (String.string_dec base' base) as [-> | Hne].
      * apply (Hbool s' other sfx' Hp' Hf').
      * apply read_variable_ext; [exact Hh|].
        intros b x Hq. rewrite Hp' in Hq. inversion Hq; subst.
        apply Ho; exact Hne.
    + unfold read_variable, bind, deref. rewrite Hp'. reflexivity.
  - intros other base' sfx' Hp' [Hne | [Hne Hsv]].
    + apply read_numeric_variable_ext; [exact Hh|].
      intros b x Hq. rewrite Hp' in Hq. inversion Hq; subst.
      apply Ho; exact Hne.
    + destruct (String.string_dec base' base) as [-> | Hnb'].
      * apply (Hnum s' other sfx' Hp' Hf' Hne Hsv).
      * apply read_numeric_variable_ext; [exact Hh|].
        intros b x Hq. rewrite Hp' in Hq. inversion Hq; subst.
        apply Ho; exact Hnb'.
Qed.

(** X5.  A number written through a name that addresses one (a Number or
    Time under any suffix, [.PV] or [.CV] of a Counter, [.PT] or [.ET] of a
    Timer) is the value the same name reads afterwards.  The write keeps the
    engine tables, the pin hardware and the names and type strings of the
    store, changes no boolean read of any name, and changes no numeric read
    of a name with another base name or, on a Counter or Timer, another
    suffix. *)
Theorem numeric_write_then_read
    (var_name base : string) (sfx : option string) (i : nat)
    (node : VariableNode) (value : float) (s : State) :
  parse_variable_name var_name MAX_VAR_NAME_LENGTH = Some (base, sfx) ->
  find_index (entries (variables_list s)) base = Some (i, node) ->
  numeric_field node sfx = true ->
  exists s',
    write_numeric_variable var_name value s = Ok (tt, s') /\
    read_numeric_variable var_name s' = Ok (value, s') /\
    same_tables s s' /\ hardware s' = hardware s /\
    map node_base (entries (variables_list s')) =
      map node_base (entries (variables_list s)) /\
    (forall other,
       value_of (read_variable other s') =
       value_of (read_variable other s)) /\
    (forall other base' sfx',
       parse_variable_name other MAX_VAR_NAME_LENGTH = Some (base', sfx') ->
       base' <> base \/ (sfx' <> sfx /\ single_valued node = false) ->
       value_of (read_numeric_variable other s') = value_of (read_numeric_variable other s)).
Proof.
  intros Hp Hf Hb.
  destruct (@write_numeric_variable_effect var_name base sfx i node value s Hp Hf Hb)
    as (s' & n' & _ & _ & _ & H).
  exists s'. exact H.
Qed.

(* ------------------------------------------------------------------ *)
(** ** Edge detection *)
(* ------------------------------------------------------------------ *)

Lemma prev_of_none s v :
  prev_of s v = None -> find_one_shot (one_shot_states s) v = None.
Proof.
  unfold prev_of. destruct (find_one_shot (one_shot_states s) v) as [i|] eqn:Hf;
    [|reflexivity].
  destruct (@find_one_shot_some _ _ _ Hf) as (e & He & _). rewrite He.
  discriminate.
Qed.

(** A name without an entry in a table with room gets one with
    [prev_state = false], updated by the call. *)
Lemma trig_fresh v c s :
  String.length v < MAX_VAR_NAME_LENGTH ->
  prev_of s v = None ->
  List.length (one_shot_states s) < MAX_ONE_SHOT_STATES ->
  exists s', r_trig v c s = Ok (c, s') /\ f_trig v c s = Ok (false, s') /\
             prev_of s' v = Some c /\ same_store s s'.
Proof.
  intros Hlen Hp Hroom. apply prev_of_none in Hp.
  apply Nat.ltb_lt in Hroom.
  eexists. split; [|split; [|split]].
  - unfold r_trig, get_one_shot_state, load_prev_state, store_prev_state,
      bind, get, ret, modify. rewrite Hp, Hroom. simpl.
    rewrite nth_error_app2 by lia. rewrite Nat.sub_diag. simpl.
    rewrite andb_true_r. reflexivity.
  - unfold f_trig, get_one_shot_state, load_prev_state, store_prev_state,
      bind, get, ret, modify. rewrite Hp, Hroom. simpl.
    rewrite nth_error_app2 by lia. rewrite Nat.sub_diag. simpl.
    rewrite andb_false_r. reflexivity.
  - unfold prev_of. simpl. rewrite find_one_shot_update.
    erewrite find_one_shot_app; [ | exact Hp | ].
    + rewrite nth_error_list_update, nth_error_app2 by lia.
      rewrite Nat.sub_diag. reflexivity.
    + simpl. rewrite strncpy_short.
      * apply String.eqb_refl.
      * unfold MAX_VAR_NAME_LENGTH in *; lia.
  - split; reflexivity.
Qed.

Lemma f_trig_known v condition s p :
  prev_of s v = Some p ->
  exists s', r_trig v condition s = Ok (condition && negb p, s') /\
             f_trig v condition s = Ok (negb condition && p, s').
Proof.
  unfold prev_of. intros H.
  destruct (find_one_shot (one_shot_states s) v) as [i|] eqn:Hf; [|discriminate].
  destruct (nth_error (one_shot_states s) i) as [e|] eqn:Hn; [|discriminate].
  simpl in H; inversion H; subst p; clear H.
  eexists. split.
  - unfold r_trig, get_one_shot_state, load_prev_state, store_prev_state,
      bind, get, ret, modify. rewrite Hf. simpl. rewrite Hn. simpl.
    reflexivity.
  - unfold f_trig, get_one_shot_state, load_prev_state, store_prev_state,
      bind, get, ret, modify. rewrite Hf. simpl. rewrite Hn. simpl.
    reflexivity.
Qed.

(** With the table full and no entry for the name, no edge is ever seen. *)
Lemma trig_full v c s :
  find_one_shot (one_shot_states s) v = None ->
  MAX_ONE_SHOT_STATES <= List.length (one_shot_states s) ->
  r_trig v c s = Ok (false, s) /\ f_trig v c s = Ok (false, s).
Proof.
  intros Hf Hfull. apply Nat.ltb_ge in Hfull.
  unfold r_trig, f_trig, get_one_shot_state, bind, get, ret.
  rewrite Hf, Hfull. split; reflexivity.
Qed.

(** X6.  [r_trig] and [f_trig] compare the condition with the one the last
    edge-triggered call on the same name was given: for a name of at most 63
    characters that has an entry in the edge table, or gets one because the
    table has room (then with [false] as the last condition), [r_trig]
    returns [condition && !prev] and [f_trig] returns [!condition && prev];
    both record the condition as the new [prev] and touch neither the
    variable store nor the hardware, so the same call made again returns
    [false] and changes nothing. *)
Theorem edge_detectors_compare_with_last_condition
    (v : string) (condition : bool) (s : State) :
  String.length v < MAX_VAR_NAME_LENGTH ->
  prev_of s v <> None \/
    List.length (one_shot_states s) < MAX_ONE_SHOT_STATES ->
  let prev := match prev_of s v with Some p => p | None => false end in
  exists s',
    r_trig v condition s = Ok (condition && negb prev, s') /\
    f_trig v condition s = Ok (negb condition && prev, s') /\
    prev_of s' v = Some condition /\ same_store s s' /\
    r_trig v condition s' = Ok (false, s') /\
    f_trig v condition s' = Ok (false, s').
Proof.
  intros Hlen Hroom prev. subst prev.
  assert (H : exists s',
    r_trig v condition s =
      Ok (condition && negb match prev_of s v with Some p => p | None => false end, s') /\
    f_trig v condition s =
      Ok (negb condition && match prev_of s v with Some p => p | None => false end, s') /\
    prev_of s' v = Some condition /\ same_store s s').
  { destruct (prev_of s v) as [p|] eqn:Hp.
    - destruct (@r_trig_known v condition s p Hp) as (s' & Hr & Hp' & Hs & _).
      destruct (@f_trig_known v condition s p Hp) as (s2 & Hr2 & Hf2).
      rewrite Hr in Hr2. inversion Hr2; subst s2.
      exists s'. auto.
    - destruct Hroom as [Hroom | Hroom]; [congruence|].
      destruct (@trig_fresh v condition s Hlen Hp Hroom)
        as (s' & Hr & Hf & Hp' & Hs).
      exists s'. rewrite andb_true_r, andb_false_r. auto. }
  destruct H as (s' & Hr & Hf & Hp' & Hs).
  exists s'. split; [exact Hr|]. split; [exact Hf|].
  split; [exact Hp'|]. split; [exact Hs|].
  destruct (@r_trig_known v condition s' condition Hp')
    as (s2 & Hr2 & _ & _ & Hsame).
  destruct (@f_trig_known v condition s' condition Hp') as (s3 & Hr3 & Hf3).
  rewrite Hr2 in Hr3. inversion Hr3; subst s3.
  rewrite (Hsame eq_refl) in *.
  rewrite andb_negb_r in Hr2. rewrite Hr2.
  replace (negb condition && condition) with false in Hf3
    by (destruct condition; reflexivity).
  rewrite Hf3. split; reflexivity.
Qed.

(** X7.  With the edge table full (64 entries) and no entry for the name,
    no edge is ever detected for it: [r_trig] and [f_trig] return [false],
    and the one-shot coil, the four arithmetic elements, the two counters
    and [reset] do nothing at all, whatever the condition and the
    operands. *)
Theorem full_edge_table_disables_edge_elements
    (a b v : string) (condition : bool) (s : State) :
  find_one_shot (one_shot_states s) v = None ->
  MAX_ONE_SHOT_STATES <= List.length (one_shot_states s) ->
  r_trig v condition s = Ok (false, s) /\
  f_trig v condition s = Ok (false, s) /\
  one_shot_positive_coil v condition s = Ok (tt, s) /\
  add a b v condition s = Ok (tt, s) /\
  subtract a b v condition s = Ok (tt, s) /\
  multiply a b v condition s = Ok (tt, s) /\
  divide a b v condition s = Ok (tt, s) /\
  count_up v condition s = Ok (tt, s) /\
  count_down v condition s = Ok (tt, s) /\
  reset v condition s = Ok (tt, s).
Proof.
  intros Hf Hfull.
  destruct (@trig_full v condition s Hf Hfull) as [Hr Hft].
  split; [exact Hr|]. split; [exact Hft|].
  split.
  { apply Nat.ltb_ge in Hfull.
    unfold one_shot_positive_coil, get_one_shot_state, bind, get, ret.
    rewrite Hf, Hfull. reflexivity. }
  unfold add, subtract, multiply, divide, count_up, count_down, reset.
  repeat (erewrite bind_ok by exact Hr). repeat split.
Qed.

(* ------------------------------------------------------------------ *)
(** ** One edge flag per name *)
(* ------------------------------------------------------------------ *)

(** The edge table is the same in both states. *)
Lemma same_tables_edges {A} (m : M A) :
  Preserves same_tables m ->
  Preserves (fun s s' => one_shot_states s' = one_shot_states s) m.
Proof. apply preserves_weaken. intros s s' [H _]; exact H. Qed.

Lemma gated_tail_edges v (tail : M unit) :
  Preserves (fun s s' => one_shot_states s' = one_shot_states s) tail ->
  forall c s s1,
    String.length v < MAX_VAR_NAME_LENGTH ->
    (fired <- r_trig v c ;; if fired then tail else ret tt) s = Ok (tt, s1) ->
    prev_of s1 v = Some c \/
    (find_one_shot (one_shot_states s1) v = None /\
     MAX_ONE_SHOT_STATES <= List.length (one_shot_states s1)).
Proof.
  intros Ht c s s1 Hlen H.
  apply bind_inv in H. destruct H as (fired & s0 & Hr & H).
  assert (He : one_shot_states s1 = one_shot_states s0).
  { destruct fired; [exact (Ht _ _ _ H)|]. inversion H; reflexivity. }
  unfold prev_of. rewrite He. clear H He s1.
  destruct (prev_of s v) as [p|] eqn:Hp.
  - destruct (@r_trig_known v c s p Hp) as (s' & Hr' & Hp' & _).
    rewrite Hr in Hr'. inversion Hr'; subst. left; exact Hp'.
  - destruct (Nat.ltb_spec (List.length (one_shot_states s))
                MAX_ONE_SHOT_STATES) as [Hroom | Hfull].
    + destruct (@trig_fresh v c s Hlen Hp Hroom) as (s' & Hr' & _ & Hp' & _).
      rewrite Hr in Hr'. inversion Hr'; subst. left; exact Hp'.
    + apply prev_of_none in Hp.
      destruct (@trig_full v c s Hp Hfull) as [Hr' _].
      rewrite Hr in Hr'. inversion Hr'; subst. right; split; assumption.
Qed.

Lemma no_second_edge v s :
  prev_of s v = Some true \/
  (find_one_shot (one_shot_states s) v = None /\
   MAX_ONE_SHOT_STATES <= List.length (one_shot_states s)) ->
  r_trig v true s = Ok (false, s).
Proof.
  intros [Hp | [Hf Hfull]].
  - destruct (@r_trig_known v true s true Hp) as (s' & Hr & _ & _ & Hs).
    rewrite (Hs eq_refl) in Hr. exact Hr.
  - apply (@trig_full v true s Hf Hfull).
Qed.

Lemma count_tail_edges v (f : Counter -> Counter) :
  Preserves (fun s s' => one_shot_states s' = one_shot_states s)
    (found <- find_variable v ;;
     node <- deref found ;;
     c <- as_counter (snd node) ;;
     store_node (fst node) (NodeCounter (f c))).
Proof.
  apply same_tables_edges. unfold as_counter.
  frame same_tables_refl same_tables_trans.
Qed.

Lemma reset_tail_edges v :
  Preserves (fun s s' => one_shot_states s' = one_shot_states s)
    (found <- find_variable v ;;
     node <- deref found ;;
     match snd node with
     | NodeCounter c =>
         let c1 := if cu c then set_cv c 0 else c in
         let c2 := if cd c1 then set_cv c1 (pv c1) else c1 in
         let c3 := if cu c || cd c then refresh_flags c2 else c2 in
         store_node (fst node) (NodeCounter c3)
     | NodeTimer t =>
         state <- get_timer_state v ;;
         match state with
         | Some k =>
             store_node (fst node)
               (NodeTimer (set_in (set_q (set_et t 0) false) false)) ;;;
             set_state_running k false
         | None => ret tt
         end
     | _ => ret tt
     end).
Proof.
  assert (Hs : forall i n,
    Preserves (fun s s' => one_shot_states s' = one_shot_states s)
      (store_node i n))
    by (intros; apply same_tables_edges, store_node_same_tables).
  assert (Hfv : forall x,
    Preserves (fun s s' => one_shot_states s' = one_shot_states s)
      (find_variable x))
    by (intros; apply same_tables_edges, find_variable_same_tables).
  unfold get_timer_state, set_state_running.
  frame (fun s : State => @eq_refl _ (one_shot_states s))
        (fun (s1 s2 s3 : State)
             (H1 : one_shot_states s2 = one_shot_states s1)
             (H2 : one_shot_states s3 = one_shot_states s2) =>
           eq_trans H2 H1).
Qed.

(** X8.  The edge flag belongs to the name, not to the element: once one of
    [count_up], [count_down] and [reset] has run on a name of at most 63
    characters with a true condition, each of the three run on that name
    with a true condition does nothing, for as long as no edge-triggered
    element runs on the name with a false condition.  A reset that follows
    a counter in the scan never sees the edge the counter consumed. *)
Theorem edge_is_consumed_by_first_element (v : string) (s s1 : State) :
  String.length v < MAX_VAR_NAME_LENGTH ->
  count_up v true s = Ok (tt, s1) \/ count_down v true s = Ok (tt, s1) \/
    reset v true s = Ok (tt, s1) ->
  count_up v true s1 = Ok (tt, s1) /\ count_down v true s1 = Ok (tt, s1) /\
  reset v true s1 = Ok (tt, s1).
Proof.
  intros Hlen H.
  assert (Hedge : r_trig v true s1 = Ok (false, s1)).
  { apply no_second_edge.
    destruct H as [H | [H | H]].
    - exact (@gated_tail_edges v _ (count_tail_edges v _) true s s1 Hlen H).
    - exact (@gated_tail_edges v _ (count_tail_edges v _) true s s1 Hlen H).
    - exact (@gated_tail_edges v _ (reset_tail_edges v) true s s1 Hlen H). }
  unfold count_up, count_down, reset.
  repeat (erewrite bind_ok by exact Hedge). repeat split.
Qed.

(* ------------------------------------------------------------------ *)
(** ** What the edge-triggered elements do on a rising edge *)
(* ------------------------------------------------------------------ *)

Lemma rising_edge v s :
  String.length v < MAX_VAR_NAME_LENGTH -> edge_armed s v ->
  exists s0, r_trig v true s = Ok (true, s0) /\ prev_of s0 v = Some true /\
             same_store s s0 /\ timer_states s0 = timer_states s /\
             clock_reads s0 = clock_reads s.
Proof.
  intros Hlen [Hp | [Hp Hroom]].
  - destruct (@r_trig_known v true s false Hp) as (s0 & Hr & Hp' & Hs & _).
    exists s0. split; [exact Hr|]. split; [exact Hp'|]. split; [exact Hs|].
    exact (@r_trig_same_timers v true s _ s0 Hr).
  - destruct (@trig_fresh v true s Hlen Hp Hroom) as (s0 & Hr & _ & Hp' & Hs).
    exists s0. split; [exact Hr|]. split; [exact Hp'|]. split; [exact Hs|].
    exact (@r_trig_same_timers v true s _ s0 Hr).
Qed.

Lemma list_set_same {A} (l : list A) i x :
  nth_error l i = Some x -> list_set l i x = l.
Proof.
  revert i; induction l as [|h t IH]; intros [|i] H; simpl in *;
    try discriminate.
  - inversion H; reflexivity.
  - rewrite (IH i H); reflexivity.
Qed.

(** A counter stored over the counter [find_variable] found. *)
Lemma counter_stored v i c0 c (s s0 : State) :
  same_store s s0 ->
  find_index (entries (variables_list s)) v = Some (i, NodeCounter c0) ->
  c_base c = c_base c0 ->
  exists s',
    (found <- find_variable v ;;
     node <- deref found ;;
     x <- as_counter (snd node) ;;
     store_node (fst node) (NodeCounter c)) s0 = Ok (tt, s') /\
    store_node i (NodeCounter c) s0 = Ok (tt, s') /\
    find_index (entries (variables_list s')) v = Some (i, NodeCounter c) /\
    hardware s' = hardware s /\ one_shot_states s' = one_shot_states s0.
Proof.
  intros [Hv Hh] Hf Hb.
  destruct (store_node_ok i (NodeCounter c) s0) as (s' & Hs & He & Hh' & Ht).
  exists s'. split; [|split; [exact Hs|split; [|split]]].
  - unfold find_variable, bind, get, ret, deref.
    rewrite Hv, Hf. cbn. exact Hs.
  - rewrite He, Hv. apply (@find_index_list_set _ _ _ _ _ Hf).
    cbn. rewrite Hb. reflexivity.
  - rewrite Hh'. exact Hh.
  - apply Ht.
Qed.


(** X10.  On a rising edge [reset] of a counter loads the current value by
    the direction flags: the preset when CD is set, otherwise zero when CU
    is set, and then recomputes QU and QD; with neither flag set the counter
    and the whole variable store are left as they were.  The preset and the
    two direction flags are never changed. *)
Theorem reset_loads_counter_by_direction
    (v : string) (i : nat) (c0 : Counter) (s : State) :
  String.length v < MAX_VAR_NAME_LENGTH -> edge_armed s v ->
  find_index (entries (variables_list s)) v = Some (i, NodeCounter c0) ->
  exists s' c,
    reset v true s = Ok (tt, s') /\
    find_index (entries (variables_list s')) v = Some (i, NodeCounter c) /\
    cv c = (if cd c0 then pv c0 else if cu c0 then 0%float else cv c0) /\
    pv c = pv c0 /\ cu c = cu c0 /\ cd c = cd c0 /\
    (cu c0 || cd c0 = true -> counter_flags_ok c) /\
    (cu c0 || cd c0 = false ->
     c = c0 /\ variables_list s' = variables_list s) /\
    hardware s' = hardware s.
Proof.
  intros Hlen Harmed Hf.
  destruct (rising_edge Hlen Harmed) as (s0 & Hr & Hp & Hs & _).
  set (c1 := if cu c0 then set_cv c0 0 else c0).
  set (c2 := if cd c1 then set_cv c1 (pv c1) else c1).
  set (c3 := if cu c0 || cd c0 then refresh_flags c2 else c2).
  assert (Hb : c_base c3 = c_base c0)
    by (subst c1 c2 c3; destruct (cu c0) eqn:Hu; cbn; destruct (cd c0) eqn:Hd;
      cbn; rewrite ?Hu, ?Hd; reflexivity).
  destruct (@counter_stored v i c0 c3 s s0 Hs Hf Hb)
    as (s' & _ & Hst & Hf' & Hh & He).
  exists s', c3.
  split.
  { unfold reset. erewrite bind_ok by exact Hr.
    destruct Hs as [Hv _].
    unfold find_variable, bind, get, ret, deref.
    rewrite Hv, Hf. cbn. exact Hst. }
  split; [exact Hf'|].
  split; [subst c1 c2 c3; destruct (cu c0) eqn:Hu; cbn; destruct (cd c0) eqn:Hd;
      cbn; rewrite ?Hu, ?Hd; reflexivity|].
  split; [subst c1 c2 c3; destruct (cu c0) eqn:Hu; cbn; destruct (cd c0) eqn:Hd;
      cbn; rewrite ?Hu, ?Hd; reflexivity|].
  split; [subst c1 c2 c3; destruct (cu c0) eqn:Hu; cbn; destruct (cd c0) eqn:Hd;
      cbn; rewrite ?Hu, ?Hd; reflexivity|].
  split; [subst c1 c2 c3; destruct (cu c0) eqn:Hu; cbn; destruct (cd c0) eqn:Hd;
      cbn; rewrite ?Hu, ?Hd; reflexivity|].
  split.
  { intros Hdir. subst c3. rewrite Hdir. split; reflexivity. }
  split; [|exact Hh].
  intros Hdir. apply orb_false_iff in Hdir. destruct Hdir as [Hu Hd].
  assert (Hc : c3 = c0) by (subst c1 c2 c3; rewrite Hu; cbn; rewrite Hd; reflexivity).
  split; [exact Hc|].
  rewrite Hc in Hst. destruct Hs as [Hv _].
  destruct (@find_index_first _ _ _ _ Hf) as (Hn & _).
  unfold store_node, bind, get, modify in Hst. inversion Hst; subst s'.
  cbn. rewrite Hv. unfold entries in Hn.
  destruct (variables_list s) as [[ns|] cap]; cbn in *.
  - rewrite (list_set_same _ _ Hn). reflexivity.
  - reflexivity.
Qed.

Lemma find_timer_state_update l v k f :
  (forall e, ts_var_name (f e) = ts_var_name e) ->
  find_timer_state (list_update l k f) v = find_timer_state l v.
Proof.
  intros Hf. revert k; induction l as [|h t IH]; intros [|k]; simpl;
    rewrite ?Hf, ?IH; reflexivity.
Qed.

Lemma find_timer_state_app l v e :
  find_timer_state l v = None ->
  streq (ts_var_name e) v = true ->
  find_timer_state (l ++ [e]) v = Some (List.length l).
Proof.
  intros Hn He; induction l as [|h t IH]; simpl in *.
  - rewrite He; reflexivity.
  - destruct (streq (ts_var_name h) v); [discriminate|].
    destruct (find_timer_state t v); [discriminate|].
    rewrite IH; reflexivity.
Qed.

(** With a slot available and a name that fits an entry,
    [get_timer_state] returns the entry of the name. *)
Lemma get_timer_state_entry v s :
  String.length v < MAX_VAR_NAME_LENGTH -> timer_slot_available s v ->
  exists k e s1,
    get_timer_state v s = Ok (Some k, s1) /\
    find_timer_state (timer_states s1) v = Some k /\
    nth_error (timer_states s1) k = Some e /\
    (running_of s v = None -> running e = false) /\
    (forall r, running_of s v = Some r -> running e = r) /\
    same_store s s1 /\ one_shot_states s1 = one_shot_states s /\
    clock_reads s1 = clock_reads s.
Proof.
  intros Hlen Hslot. unfold get_timer_state, running_of, bind, get, ret, modify.
  destruct (find_timer_state (timer_states s) v) as [k|] eqn:Hf.
  - destruct (@find_timer_state_some _ _ _ Hf) as (e & He & _).
    exists k, e, s. rewrite He. cbn.
    repeat split; auto; try discriminate. intros r Hr; inversion Hr; auto.
  - destruct Hslot as [Hs | Hs]; [congruence|].
    apply Nat.ltb_lt in Hs. rewrite Hs. cbn.
    eexists _, _, _. split; [reflexivity|]. cbn.
    split.
    { apply find_timer_state_app; [exact Hf|]. cbn.
      rewrite strncpy_short; [apply String.eqb_refl|].
      unfold MAX_VAR_NAME_LENGTH in *; lia. }
    split.
    { rewrite nth_error_app2 by lia. rewrite Nat.sub_diag. reflexivity. }
    repeat split; auto. discriminate.
Qed.

(** X11.  On a rising edge [reset] of a timer that has or gets a slot of
    the timer table clears the timer: ET is zero, Q and IN are false and
    the table entry is not running, so that the next run starts to time
    anew; the preset and the pin hardware are kept. *)
Theorem reset_clears_timer
    (v : string) (i : nat) (t0 : Timer) (s : State) :
  String.length v < MAX_VAR_NAME_LENGTH -> edge_armed s v ->
  timer_slot_available s v ->
  find_index (entries (variables_list s)) v = Some (i, NodeTimer t0) ->
  exists s' t,
    reset v true s = Ok (tt, s') /\
    find_index (entries (variables_list s')) v = Some (i, NodeTimer t) /\
    et t = 0%float /\ q t = false /\ in_ t = false /\ pt t = pt t0 /\
    running_of s' v = Some false /\ hardware s' = hardware s.
Proof.
  intros Hlen Harmed Hslot Hf.
  destruct (rising_edge Hlen Harmed) as (s0 & Hr & Hp & Hs & Hts & _).
  assert (Hslot0 : timer_slot_available s0 v)
    by (unfold timer_slot_available in *; rewrite Hts; exact Hslot).
  destruct (get_timer_state_entry Hlen Hslot0)
    as (k & e & s1 & Hg & Hfk & Hk & _ & _ & Hs1 & _).
  destruct Hs as [Hv Hh]. destruct Hs1 as [Hv1 Hh1].
  eexists _, _. split.
  { assert (Hfv : find_variable v s0 = Ok (Some (i, NodeTimer t0), s0))
      by (unfold find_variable, bind, get, ret; rewrite Hv, Hf; reflexivity).
    unfold reset. erewrite bind_ok by exact Hr. cbv iota.
    erewrite bind_ok by exact Hfv.
    erewrite bind_ok by reflexivity. cbn [snd fst].
    erewrite bind_ok by exact Hg.
    unfold store_node, set_state_running, bind, get, modify. reflexivity. }
  cbn. split.
  { unfold entries. cbn. fold (entries (variables_list s1)).
    replace (option_map _ (nodes (variables_list s1))) with
      (option_map (fun ns => list_set ns i
         (NodeTimer (set_in (set_q (set_et t0 0) false) false)))
         (nodes (variables_list s1))) by reflexivity.
    assert (Hf1 : find_index (entries (variables_list s1)) v =
                  Some (i, NodeTimer t0)) by (rewrite Hv1, Hv; exact Hf).
    unfold entries in *.
    destruct (nodes (variables_list s1)) as [ns|]; cbn in *; [|discriminate].
    apply (@find_index_list_set _ _ _ _ _ Hf1). reflexivity. }
  repeat (split; [reflexivity|]).
  split; [|rewrite Hh1, Hh; reflexivity].
  unfold running_of. cbn.
  rewrite find_timer_state_update by reflexivity. rewrite Hfk.
  rewrite nth_error_list_update, Hk. reflexivity.
Qed.






(* ------------------------------------------------------------------ *)
(** ** Timers at rest and without a slot *)
(* ------------------------------------------------------------------ *)

Lemma timer_found v i t0 (s : State) :
  find_index (entries (variables_list s)) v = Some (i, NodeTimer t0) ->
  forall (k : nat * VariableNode -> Timer -> M bool),
    (found <- find_variable v ;;
     node <- deref found ;;
     t <- as_timer (snd node) ;;
     k node t) s = k (i, NodeTimer t0) t0 s.
Proof.
  intros Hf k. unfold find_variable, bind, get, ret, deref.
  rewrite Hf. reflexivity.
Qed.

Lemma timer_stored i t0 t (s s1 : State) v :
  same_store s s1 ->
  find_index (entries (variables_list s)) v = Some (i, NodeTimer t0) ->
  t_base t = t_base t0 ->
  exists s2,
    store_node i (NodeTimer t) s1 = Ok (tt, s2) /\
    find_index (entries (variables_list s2)) v = Some (i, NodeTimer t) /\
    hardware s2 = hardware s /\ same_tables s1 s2 /\
    clock_reads s2 = clock_reads s1.
Proof.
  intros [Hv Hh] Hf Hb.
  destruct (store_node_ok i (NodeTimer t) s1) as (s2 & Hs & He & Hh' & Ht).
  exists s2. split; [exact Hs|]. split; [|split; [congruence|split; [exact Ht|]]].
  - rewrite He, Hv. apply (@find_index_list_set _ _ _ _ _ Hf).
    cbn. rewrite Hb. reflexivity.
  - unfold store_node, bind, get, modify in Hs. inversion Hs. reflexivity.
Qed.

(** X14.  A timer at rest.  With a false condition [timer_on] returns false
    and leaves the timer with IN and Q false and ET zero; with a true
    condition [timer_off] returns true and leaves it with IN and Q true and
    ET zero.  In both cases the table entry of the timer is not running
    afterwards, the preset and the pin hardware are kept, and no clock
    reading is taken. *)
Theorem timers_at_rest
    (v : string) (i : nat) (t0 : Timer) (s : State) :
  String.length v < MAX_VAR_NAME_LENGTH -> timer_slot_available s v ->
  find_index (entries (variables_list s)) v = Some (i, NodeTimer t0) ->
  (exists s' t,
     timer_on v false s = Ok (false, s') /\
     find_index (entries (variables_list s')) v = Some (i, NodeTimer t) /\
     in_ t = false /\ q t = false /\ et t = 0%float /\ pt t = pt t0 /\
     running_of s' v = Some false /\ hardware s' = hardware s /\
     clock_reads s' = clock_reads s) /\
  (exists s' t,
     timer_off v true s = Ok (true, s') /\
     find_index (entries (variables_list s')) v = Some (i, NodeTimer t) /\
     in_ t = true /\ q t = true /\ et t = 0%float /\ pt t = pt t0 /\
     running_of s' v = Some false /\ hardware s' = hardware s /\
     clock_reads s' = clock_reads s).
Proof.
  intros Hlen Hslot Hf.
  destruct (@get_timer_state_entry v s Hlen Hslot)
    as (k & e & s1 & Hg & Hfk & Hk & _ & _ & Hs1 & _ & Hc1).
  assert (Hstop : forall (t : Timer) (out : bool),
    t_base t = t_base t0 ->
    exists s',
      (store_node i (NodeTimer t) ;;; set_state_running k false ;;;
       ret out) s1 = Ok (out, s') /\
      find_index (entries (variables_list s')) v = Some (i, NodeTimer t) /\
      running_of s' v = Some false /\ hardware s' = hardware s /\
      clock_reads s' = clock_reads s).
  { intros t out Hb.
    destruct (@timer_stored i t0 t s s1 v Hs1 Hf Hb)
      as (s2 & Hst & Hf2 & Hh2 & [_ Ht2] & Hc2).
    eexists. split.
    { erewrite bind_ok by exact Hst.
      unfold set_state_running, bind, modify, ret. reflexivity. }
    cbn. split; [exact Hf2|]. split; [|split; [exact Hh2 | congruence]].
    unfold running_of. cbn.
    rewrite find_timer_state_update by reflexivity. rewrite Ht2, Hfk.
    rewrite nth_error_list_update, Hk. reflexivity. }
  split.
  - destruct (PrimFloat.leb (pt t0) 0) eqn:Hpt.
    + destruct (Hstop (set_q (set_et (set_in t0 false) 0) false) false eq_refl)
        as (s' & Hrun & Hf' & Hr' & Hh' & Hc').
      exists s', (set_q (set_et (set_in t0 false) 0) false).
      split; [|split; [exact Hf'|cbn; repeat split; assumption]].
      unfold timer_on. rewrite (@timer_found v i t0 s Hf).
      erewrite bind_ok by exact Hg. cbn [pt set_in]. rewrite Hpt. exact Hrun.
    + destruct (Hstop (set_q (set_et (set_in t0 false) 0) false) false eq_refl)
        as (s' & Hrun & Hf' & Hr' & Hh' & Hc').
      exists s', (set_q (set_et (set_in t0 false) 0) false).
      split; [|split; [exact Hf'|cbn; repeat split; assumption]].
      unfold timer_on. rewrite (@timer_found v i t0 s Hf).
      erewrite bind_ok by exact Hg. cbn [pt set_in]. rewrite Hpt. exact Hrun.
  - destruct (PrimFloat.leb (pt t0) 0) eqn:Hpt.
    + destruct (Hstop (set_q (set_et (set_in t0 true) 0) true) true eq_refl)
        as (s' & Hrun & Hf' & Hr' & Hh' & Hc').
      exists s', (set_q (set_et (set_in t0 true) 0) true).
      split; [|split; [exact Hf'|cbn; repeat split; assumption]].
      unfold timer_off. rewrite (@timer_found v i t0 s Hf).
      erewrite bind_ok by exact Hg. cbn [pt set_in]. rewrite Hpt. exact Hrun.
    + destruct (Hstop (set_et (set_q (set_in t0 true) true) 0) true eq_refl)
        as (s' & Hrun & Hf' & Hr' & Hh' & Hc').
      exists s', (set_et (set_q (set_in t0 true) true) 0).
      split; [|split; [exact Hf'|cbn; repeat split; assumption]].
      unfold timer_off. rewrite (@timer_found v i t0 s Hf).
      erewrite bind_ok by exact Hg. cbn [pt set_in]. rewrite Hpt. exact Hrun.
Qed.

(** X15.  With the timer table full (32 entries) and no entry for the
    name, a timer never runs: [timer_on] and [timer_off] return false
    whatever the condition, an off-delay timer with a true condition
    included, and [reset] on an edge leaves the timer as it is; none of them
    changes the variable store, the hardware or the timer table. *)
Theorem full_timer_table_disables_timer
    (v : string) (i : nat) (t0 : Timer) (condition : bool) (s : State) :
  find_timer_state (timer_states s) v = None ->
  MAX_TIMER_STATES <= List.length (timer_states s) ->
  find_index (entries (variables_list s)) v = Some (i, NodeTimer t0) ->
  timer_on v condition s = Ok (false, s) /\
  timer_off v condition s = Ok (false, s) /\
  exists s', reset v condition s = Ok (tt, s') /\ same_store s s' /\
             timer_states s' = timer_states s.
Proof.
  intros Hfk Hfull Hf.
  assert (Hg : forall s1, timer_states s1 = timer_states s ->
                          get_timer_state v s1 = Ok (None, s1)).
  { intros s1 Ht. apply Nat.ltb_ge in Hfull.
    unfold get_timer_state, bind, get, ret. rewrite Ht, Hfk, Hfull.
    reflexivity. }
  split; [|split].
  - unfold timer_on. rewrite (@timer_found v i t0 s Hf).
    erewrite bind_ok by (apply Hg; reflexivity). reflexivity.
  - unfold timer_off. rewrite (@timer_found v i t0 s Hf).
    erewrite bind_ok by (apply Hg; reflexivity). reflexivity.
  - destruct (r_trig v condition s) as [[fired s0]| |] eqn:Hr.
    + pose proof (@r_trig_same_store v condition s fired s0 Hr) as Hs.
      pose proof (@r_trig_same_timers v condition s fired s0 Hr) as [Ht _].
      exists s0. split; [|split; [exact Hs | exact Ht]].
      unfold reset. erewrite bind_ok by exact Hr.
      destruct fired; [|reflexivity].
      destruct Hs as [Hv _].
      assert (Hfv : find_variable v s0 = Ok (Some (i, NodeTimer t0), s0))
        by (unfold find_variable, bind, get, ret; rewrite Hv, Hf; reflexivity).
      erewrite bind_ok by exact Hfv.
      erewrite bind_ok by reflexivity. cbn [snd fst].
      erewrite bind_ok by (apply Hg; exact Ht). reflexivity.
    + exfalso. revert Hr.
      unfold r_trig, get_one_shot_state, load_prev_state, store_prev_state,
        bind, get, ret, modify, deref.
      destruct (find_one_shot (one_shot_states s) v) as [j|] eqn:Hj.
      * destruct (@find_one_shot_some _ _ _ Hj) as (e & He & _).
        cbn. rewrite He. discriminate.
      * destruct (_ <? _)%nat; cbn; [|discriminate].
        rewrite nth_error_app2 by lia. rewrite Nat.sub_diag. discriminate.
    + exfalso. revert Hr.
      unfold r_trig, get_one_shot_state, load_prev_state, store_prev_state,
        bind, get, ret, modify, deref.
      destruct (find_one_shot (one_shot_states s) v) as [j|] eqn:Hj.
      * destruct (@find_one_shot_some _ _ _ Hj) as (e & He & _).
        cbn. rewrite He. discriminate.
      * destruct (_ <? _)%nat; cbn; [|discriminate].
        rewrite nth_error_app2 by lia. rewrite Nat.sub_diag. discriminate.
Qed.

(* ------------------------------------------------------------------ *)
(** ** The wire interpreter *)
(* ------------------------------------------------------------------ *)

(** X16.  The elements that [process_node] does not run.  A coil that is
    met in the series, that is, anywhere but at the end of its node list,
    and any element without a first string argument, are skipped: the node
    returns the running condition as it is and nothing is written. *)
Theorem coil_in_series_is_skipped
    (fuel : nat) (node : option cJSON) (element_type : string)
    (var1 var2 var3 : option string) (condition : bool) (s : State) :
  ladder_element node element_type var1 var2 var3 ->
  is_coil_type element_type = true \/ var1 = None ->
  process_node (S fuel) node condition s = Ok (condition, s).
Proof.
  intros Hel Hskip.
  rewrite (@process_node_element fuel node element_type var1 var2 var3
             condition Hel).
  destruct Hskip as [Hcoil | ->].
  - unfold is_coil_type in Hcoil.
    repeat (apply orb_true_iff in Hcoil; destruct Hcoil as [Hcoil | Hcoil]);
      apply String.eqb_eq in Hcoil; subst element_type; reflexivity.
  - unfold process_element. cbn [is_some andb].
    rewrite !andb_false_r. reflexivity.
Qed.

Lemma firstn_app_exact {A} (l : list A) (x : A) :
  firstn (List.length (l ++ [x]) - 1) (l ++ [x]) = l.
Proof.
  rewrite length_app. cbn. rewrite Nat.add_sub.
  rewrite firstn_app, Nat.sub_diag, firstn_all. cbn. apply app_nil_r.
Qed.

Lemma nth_error_last {A} (l : list A) (x : A) :
  nth_error (l ++ [x]) (List.length (l ++ [x]) - 1) = Some x.
Proof.
  rewrite length_app. cbn. rewrite Nat.add_sub.
  rewrite nth_error_app2 by lia. rewrite Nat.sub_diag. reflexivity.
Qed.

(** X17.  One scan of a wire.  The condition starts as true and is handed
    from node to node in the order of the list.  When the last node is one
    of the four coils it is kept out of the series and driven once, after
    the series, with the condition the series ended with, true or false;
    otherwise every node runs in the series and no coil is driven. *)
Theorem scan_runs_series_then_last_coil
    (fuel : nat) (wire : option cJSON) (nodes : list cJSON) (last : cJSON)
    (s : State) :
  cJSON_GetObjectItem wire "Nodes" = Some (cJSON_Array (nodes ++ [last])) ->
  scan_wire fuel wire s =
  if is_last_coil (Some last) then
    (condition <- process_series (process_node fuel) nodes true ;;
     process_coil (Some last) condition) s
  else
    (process_series (process_node fuel) (nodes ++ [last]) true ;;; ret tt) s.
Proof.
  intros Hn. unfold scan_wire, process_nodes, process_nodes_with.
  rewrite Hn. cbn [cJSON_IsArray negb].
  unfold cJSON_GetArraySize, cJSON_GetArrayItem. cbn [cJSON_children].
  assert (Hlen : (List.length (nodes ++ [last]) =? 0)%nat = false)
    by (apply Nat.eqb_neq; rewrite length_app; cbn; lia).
  rewrite Hlen, nth_error_last.
  destruct (is_last_coil (Some last)) eqn:Hc.
  - rewrite firstn_app_exact. unfold bind.
    destruct (process_series (process_node fuel) nodes true s)
      as [[c s1]| |]; reflexivity.
  - rewrite firstn_all. unfold bind.
    destruct (process_series (process_node fuel) (nodes ++ [last]) true s)
      as [[c s1]| |]; reflexivity.
Qed.

(** X18.  A branch runs its two arms the same way whatever condition
    reaches it: each arm starts from true, so the elements and the coils of
    the arms act although the rung before the branch is false; the incoming
    condition is only ANDed into the value the branch returns. *)
Theorem branch_arms_ignore_incoming_condition
    (fuel : nat) (node : option cJSON) (condition : bool) (s : State) :
  cJSON_GetObjectItem node "Type" = Some (cJSON_String "Branch") ->
  process_node (S fuel) node condition s =
  (r <- process_node (S fuel) node true ;; ret (condition && r)) s.
Proof.
  intros Hty. cbn [process_node]. rewrite Hty.
  destruct (negb (cJSON_IsObject node)).
  { unfold bind, ret. rewrite andb_false_r. reflexivity. }
  cbn [streq String.eqb Ascii.eqb Bool.eqb].
  change (streq "Branch" "LadderElement") with false.
  change (streq "Branch" "Branch") with true. cbv iota.
  destruct (negb (cJSON_IsArray (cJSON_GetObjectItem node "Nodes1")) ||
            negb (cJSON_IsArray (cJSON_GetObjectItem node "Nodes2"))).
  { unfold bind, ret. rewrite andb_false_r. reflexivity. }
  unfold bind.
  destruct (process_nodes_with (process_node fuel)
              (cJSON_GetObjectItem node "Nodes1") true s)
    as [[[[a1 c1] k1] s1]| |]; try reflexivity.
  destruct (process_nodes_with (process_node fuel)
              (cJSON_GetObjectItem node "Nodes2") true s1)
    as [[[[a2 c2] k2] s2]| |]; try reflexivity.
  destruct ((if is_some k1 && c1 then process_coil k1 c1 else ret tt) s2)
    as [[[] s3]| |]; try reflexivity.
  destruct ((if is_some k2 && c2 then process_coil k2 c2 else ret tt) s3)
    as [[[] s4]| |]; try reflexivity.
Qed.

(* ------------------------------------------------------------------ *)
(** ** What a scan keeps: from the elements to the wire *)
(* ------------------------------------------------------------------ *)

(** A reflexive and transitive relation kept by the accessors and by the
    elements that store into the tables is kept by every node, node list
    and wire scan. *)
Section ScanLift.

Variable R : State -> State -> Prop.
Hypothesis Rrefl : forall s, R s s.
Hypothesis Rtrans : forall s1 s2 s3, R s1 s2 -> R s2 s3 -> R s1 s3.
Hypothesis Rread : forall v, Preserves R (read_variable v).
Hypothesis Rread_numeric : forall v, Preserves R (read_numeric_variable v).
Hypothesis Rwrite : forall v b, Preserves R (write_variable v b).
Hypothesis Rwrite_numeric :
  forall v x, Preserves R (write_numeric_variable v x).
Hypothesis Rtrig : forall v c, Preserves R (r_trig v c).
Hypothesis Rpulse : forall v c, Preserves R (one_shot_positive_coil v c).
Hypothesis Rcount_up : forall v c, Preserves R (count_up v c).
Hypothesis Rcount_down : forall v c, Preserves R (count_down v c).
Hypothesis Rreset : forall v c, Preserves R (reset v c).
Hypothesis Rtimer_on : forall v c, Preserves R (timer_on v c).
Hypothesis Rtimer_off : forall v c, Preserves R (timer_off v c).

#[local] Hint Resolve Rread Rread_numeric Rwrite Rwrite_numeric Rtrig Rpulse
  Rcount_up Rcount_down Rreset Rtimer_on Rtimer_off : frames.

Ltac lift := repeat first [ solve [auto with frames]
                          | frame_step Rrefl Rtrans ].

Lemma process_coil_lift node c : Preserves R (process_coil node c).
Proof.
  unfold process_coil, coil, set_coil, reset_coil. lift.
Qed.

Lemma process_element_lift et v1 v2 v3 c :
  Preserves R (process_element et v1 v2 v3 c).
Proof.
  unfold process_element; cbv beta zeta.
  unfold no_contact, nc_contact, greater, less, greater_or_equal,
    less_or_equal, equal, not_equal, compare_with, add, subtract, multiply,
    divide, move.
  lift.
Qed.

Lemma process_series_lift pn items :
  (forall node c, Preserves R (pn node c)) ->
  forall c, Preserves R (process_series pn items c).
Proof.
  intros Hpn; induction items as [|node rest IH]; intros c; simpl; lift.
Qed.

Lemma process_nodes_with_lift pn nodes c :
  (forall node c, Preserves R (pn node c)) ->
  Preserves R (process_nodes_with pn nodes c).
Proof.
  intros Hpn; unfold process_nodes_with.
  lift; try (apply process_series_lift; exact Hpn).
Qed.

Lemma process_node_lift fuel :
  forall node c, Preserves R (process_node fuel node c).
Proof.
  induction fuel as [|fuel IH]; intros node c; simpl.
  - intros s a s' H; discriminate.
  - pose proof process_coil_lift. pose proof process_element_lift.
    lift; try (apply process_nodes_with_lift; exact IH).
Qed.

Lemma scan_wire_lift fuel wire : Preserves R (scan_wire fuel wire).
Proof.
  unfold scan_wire, process_nodes.
  pose proof process_coil_lift.
  lift; try (apply process_nodes_with_lift; apply process_node_lift).
Qed.

End ScanLift.

(* ------------------------------------------------------------------ *)
(** ** The engine tables stay within their arrays *)
(* ------------------------------------------------------------------ *)

Lemma keeps_bounds_refl s : keeps_bounds s s.
Proof. intros H; exact H. Qed.

Lemma keeps_bounds_trans s1 s2 s3 :
  keeps_bounds s1 s2 -> keeps_bounds s2 s3 -> keeps_bounds s1 s3.
Proof. unfold keeps_bounds; auto. Qed.

Lemma same_tables_keeps_bounds s s' : same_tables s s' -> keeps_bounds s s'.
Proof.
  intros [Ho Ht]. unfold keeps_bounds, tables_bounded. rewrite Ho, Ht. auto.
Qed.

Lemma length_list_update {A} (l : list A) i f :
  List.length (list_update l i f) = List.length l.
Proof.
  revert i; induction l as [|h t IH]; intros [|i]; simpl; auto.
Qed.

Section Bounds.

Lemma same_tables_bounds_lift {A} (m : M A) :
  Preserves same_tables m -> Preserves keeps_bounds m.
Proof. apply preserves_weaken; exact same_tables_keeps_bounds. Qed.
#[local] Hint Resolve same_tables_bounds_lift : frames.

Ltac bounds := repeat first [ solve [auto with frames]
                            | frame_step keeps_bounds_refl keeps_bounds_trans ].

Lemma get_one_shot_state_bounds v :
  Preserves keeps_bounds (get_one_shot_state v).
Proof.
  intros s a s' H.
  unfold get_one_shot_state, bind, get, modify, ret in H.
  destruct (find_one_shot _ _); [inversion H; subst; apply keeps_bounds_refl|].
  destruct (_ <? _)%nat eqn:Hroom; inversion H; subst;
    [|apply keeps_bounds_refl].
  apply Nat.ltb_lt in Hroom. intros [Ho Ht]. split; cbn; [|exact Ht].
  rewrite length_app. cbn. lia.
Qed.

Lemma get_timer_state_bounds v :
  Preserves keeps_bounds (get_timer_state v).
Proof.
  intros s a s' H.
  unfold get_timer_state, bind, get, modify, ret in H.
  destruct (find_timer_state _ _); [inversion H; subst; apply keeps_bounds_refl|].
  destruct (_ <? _)%nat eqn:Hroom; inversion H; subst;
    [|apply keeps_bounds_refl].
  apply Nat.ltb_lt in Hroom. intros [Ho Ht]. split; cbn; [exact Ho|].
  rewrite length_app. cbn. lia.
Qed.

Lemma store_prev_state_bounds i v :
  Preserves keeps_bounds (store_prev_state i v).
Proof.
  unfold store_prev_state.
  apply preserves_modify; intros s0 [Ho Ht]; split; cbn;
    rewrite ?length_list_update; assumption.
Qed.

Lemma set_state_running_bounds k r :
  Preserves keeps_bounds (set_state_running k r).
Proof.
  unfold set_state_running.
  apply preserves_modify; intros s0 [Ho Ht]; split; cbn;
    rewrite ?length_list_update; assumption.
Qed.

Lemma set_state_started_bounds k now :
  Preserves keeps_bounds (set_state_started k now).
Proof.
  unfold set_state_started.
  apply preserves_modify; intros s0 [Ho Ht]; split; cbn;
    rewrite ?length_list_update; assumption.
Qed.

#[local] Hint Resolve get_one_shot_state_bounds get_timer_state_bounds
  store_prev_state_bounds set_state_running_bounds set_state_started_bounds
  : frames.

Lemma scan_wire_bounds fuel wire : Preserves keeps_bounds (scan_wire fuel wire).
Proof.
  apply scan_wire_lift;
    try exact keeps_bounds_refl; try exact keeps_bounds_trans; intros;
    unfold one_shot_positive_coil, count_up, count_down, reset,
      timer_on, timer_off;
    unfold r_trig, load_prev_state, as_counter, as_timer,
      state_running, state_start_time;
    bounds.
Qed.

End Bounds.

(** X19.  The two engine tables never outgrow their arrays: from a state
    whose edge table has at most 64 entries and whose timer table has at
    most 32, every wire scan and every call of [configure] ends in such a
    state, whatever the wire and the bytes are. *)
Theorem engine_tables_stay_within_their_arrays
    (env : ConfigEnv) (loaded_from_nvs : bool) (data : list ascii)
    (fuel : nat) (wire : option cJSON) (s : State) :
  tables_bounded s ->
  (forall s', scan_wire fuel wire s = Ok (tt, s') -> tables_bounded s') /\
  (forall s', configure env loaded_from_nvs data s = Ok (tt, s') ->
              tables_bounded s').
Proof.
  intros Hb. split; intros s' H.
  - exact (@scan_wire_bounds fuel wire s tt s' H Hb).
  - apply (@same_tables_keeps_bounds s s'); [|exact Hb].
    exact (@configure_same_tables env loaded_from_nvs data s tt s' H).
Qed.

(* ------------------------------------------------------------------ *)
(** ** The variables a store has are fixed by the load *)
(* ------------------------------------------------------------------ *)

Lemma same_skeleton_refl s : same_skeleton s s.
Proof. split; reflexivity. Qed.


Lemma same_variables_refl s : same_variables s s.
Proof. reflexivity. Qed.

Lemma same_variables_trans s1 s2 s3 :
  same_variables s1 s2 -> same_variables s2 s3 -> same_variables s1 s3.
Proof. unfold same_variables; congruence. Qed.

Lemma same_variables_skeleton s s' : same_variables s s' -> same_skeleton s s'.
Proof. unfold same_variables, same_skeleton. intros ->. split; reflexivity. Qed.

Lemma same_store_skeleton s s' : same_store s s' -> same_skeleton s s'.
Proof. intros [H _]. apply same_variables_skeleton; exact H. Qed.








Section Skeleton.

Lemma same_variables_at {A} i sk (m : M A) :
  Preserves same_variables m -> Preserves (keeps_skeleton_at i sk) m.
Proof.
  apply preserves_weaken. intros s s' H _.
  apply same_variables_skeleton; exact H.
Qed.

Lemma same_variables_lift {A} (m : M A) :
  Preserves same_variables m -> Preserves same_skeleton m.
Proof. apply preserves_weaken; exact same_variables_skeleton. Qed.

Ltac vars := repeat first [ solve [auto with frames]
                          | frame_step same_variables_refl
                              same_variables_trans ].

Lemma get_one_shot_state_variables v :
  Preserves same_variables (get_one_shot_state v).
Proof. unfold get_one_shot_state. vars. Qed.

Lemma load_prev_state_variables i :
  Preserves same_variables (load_prev_state i).
Proof. unfold load_prev_state. vars. Qed.

Lemma store_prev_state_variables i b :
  Preserves same_variables (store_prev_state i b).
Proof. unfold store_prev_state. vars. Qed.

Lemma get_timer_state_variables v :
  Preserves same_variables (get_timer_state v).
Proof. unfold get_timer_state. vars. Qed.

Lemma state_running_variables k : Preserves same_variables (state_running k).
Proof. unfold state_running. vars. Qed.

Lemma state_start_time_variables k :
  Preserves same_variables (state_start_time k).
Proof. unfold state_start_time. vars. Qed.

Lemma set_state_running_variables k r :
  Preserves same_variables (set_state_running k r).
Proof. unfold set_state_running. vars. Qed.

Lemma set_state_started_variables k now :
  Preserves same_variables (set_state_started k now).
Proof. unfold set_state_started. vars. Qed.

Lemma esp_timer_get_time_variables :
  Preserves same_variables esp_timer_get_time.
Proof. unfold esp_timer_get_time. vars. Qed.

#[local] Hint Resolve get_one_shot_state_variables load_prev_state_variables
  store_prev_state_variables get_timer_state_variables
  state_running_variables state_start_time_variables
  set_state_running_variables set_state_started_variables
  esp_timer_get_time_variables : frames.

Lemma r_trig_variables v c : Preserves same_variables (r_trig v c).
Proof. unfold r_trig. vars. Qed.

#[local] Hint Resolve r_trig_variables same_variables_at same_variables_lift
  : frames.








End Skeleton.


(* ------------------------------------------------------------------ *)
(** ** The monitor snapshot and the load *)
(* ------------------------------------------------------------------ *)

Lemma snapshot_members_loads env i node (s : State) :
  (forall key, member_added env i key = true) ->
  program_variable node = true ->
  exists members,
    snapshot_members env i node s = Ok (members, s) /\
    loads_as (cJSON_Object members) node.
Proof.
  intros Hadd Hpv. unfold program_variable in Hpv.
  apply andb_true_iff in Hpv. destruct Hpv as [Hty Hkind].
  destruct node as [d|d|d|d|d|d|d|d]; try discriminate Hkind;
    cbn [node_base node_type] in Hty.
  all: destruct d as [[nm ty] ?]; cbn [type b_base n_base c_base t_base
                                        time_base] in Hty.
  all: eexists; split;
    [unfold snapshot_members, add_member; rewrite !Hadd; reflexivity|].
  all: exists ty, nm.
  all: split; [vm_compute; reflexivity|]; split; [vm_compute; reflexivity|].
  all: intros lenv s0; destruct (var_type_of ty); try discriminate Hty.
  all: repeat match goal with b : bool |- _ => destruct b end;
    vm_compute; reflexivity.
Qed.

Lemma snapshot_entries_loads env ns :
  (forall i, create_object_ok env i = true) ->
  (forall i key, member_added env i key = true) ->
  forallb program_variable ns = true ->
  forall i (s : State),
  exists items,
    snapshot_entries env ns i s = Ok (items, s) /\
    Forall2 loads_as items ns.
Proof.
  intros Hobj Hadd. induction ns as [|node rest IH]; intros Hpv i s.
  - exists []. split; [reflexivity | constructor].
  - cbn in Hpv. apply andb_true_iff in Hpv. destruct Hpv as [Hn Hrest].
    destruct (@snapshot_members_loads env i node s (Hadd i) Hn)
      as (members & Hm & Hl).
    destruct (IH Hrest (S i) s) as (items & Hi & Hf).
    exists (cJSON_Object members :: items). split.
    + cbn. rewrite Hobj. erewrite bind_ok by exact Hm.
      erewrite bind_ok by exact Hi. reflexivity.
    + constructor; assumption.
Qed.



Lemma variables_list_free_runs (s : State) :
  exists s1, variables_list_free s = Ok (tt, s1) /\ same_tables s s1 /\
             hardware s1 = hardware s.
Proof.
  unfold variables_list_free, bind, get, modify.
  destruct (nodes (variables_list s)); eexists; split; try reflexivity;
    split; try reflexivity; split; reflexivity.
Qed.



Lemma snapshot_members_pure env i node :
  Preserves eq (snapshot_members env i node).
Proof.
  pose proof read_variable_pure. pose proof read_numeric_variable_pure.
  unfold snapshot_members.
  frame (@eq_refl State) (@eq_trans State).
Qed.

Lemma snapshot_entries_pure env ns :
  forall i, Preserves eq (snapshot_entries env ns i).
Proof.
  pose proof (snapshot_members_pure env).
  induction ns as [|n rest IH]; intros i; cbn [snapshot_entries];
    frame (@eq_refl State) (@eq_trans State).
Qed.

(** The objects of the nodes after a prefix of the store follow the objects
    of the prefix. *)
Lemma snapshot_entries_app env pre rest :
  (forall i, create_object_ok env i = true) ->
  forall i (s : State) items s1,
    snapshot_entries env (pre ++ rest)%list i s = Ok (items, s1) ->
    exists ip irest,
      snapshot_entries env pre i s = Ok (ip, s) /\
      snapshot_entries env rest (i + List.length pre) s = Ok (irest, s) /\
      items = (ip ++ irest)%list /\ s1 = s.
Proof.
  intros Hobj. induction pre as [|n pre IH]; intros i s items s1 H.
  - cbn in H. rewrite Nat.add_0_r.
    assert (s = s1) by (eapply snapshot_entries_pure; exact H). subst s1.
    exists [], items. repeat split; auto.
  - cbn [app snapshot_entries] in H. rewrite Hobj in H.
    apply bind_inv in H. destruct H as (members & sa & Hm & H).
    assert (s = sa) by (eapply snapshot_members_pure; exact Hm). subst sa.
    apply bind_inv in H. destruct H as (tail & sb & Ht & H).
    inversion H; subst items s1; clear H.
    destruct (IH (S i) s tail sb Ht) as (ip & irest & Hp & Hr & -> & ->).
    exists (cJSON_Object members :: ip), irest.
    split; [|split; [|split; reflexivity]].
    + cbn [snapshot_entries]. rewrite Hobj.
      erewrite bind_ok by exact Hm. erewrite bind_ok by exact Hp.
      reflexivity.
    + cbn [List.length]. rewrite Nat.add_succ_r. exact Hr.
Qed.

(** Entries that load as given nodes, followed by further entries. *)
Lemma load_entries_prefix env items ns rest :
  (forall i, alloc_ok env i = true) ->
  Forall2 loads_as items ns ->
  forall i (s : State) acc,
    nodes (variables_list s) = Some acc ->
    exists s1,
      load_entries env (items ++ rest)%list i s =
        load_entries env rest (i + List.length items) s1 /\
      nodes (variables_list s1) = Some (acc ++ ns)%list.
Proof.
  intros Halloc Hf. induction Hf as [|item node items ns Hl Hf IH];
    intros i s acc Hacc.
  - exists s. cbn. rewrite Nat.add_0_r, app_nil_r. split; auto.
  - destruct Hl as (ty & nm & Hty & Hnm & Hb).
    set (s1 := set_variables_list
                 {| nodes := Some (acc ++ [node])%list;
                    capacity := capacity (variables_list s) |} s).
    destruct (IH (S i) s1 (acc ++ [node])%list eq_refl) as (s' & Hrun & Hn).
    exists s'. split.
    + cbn [load_entries app]. unfold bind at 1. rewrite Hty. cbn [deref ret].
      unfold bind at 1. rewrite Hnm. cbn [deref ret].
      unfold bind at 1. cbn [valuestring deref ret].
      rewrite Halloc. unfold bind at 1. rewrite Hb.
      unfold variables_list_add, bind, get, deref, ret, modify.
      rewrite Hacc. cbn [List.length]. rewrite Nat.add_succ_r. exact Hrun.
    + rewrite Hn, <- app_assoc. reflexivity.
Qed.

(** X22.  The monitor snapshot of an ADC sensor cannot be loaded.
    [read_variables_json] writes the sensor type under the key
    ["SensorType"], while [load_variables] reads it under ["Sensor Type"]
    and dereferences what the lookup returns: when the store holds an ADC
    sensor after program variables, loading the array the snapshot built
    runs into that dereference of [NULL] at the entry of the sensor. *)
Theorem adc_sensor_snapshot_does_not_load
    (jenv : JsonEnv) (lenv : LoadEnv) (pre post : list VariableNode)
    (adcs : ADCSensor) (json : cJSON) (s s1 s0 : State) :
  json_env_ok jenv -> load_env_ample lenv ->
  entries (variables_list s) = (pre ++ NodeADCSensor adcs :: post)%list ->
  forallb program_variable pre = true ->
  type (adcs_base adcs) = "ADC Sensor" ->
  read_variables_json jenv s = Ok (Some json, s1) ->
  load_variables lenv (Some json) s0 = Fault.
Proof.
  intros (Hroot & Hobj & Hadd & Hprint) (Hcalloc & Halloc) He Hpv Hty Hread.
  unfold read_variables_json in Hread. rewrite Hroot in Hread.
  cbn [negb] in Hread. unfold bind, get in Hread. cbv beta iota in Hread.
  rewrite He in Hread.
  destruct (snapshot_entries jenv (pre ++ NodeADCSensor adcs :: post)%list 0 s)
    as [[items sa]| |] eqn:Hsnap; try discriminate Hread.
  rewrite Hprint in Hread. inversion Hread; subst json s1; clear Hread.
  destruct (@snapshot_entries_app jenv pre (NodeADCSensor adcs :: post) Hobj
              0 s items sa Hsnap) as (ip & irest & Hp & Hr & -> & ->).
  destruct (@snapshot_entries_loads jenv pre Hobj Hadd Hpv 0 s)
    as (ip' & Hp' & Hloads).
  rewrite Hp in Hp'. inversion Hp'; subst ip'; clear Hp'.
  cbn [snapshot_entries] in Hr. rewrite Hobj in Hr.
  apply bind_inv in Hr. destruct Hr as (members & sb & Hm & Hr).
  apply bind_inv in Hr. destruct Hr as (tail & sc & _ & Hr).
  inversion Hr; subst irest; clear Hr.
  unfold snapshot_members, add_member in Hm. rewrite !Hadd in Hm.
  inversion Hm; subst members sb; clear Hm.
  destruct (variables_list_free_runs s0) as (s2 & Hfree & _ & _).
  unfold load_variables. erewrite bind_ok by exact Hfree.
  unfold variables_list_init. erewrite bind_ok by reflexivity.
  rewrite Hcalloc. erewrite bind_ok by reflexivity.
  cbn [cJSON_children].
  match goal with
  | |- bind (load_entries _ (_ ++ ?rest)%list _) _ ?st = _ =>
      destruct (@load_entries_prefix lenv ip pre rest Halloc Hloads 0 st []
                  eq_refl)
        as (s3 & Hrun & Hn)
  end.
  unfold bind at 1. rewrite Hrun. clear Hrun.
  destruct adcs as [[nm ty] st sck dt lo hi g sr v]. cbn in Hty. subst ty.
  cbn [load_entries]. rewrite Halloc.
  vm_compute. reflexivity.
Qed.

(* ------------------------------------------------------------------ *)
(** ** Variables shared between devices *)
(* ------------------------------------------------------------------ *)

Lemma skeleton_update_node json n : skeleton (update_node json n) = skeleton n.
Proof.
  destruct n; try reflexivity; unfold update_node.
  - destruct (cJSON_IsBool _); reflexivity.
  - destruct (cJSON_GetObjectItem (Some json) _) as [item|]; [|reflexivity].
    destruct (cJSON_IsNumber _); reflexivity.
Qed.

Lemma update_node_others json n :
  is_shared n = false -> update_node json n = n.
Proof. destruct n; cbn; intros H; try discriminate H; reflexivity. Qed.

(** X23.  [update_variables_from_children] changes values of Booleans and
    Numbers only.  It always returns; with bytes that do not parse it
    changes nothing at all; otherwise the store keeps its variables, their
    order, names, type strings, kinds and capacity, every variable that is
    neither a Boolean nor a Number is exactly as it was, and the engine
    tables and the pin hardware are untouched. *)
Theorem children_update_changes_shared_values_only
    (json_str : list ascii) (s : State) :
  exists s',
    update_variables_from_children json_str s = Ok (tt, s') /\
    (cJSON_Parse json_str = None -> s' = s) /\
    same_skeleton s s' /\ same_tables s s' /\ hardware s' = hardware s /\
    (forall i n, nth_error (entries (variables_list s)) i = Some n ->
                 is_shared n = false ->
                 nth_error (entries (variables_list s')) i = Some n).
Proof.
  unfold update_variables_from_children.
  destruct (cJSON_Parse json_str) as [json|].
  - eexists. split; [reflexivity|]. cbn.
    split; [discriminate|].
    split; [|split; [split; reflexivity|split; [reflexivity|]]].
    + split; [|reflexivity]. cbn.
      destruct (nodes (variables_list s)) as [ns|]; cbn; [|reflexivity].
      rewrite map_map. f_equal. apply map_ext. intros n.
      apply skeleton_update_node.
    + intros i n Hn Hs. unfold entries in *. cbn.
      destruct (nodes (variables_list s)) as [ns|]; cbn in *;
        [|destruct i; discriminate Hn].
      rewrite nth_error_map, Hn. cbn. rewrite (update_node_others json n Hs).
      reflexivity.
  - exists s. split; [reflexivity|]. split; [reflexivity|].
    split; [apply same_skeleton_refl|].
    split; [split; reflexivity|]. split; [reflexivity|]. auto.
Qed.

(** The member a name finds in the message is the value of the first shared
    variable of that name, case ignored. *)
Lemma children_members_lookup env nm :
  (forall i key, member_added env i key = true) ->
  forall ns i0 j n,
    nth_error ns j = Some n -> is_shared n = true ->
    case_insensitive_eq nm (name (node_base n)) = true ->
    (forall k m, k < j -> nth_error ns k = Some m -> is_shared m = true ->
                 case_insensitive_eq nm (name (node_base m)) = false) ->
    get_object_item (children_members env ns i0) nm =
    Some match n with
         | NodeBoolean b => cJSON_CreateBool (b_value b)
         | NodeNumber x => cJSON_Number (n_value x)
         | _ => cJSON_NULL
         end.
Proof.
  intros Hadd. induction ns as [|h t IH]; intros i0 j n Hn Hs Heq Hfirst.
  - destruct j; discriminate Hn.
  - destruct j as [|j].
    + cbn in Hn. inversion Hn; subst h. cbn [children_members].
      destruct n; try discriminate Hs; unfold add_member; rewrite Hadd;
        cbn [node_base] in Heq; cbn [app get_object_item]; rewrite Heq;
        reflexivity.
    + cbn in Hn.
      assert (Hrest : get_object_item (children_members env t (S i0)) nm =
                      Some match n with
                           | NodeBoolean b => cJSON_CreateBool (b_value b)
                           | NodeNumber x => cJSON_Number (n_value x)
                           | _ => cJSON_NULL
                           end).
      { apply (IH (S i0) j n Hn Hs Heq). intros k m Hk Hm Hsm.
        apply (Hfirst (S k) m); [lia | exact Hm | exact Hsm]. }
      cbn [children_members].
      destruct h; cbn [app]; try exact Hrest;
        unfold add_member; rewrite Hadd; cbn [app get_object_item];
        pose proof (Hfirst 0 _ (Nat.lt_0_succ j) eq_refl eq_refl) as H0;
        cbn [node_base] in H0; rewrite H0; exact Hrest.
Qed.

Lemma children_members_no_match env nm :
  forall ns i0,
    (forall m, In m ns -> is_shared m = true ->
               case_insensitive_eq nm (name (node_base m)) = false) ->
    get_object_item (children_members env ns i0) nm = None.
Proof.
  induction ns as [|h t IH]; intros i0 Hno; [reflexivity|].
  assert (Hrest : get_object_item (children_members env t (S i0)) nm = None)
    by (apply IH; intros m Hm; apply Hno; right; exact Hm).
  cbn [children_members].
  destruct h; cbn [app]; try exact Hrest;
    unfold add_member; destruct (member_added env i0 _); cbn [app];
    try exact Hrest; cbn [get_object_item];
    pose proof (Hno _ (or_introl eq_refl) eq_refl) as H0;
    cbn [node_base] in H0; rewrite H0; exact Hrest.
Qed.

Lemma update_node_takes json pn sent :
  cJSON_GetObjectItem (Some json) (name (node_base pn)) =
    Some match sent with
         | NodeBoolean b => cJSON_CreateBool (b_value b)
         | NodeNumber x => cJSON_Number (n_value x)
         | _ => cJSON_NULL
         end ->
  update_node json pn = takes_value_of pn sent.
Proof.
  intros H. destruct pn; cbn in H |- *; try reflexivity; rewrite H.
  - destruct sent; try reflexivity. cbn. destruct (b_value data0); reflexivity.
  - destruct sent; try reflexivity. cbn. destruct (b_value data0); reflexivity.
Qed.

(** X24.  From child to parent.  With every allocation served,
    [send_variables_to_parents] changes nothing and builds one object; when
    the receiving device parses the published bytes into that object,
    [update_variables_from_children] gives each of its variables the value
    of the first Boolean or Number of the sender whose name equals its own,
    case ignored: a Boolean takes the value of a Boolean, a Number that of a
    Number, and in every other pairing, or when the sender shares no variable
    of that name, the variable stays as it was. *)
Theorem shared_values_reach_the_parent
    (jenv : JsonEnv) (child : State) :
  json_env_ok jenv ->
  exists message,
    send_variables_to_parents jenv child = Ok (Some message, child) /\
    forall (text : list ascii) (parent : State),
      cJSON_Parse text = Some message ->
      exists parent',
        update_variables_from_children text parent = Ok (tt, parent') /\
        (forall i pn j sent,
           nth_error (entries (variables_list parent)) i = Some pn ->
           nth_error (entries (variables_list child)) j = Some sent ->
           is_shared sent = true ->
           case_insensitive_eq (name (node_base pn))
             (name (node_base sent)) = true ->
           (forall k m, k < j ->
              nth_error (entries (variables_list child)) k = Some m ->
              is_shared m = true ->
              case_insensitive_eq (name (node_base pn))
                (name (node_base m)) = false) ->
           nth_error (entries (variables_list parent')) i =
             Some (takes_value_of pn sent)) /\
        (forall i pn,
           nth_error (entries (variables_list parent)) i = Some pn ->
           (forall m, In m (entries (variables_list child)) ->
              is_shared m = true ->
              case_insensitive_eq (name (node_base pn))
                (name (node_base m)) = false) ->
           nth_error (entries (variables_list parent')) i = Some pn).
Proof.
  intros (Hroot & _ & Hadd & Hprint).
  eexists. split.
  { unfold send_variables_to_parents, bind, get. rewrite Hroot, Hprint.
    reflexivity. }
  intros text parent Hparse.
  unfold update_variables_from_children. rewrite Hparse.
  eexists. split; [reflexivity|]. cbn.
  assert (Hnth : forall i pn,
    nth_error (entries (variables_list parent)) i = Some pn ->
    nth_error
      (entries
         {| nodes := option_map
                       (map (update_node
                          (cJSON_Object
                             (children_members jenv
                                (entries (variables_list child)) 0))))
                       (nodes (variables_list parent));
            capacity := capacity (variables_list parent) |}) i =
    Some (update_node
            (cJSON_Object
               (children_members jenv (entries (variables_list child)) 0))
            pn)).
  { intros i pn Hn. unfold entries in *. cbn.
    destruct (nodes (variables_list parent)) as [ns|]; cbn in *;
      [|destruct i; discriminate Hn].
    rewrite nth_error_map, Hn. reflexivity. }
  split.
  - intros i pn j sent Hpn Hsent Hs Heq Hfirst.
    rewrite (Hnth i pn Hpn). f_equal.
    apply update_node_takes. cbn [cJSON_GetObjectItem].
    exact (@children_members_lookup jenv (name (node_base pn)) Hadd
             (entries (variables_list child)) 0 j sent Hsent Hs Heq Hfirst).
  - intros i pn Hpn Hno.
    rewrite (Hnth i pn Hpn). f_equal.
    pose proof (@children_members_no_match jenv (name (node_base pn))
                  (entries (variables_list child)) 0 Hno) as Hnone.
    destruct pn; try reflexivity; cbn [node_base] in Hnone;
      unfold update_node; cbn [cJSON_GetObjectItem]; rewrite Hnone;
      reflexivity.
Qed.

End Proofs.

(* ================================================================== *)
(** * The statements on the bench *)
(* ================================================================== *)

Section OnBench.

#[local] Existing Instance Bench.platform.

Import Bench.

(** ** C1 *)

(** After a first table was loaded, the second allocation of the next load
    fails: the load returns [false] and the store is the empty one. *)
Lemma failed_load_on_bench :
  load_variables load_env_ok one_boolean boot = Ok (true, kept) /\
  exists s', load_variables (heap_for 1) two_booleans kept = Ok (false, s') /\
             variables_list s' = empty_list.
Proof.
  split; [vm_compute; reflexivity|].
  eexists. split.
  - vm_compute. reflexivity.
  - apply (@failed_load_leaves_empty_store platform (heap_for 1)
             two_booleans kept).
    vm_compute. reflexivity.
Defined.

(** The store of the earlier configuration is not restored by the failing
    load: the variable it held is gone, and reading it faults. *)
Lemma failed_load_does_not_restore :
  load_variables load_env_ok one_boolean boot = Ok (true, kept) /\
  entries (variables_list kept) = [boolean "keep" true] /\
  read_variable "keep" kept = Ok (true, kept) /\
  exists s', load_variables (heap_for 1) two_booleans kept = Ok (false, s') /\
             entries (variables_list s') = [] /\
             variables_list s' <> variables_list kept /\
             read_variable "keep" s' = Fault.
Proof.
  split; [vm_compute; reflexivity|].
  split; [vm_compute; reflexivity|].
  split; [vm_compute; reflexivity|].
  eexists. split; [vm_compute; reflexivity|].
  repeat split; try (vm_compute; reflexivity).
  vm_compute. discriminate.
Qed.

(** ** C2 *)

(** The bench document is applied, its wire is scanned once, and the
    document is applied again. *)
Lemma tables_outlive_apply_on_bench :
  exists s1 s2 s3,
    configure config_env_ok false bench_text boot = Ok (tt, s1) /\
    scan_wire 5 (Some pulse_wire) s1 = Ok (tt, s2) /\
    tables_grow s1 s2 /\
    configure config_env_ok false bench_text s2 = Ok (tt, s3) /\
    same_tables s2 s3.
Proof.
  eexists. eexists. eexists.
  split; [vm_compute; reflexivity|].
  split; [vm_compute; reflexivity|].
  split.
  - eapply (proj2 (@engine_tables_outlive_apply_and_scan platform
                     config_env_ok false bench_text 5 (Some pulse_wire) _)).
    vm_compute. reflexivity.
  - split; [vm_compute; reflexivity|].
    eapply (proj1 (@engine_tables_outlive_apply_and_scan platform
                     config_env_ok false bench_text 5 (Some pulse_wire) _)).
    vm_compute. reflexivity.
Defined.

(** The second apply loads the store afresh and starts the wire task, but
    leaves both engine tables as the scan before it left them: the edge of
    "b" and the running timer "T1" of the program before are still there,
    and the next scan continues the old run of the timer. *)
Lemma apply_does_not_reset_tables :
  exists s1 s2 s3 s4,
    configure config_env_ok false bench_text boot = Ok (tt, s1) /\
    scan_wire 5 (Some pulse_wire) s1 = Ok (tt, s2) /\
    configure config_env_ok false bench_text s2 = Ok (tt, s3) /\
    entries (variables_list s3) = bench_store /\
    tasks s3 = bench_tasks /\
    one_shot_states s3 = edge_of_b /\
    timer_states s3 = timer_of_T1 /\
    scan_wire 5 (Some pulse_wire) s3 = Ok (tt, s4) /\
    entries (variables_list s4) =
      [boolean "b" false; timer "T1" 5000 2000 true false].
Proof.
  eexists. eexists. eexists. eexists.
  split; [vm_compute; reflexivity|].
  split; [vm_compute; reflexivity|].
  split; [vm_compute; reflexivity|].
  repeat split; vm_compute; reflexivity.
Qed.

(** ** C3 *)

Lemma loaded_counter_on_bench :
  exists var,
    In var (cJSON_children one_counter) /\
    counter_entry var loaded_counter /\
    (counter_flags_ok loaded_counter <->
     (field_true var "QU" =
        PrimFloat.leb (pv loaded_counter) (cv loaded_counter) /\
      field_true var "QD" = PrimFloat.leb (cv loaded_counter) 0)).
Proof.
  eapply (@loaded_counters_copy_their_entries platform load_env_ok
            one_counter boot _ loaded_counter).
  - vm_compute. reflexivity.
  - vm_compute. left. reflexivity.
Defined.

(** A counter entry with [CV] above [PV] and no ["QU"] member loads with
    [qu = false]. *)
Lemma loaded_counter_flags_not_derived :
  exists s',
    load_variables load_env_ok one_counter boot = Ok (true, s') /\
    entries (variables_list s') = [NodeCounter loaded_counter] /\
    PrimFloat.leb (pv loaded_counter) (cv loaded_counter) = true /\
    qu loaded_counter = false.
Proof.
  eexists. split; [vm_compute; reflexivity|].
  repeat split; vm_compute; reflexivity.
Qed.

(** ** C4 *)

Lemma numeric_field_read_as_boolean :
  (read_variable "C1.PV" mixed = Ok (false, mixed) /\
   write_variable "C1.PV" true mixed = Ok (tt, mixed)) /\
  (read_variable "b.CU" mixed = Ok (true, mixed) /\
   write_variable "b.CU" false mixed =
     store_node 0 (boolean "b" false) mixed).
Proof.
  split.
  - refine (proj1 (@mismatched_boolean_access_is_inert platform "C1.PV" "C1"
                     (Some ".PV") 2 (counter "C1" 5 0 false true) true mixed
                     _ _) _);
      vm_compute; reflexivity.
  - refine (proj2 (@mismatched_boolean_access_is_inert platform "b.CU" "b"
                     (Some ".CU") 0 (boolean "b" true) false mixed _ _)
              {| b_base := {| name := "b"; type := "Boolean" |};
                 b_value := true |} _);
      vm_compute; reflexivity.
Defined.

(** An unknown name, a counter without a suffix and a name with an unknown
    suffix fault, in the read and in the write; a flag addressed with a
    suffix of another kind is read and written as the flag itself. *)
Lemma boolean_access_faults_or_ignores_suffix :
  find_index (entries (variables_list mixed)) "nope" = None /\
  read_variable "nope" mixed = Fault /\
  write_variable "nope" true mixed = Fault /\
  read_variable "C1" mixed = Fault /\
  write_variable "C1" true mixed = Fault /\
  read_variable "b.XY" mixed = Fault /\
  read_variable "b.CU" mixed = Ok (true, mixed) /\
  (exists s', write_variable "b.CU" false mixed = Ok (tt, s') /\
              read_variable "b" s' = Ok (false, s')).
Proof.
  repeat split; try (vm_compute; reflexivity).
  eexists. split; vm_compute; reflexivity.
Qed.

(** ** C5 *)

Lemma contacts_on_bench :
  (no_contact "b" mixed = omap negb (read_variable "b" mixed) /\
   nc_contact "b" mixed = omap (fun r => r) (read_variable "b" mixed) /\
   process_node 1 (Some (element "NOContact" ["b"])) true mixed =
     omap (fun r => true && negb r) (read_variable "b" mixed) /\
   process_node 1 (Some (element "NCContact" ["b"])) true mixed =
     omap (fun r => true && r) (read_variable "b" mixed)) /\
  read_variable "b" mixed = Ok (true, mixed) /\
  no_contact "b" mixed = Ok (false, mixed) /\
  nc_contact "b" mixed = Ok (true, mixed).
Proof.
  split.
  - apply (@contacts_return_inverted_reading platform
             (Some (element "NOContact" ["b"]))
             (Some (element "NCContact" ["b"])) "b" None None None None
             0 true mixed);
      repeat split; reflexivity.
  - repeat split; vm_compute; reflexivity.
Defined.

(** ** C6 *)

Lemma timers_in_a_series_on_bench :
  (process_node 1 (Some (element "OnDelayTimer" ["T1"])) false mixed =
     omap (fun q => false && q) (timer_on "T1" false mixed) /\
   process_node 1 (Some (element "OffDelayTimer" ["T1"])) false mixed =
     omap (fun q => q) (timer_off "T1" false mixed)) /\
  (exists s', timer_off "T2" false mixed = Ok (true, s') /\
              process_node 1 (Some (element "OffDelayTimer" ["T2"]))
                false mixed = Ok (true, s')).
Proof.
  split.
  - apply (@on_delay_ands_off_delay_overwrites platform
             (Some (element "OnDelayTimer" ["T1"]))
             (Some (element "OffDelayTimer" ["T1"])) "T1" None None None None
             0 false mixed);
      repeat split; reflexivity.
  - eexists. split; vm_compute; reflexivity.
Defined.


(** ** C7 *)

Lemma division_by_zero_on_bench :
  divide "a" "b" "c" true operands = Ok (tt, edge_seen) /\
  same_store operands edge_seen /\
  (forall x, value_of (read_numeric_variable x edge_seen) =
             value_of (read_numeric_variable x operands)).
Proof.
  apply (@divide_by_near_zero_writes_nothing platform "a" "b" "c" true
           operands edge_seen edge_seen edge_seen 6 0);
    vm_compute; reflexivity.
Defined.

(** ** C8 *)

Lemma bench_clock_monotone : clock_monotone.
Proof. intros n m H. cbn. lia. Qed.

(** A timer loaded with an elapsed time above its preset is clamped by its
    first run. *)
Lemma stale_timer_clamped_by_run :
  exists out s',
    timer_on "T1" true stale_timer = Ok (out, s') /\
    (exists t,
       find_index (entries (variables_list s')) "T1" = Some (1, NodeTimer t) /\
       pt t = 100%float /\ in_ t = true /\ q t = out /\
       timer_et_in_range t) /\
    timers_started_in_past s'.
Proof.
  eexists. eexists. split; [vm_compute; reflexivity|].
  apply (@timer_run_clamps_elapsed_time platform "T1" true true stale_timer
           _ 1 {| t_base := {| name := "T1"; type := "Timer" |};
                  pt := 100; et := 500; in_ := true; q := false |}).
  - exact bench_clock_monotone.
  - intros e [].
  - right. cbn. unfold MAX_TIMER_STATES. lia.
  - vm_compute. reflexivity.
  - vm_compute. reflexivity.
  - left. vm_compute. reflexivity.
Defined.

(** A configuration whose timer entry has [ET] above [PT] is accepted, and
    a scan of a wire that does not run the timer leaves it so: the input
    flag is set, the preset is positive and the elapsed time is above it. *)
Lemma loaded_timer_outside_its_range :
  exists s1 s2 t,
    load_variables load_env_ok timer_and_flag boot = Ok (true, s1) /\
    scan_wire 5 (Some flag_wire) s1 = Ok (tt, s2) /\
    find_index (entries (variables_list s2)) "T1" = Some (1, NodeTimer t) /\
    in_ t = true /\
    PrimFloat.ltb 0 (pt t) = true /\
    PrimFloat.leb (et t) (pt t) = false.
Proof.
  eexists. eexists. eexists.
  split; [vm_compute; reflexivity|].
  split; [vm_compute; reflexivity|].
  split; [vm_compute; reflexivity|].
  repeat split; vm_compute; reflexivity.
Qed.

(** ** C10 *)




(** ** C9 *)

Lemma prefix_is_firstn {A} (l p q : list A) :
  l = p ++ q -> q <> [] ->
  p = firstn (List.length p) l /\ List.length p < List.length l.
Proof.
  intros -> Hq. split.
  - rewrite firstn_app, firstn_all, Nat.sub_diag. cbn.
    rewrite app_nil_r. reflexivity.
  - rewrite length_app. destruct q; [congruence | cbn; lia].
Qed.

(** The parser of the bench accepts [bench_text] with a line feed after it,
    and nothing shorter. *)
Lemma bench_document_valid : valid_document bench_text newline bench_json.
Proof.
  split; [|split].
  - intros p q Hpq Hq.
    destruct (@prefix_is_firstn _ _ _ _ Hpq Hq) as [Hp Hlen]. rewrite Hp.
    assert (Hall : forallb
              (fun k => negb (is_some (cJSON_Parse (c_str (firstn k bench_text)))))
              (seq 0 (List.length bench_text)) = true)
      by (vm_compute; reflexivity).
    rewrite forallb_forall in Hall.
    assert (Hin : In (List.length p) (seq 0 (List.length bench_text)))
      by (apply in_seq; lia).
    specialize (Hall _ Hin).
    destruct (cJSON_Parse (c_str (firstn (List.length p) bench_text)));
      [discriminate Hall | reflexivity].
  - intros x y H. destruct x as [|a [|b x]].
    + vm_compute. reflexivity.
    + injection H as <- _. vm_compute. reflexivity.
    + destruct x; discriminate H.
  - intros x y z H. destruct x as [|a [|b x]].
    + destruct y as [|c [|d y]].
      * vm_compute. reflexivity.
      * injection H as <- _. vm_compute. reflexivity.
      * destruct y; discriminate H.
    + destruct y as [|c y]; [vm_compute; reflexivity|].
      destruct y; discriminate H.
    + destruct x; discriminate H.
Qed.

(** The document delivered in four chunks and in one. *)
Lemma chunked_ingestion_on_bench :
  program_of (run_chunks config_env_ok false bench_chunks boot) =
  program_of (configure config_env_ok false (bench_text ++ newline) boot) /\
  program_of (run_chunks config_env_ok false bench_chunks boot) =
  Ok ([], {| nodes := Some bench_store; capacity := 2 |}, bench_tasks).
Proof.
  split.
  - apply (@chunked_ingestion_applies_same_program platform config_env_ok
             false bench_text newline bench_json bench_chunks boot).
    + exact bench_document_valid.
    + split; reflexivity.
    + vm_compute. reflexivity.
  - vm_compute. reflexivity.
Defined.

(* ------------------------------------------------------------------ *)
(** * Further properties on the bench *)
(* ------------------------------------------------------------------ *)

(** ** Names and accessors *)

Lemma dotted_base_splits_on_bench :
  parse_variable_name ("Tank.level" ++ ".CV")%string MAX_VAR_NAME_LENGTH =
    Some ("Tank.level", Some ".CV") /\
  "Tank.level.CV" = ("Tank.level" ++ ".CV")%string /\
  recognized_suffix ".CV" = true /\
  String.length "Tank.level" < MAX_VAR_NAME_LENGTH.
Proof.
  destruct (parse_variable_name_splits_at_suffix "Tank.level.CV" "Tank.level"
              ".CV" MAX_VAR_NAME_LENGTH) as [Hsplit Hback].
  split.
  - apply Hsplit; [reflexivity | unfold MAX_VAR_NAME_LENGTH; cbn; lia].
  - apply Hback. reflexivity.
Defined.


Lemma first_of_two_found_on_bench :
  duplicates = duplicates /\
  nth_error (entries (variables_list duplicates)) 0 = Some (boolean "d" true) /\
  name (node_base (boolean "d" true)) = "d" /\
  forall j m, j < 0 ->
              nth_error (entries (variables_list duplicates)) j = Some m ->
              name (node_base m) <> "d".
Proof.
  apply (@find_variable_returns_first_of_name platform "d" duplicates
           duplicates (Some (0, boolean "d" true))).
  reflexivity.
Defined.

Lemma counter_flag_written_on_bench :
  exists s',
    write_variable "C1.CU" true mixed = Ok (tt, s') /\
    read_variable "C1.CU" s' = Ok (true, s') /\
    same_tables mixed s' /\ hardware s' = hardware mixed /\
    map node_base (entries (variables_list s')) =
      map node_base (entries (variables_list mixed)) /\
    (forall other,
       value_of (read_numeric_variable other s') =
       value_of (read_numeric_variable other mixed)) /\
    (forall other base' sfx',
       parse_variable_name other MAX_VAR_NAME_LENGTH = Some (base', sfx') ->
       base' <> "C1" \/
         (sfx' <> Some ".CU" /\
          single_valued (counter "C1" 5 0 false true) = false) ->
       value_of (read_variable other s') =
       value_of (read_variable other mixed)).
Proof.
  apply (@boolean_write_then_read platform "C1.CU" "C1" (Some ".CU") 2
           (counter "C1" 5 0 false true) true mixed); reflexivity.
Defined.

Lemma counter_value_written_on_bench :
  exists s',
    write_numeric_variable "C1.CV" 7 mixed = Ok (tt, s') /\
    read_numeric_variable "C1.CV" s' = Ok (7%float, s') /\
    same_tables mixed s' /\ hardware s' = hardware mixed /\
    map node_base (entries (variables_list s')) =
      map node_base (entries (variables_list mixed)) /\
    (forall other,
       value_of (read_variable other s') =
       value_of (read_variable other mixed)) /\
    (forall other base' sfx',
       parse_variable_name other MAX_VAR_NAME_LENGTH = Some (base', sfx') ->
       base' <> "C1" \/
         (sfx' <> Some ".CV" /\
          single_valued (counter "C1" 5 0 false true) = false) ->
       value_of (read_numeric_variable other s') =
       value_of (read_numeric_variable other mixed)).
Proof.
  apply (@numeric_write_then_read platform "C1.CV" "C1" (Some ".CV") 2
           (counter "C1" 5 0 false true) 7%float mixed); reflexivity.
Defined.

(** ** Edges *)

Lemma first_edge_on_bench :
  exists s',
    r_trig "b" true mixed = Ok (true, s') /\
    f_trig "b" true mixed = Ok (false, s') /\
    prev_of s' "b" = Some true /\ same_store mixed s' /\
    r_trig "b" true s' = Ok (false, s') /\
    f_trig "b" true s' = Ok (false, s').
Proof.
  apply (@edge_detectors_compare_with_last_condition platform "b" true mixed).
  - unfold MAX_VAR_NAME_LENGTH. cbn. lia.
  - right. unfold MAX_ONE_SHOT_STATES. cbn. lia.
Defined.

Lemma full_edge_table_on_bench :
  r_trig "C1" true full_edges = Ok (false, full_edges) /\
  f_trig "C1" true full_edges = Ok (false, full_edges) /\
  one_shot_positive_coil "C1" true full_edges = Ok (tt, full_edges) /\
  add "n" "n" "C1" true full_edges = Ok (tt, full_edges) /\
  subtract "n" "n" "C1" true full_edges = Ok (tt, full_edges) /\
  multiply "n" "n" "C1" true full_edges = Ok (tt, full_edges) /\
  divide "n" "n" "C1" true full_edges = Ok (tt, full_edges) /\
  count_up "C1" true full_edges = Ok (tt, full_edges) /\
  count_down "C1" true full_edges = Ok (tt, full_edges) /\
  reset "C1" true full_edges = Ok (tt, full_edges).
Proof.
  apply (@full_edge_table_disables_edge_elements platform "n" "n" "C1" true
           full_edges).
  - reflexivity.
  - vm_compute. lia.
Defined.

Lemma reset_after_count_on_bench :
  exists s1,
    count_up "C1" true mixed = Ok (tt, s1) /\
    count_up "C1" true s1 = Ok (tt, s1) /\
    count_down "C1" true s1 = Ok (tt, s1) /\
    reset "C1" true s1 = Ok (tt, s1).
Proof.
  eexists. split; [reflexivity|].
  eapply (@edge_is_consumed_by_first_element platform "C1" mixed).
  - unfold MAX_VAR_NAME_LENGTH. cbn. lia.
  - left. reflexivity.
Defined.

(** ** Elements on a rising edge *)


Lemma reset_without_direction_on_bench :
  exists s' c,
    reset "C1" true mixed = Ok (tt, s') /\
    find_index (entries (variables_list s')) "C1" = Some (2, NodeCounter c) /\
    cv c = 0%float /\ pv c = 5%float /\ cu c = false /\ cd c = false /\
    (false || false = true -> counter_flags_ok c) /\
    (false || false = false ->
     c = {| c_base := {| name := "C1"; type := "Counter" |};
            pv := 5; cv := 0; cu := false; cd := false;
            qu := false; qd := true |} /\
     variables_list s' = variables_list mixed) /\
    hardware s' = hardware mixed.
Proof.
  apply (@reset_loads_counter_by_direction platform "C1" 2
           {| c_base := {| name := "C1"; type := "Counter" |};
              pv := 5; cv := 0; cu := false; cd := false;
              qu := false; qd := true |} mixed).
  - unfold MAX_VAR_NAME_LENGTH. cbn. lia.
  - right. split; [reflexivity | unfold MAX_ONE_SHOT_STATES; cbn; lia].
  - reflexivity.
Defined.

Lemma reset_of_timer_on_bench :
  exists s' t,
    reset "T2" true mixed = Ok (tt, s') /\
    find_index (entries (variables_list s')) "T2" = Some (4, NodeTimer t) /\
    et t = 0%float /\ q t = false /\ in_ t = false /\ pt t = 5000%float /\
    running_of s' "T2" = Some false /\ hardware s' = hardware mixed.
Proof.
  apply (@reset_clears_timer platform "T2" 4
           {| t_base := {| name := "T2"; type := "Timer" |};
              pt := 5000; et := 0; in_ := true; q := true |} mixed).
  - unfold MAX_VAR_NAME_LENGTH. cbn. lia.
  - right. split; [reflexivity | unfold MAX_ONE_SHOT_STATES; cbn; lia].
  - right. unfold MAX_TIMER_STATES. cbn. lia.
  - reflexivity.
Defined.



(** ** Timers *)

Lemma timers_at_rest_on_bench :
  (exists s' t,
     timer_on "T2" false mixed = Ok (false, s') /\
     find_index (entries (variables_list s')) "T2" = Some (4, NodeTimer t) /\
     in_ t = false /\ q t = false /\ et t = 0%float /\ pt t = 5000%float /\
     running_of s' "T2" = Some false /\ hardware s' = hardware mixed /\
     clock_reads s' = clock_reads mixed) /\
  (exists s' t,
     timer_off "T2" true mixed = Ok (true, s') /\
     find_index (entries (variables_list s')) "T2" = Some (4, NodeTimer t) /\
     in_ t = true /\ q t = true /\ et t = 0%float /\ pt t = 5000%float /\
     running_of s' "T2" = Some false /\ hardware s' = hardware mixed /\
     clock_reads s' = clock_reads mixed).
Proof.
  apply (@timers_at_rest platform "T2" 4
           {| t_base := {| name := "T2"; type := "Timer" |};
              pt := 5000; et := 0; in_ := true; q := true |} mixed).
  - unfold MAX_VAR_NAME_LENGTH. cbn. lia.
  - right. unfold MAX_TIMER_STATES. cbn. lia.
  - reflexivity.
Defined.

Lemma full_timer_table_on_bench :
  timer_on "T2" true full_timers = Ok (false, full_timers) /\
  timer_off "T2" true full_timers = Ok (false, full_timers) /\
  exists s', reset "T2" true full_timers = Ok (tt, s') /\
             same_store full_timers s' /\
             timer_states s' = timer_states full_timers.
Proof.
  apply (@full_timer_table_disables_timer platform "T2" 4
           {| t_base := {| name := "T2"; type := "Timer" |};
              pt := 5000; et := 0; in_ := true; q := true |} true full_timers).
  - reflexivity.
  - vm_compute. lia.
  - reflexivity.
Defined.


(** ** The interpreter *)

Lemma coil_in_series_on_bench :
  process_node 1 (Some (element "Coil" ["b"])) false mixed =
    Ok (false, mixed).
Proof.
  apply (@coil_in_series_is_skipped platform 0 (Some (element "Coil" ["b"]))
           "Coil" (Some "b") None None false mixed).
  - exact (ladder_element_element "Coil" ["b"]).
  - left. reflexivity.
Defined.

Lemma pulse_wire_scan_on_bench :
  scan_wire 5 (Some pulse_wire) mixed =
  if is_last_coil (Some (element "OneShotPositiveCoil" ["b"])) then
    (condition <- process_series (process_node 5)
                    [element "NCContact" ["b"];
                     element "OnDelayTimer" ["T1"]] true ;;
     process_coil (Some (element "OneShotPositiveCoil" ["b"])) condition)
      mixed
  else
    (process_series (process_node 5)
       ([element "NCContact" ["b"]; element "OnDelayTimer" ["T1"]] ++
        [element "OneShotPositiveCoil" ["b"]]) true ;;; ret tt) mixed.
Proof.
  apply (@scan_runs_series_then_last_coil platform 5 (Some pulse_wire)
           [element "NCContact" ["b"]; element "OnDelayTimer" ["T1"]]
           (element "OneShotPositiveCoil" ["b"]) mixed).
  reflexivity.
Defined.

(** The coil in the arm of the branch is driven although the condition that
    reaches the branch is false. *)
Lemma coil_in_branch_on_bench :
  process_node 3 (Some coil_branch) false
    (with_variables [boolean "b" false] boot) =
  (r <- process_node 3 (Some coil_branch) true ;; ret (false && r))
    (with_variables [boolean "b" false] boot) /\
  process_node 3 (Some coil_branch) false
    (with_variables [boolean "b" false] boot) =
    Ok (false, with_variables [boolean "b" true] boot).
Proof.
  split.
  - apply (@branch_arms_ignore_incoming_condition platform 2
             (Some coil_branch) false (with_variables [boolean "b" false] boot)).
    reflexivity.
  - vm_compute. reflexivity.
Defined.

Lemma tables_within_arrays_on_bench :
  (forall s', scan_wire 5 (Some pulse_wire) full_edges = Ok (tt, s') ->
              tables_bounded s') /\
  (forall s', configure config_env_ok false bench_text full_edges =
                Ok (tt, s') ->
              tables_bounded s').
Proof.
  apply (@engine_tables_stay_within_their_arrays platform config_env_ok false
           bench_text 5 (Some pulse_wire) full_edges).
  split; vm_compute; lia.
Defined.



(** ** Snapshot, load and shared variables *)


Lemma sensor_snapshot_faults_on_bench :
  exists json,
    read_variables_json json_env_all with_sensor =
      Ok (Some json, with_sensor) /\
    load_variables load_env_ok (Some json) boot = Fault.
Proof.
  eexists. split; [cbv; reflexivity|].
  eapply (@adc_sensor_snapshot_does_not_load platform json_env_all
            load_env_ok [boolean "b" true] []
            {| adcs_base := {| name := "W1"; type := "ADC Sensor" |};
               sensor_type := "TM7711"; pd_sck := "IO4"; dout := "IO5";
               map_low := 0; map_high := 100; gain := 1;
               sampling_rate := "10Hz"; adcs_value := 0 |}
            _ with_sensor with_sensor boot).
  - repeat split.
  - split; [reflexivity | intros i; reflexivity].
  - reflexivity.
  - reflexivity.
  - reflexivity.
  - reflexivity.
Defined.

(** The flag "B" of the parent takes the value of the flag "b" of the
    child, the number "n" that of the number "n", and the flag "n" of the
    parent, which meets the number of the child, stays. *)
Lemma shared_values_on_bench :
  @cJSON_Parse parent_device sync_text = Some sync_message /\
  exists parent',
    @update_variables_from_children parent_device sync_text receiver =
      Ok (tt, parent') /\
    nth_error (entries (variables_list parent')) 0 =
      Some (takes_value_of (boolean "B" false) (boolean "b" true)) /\
    nth_error (entries (variables_list parent')) 1 =
      Some (takes_value_of (number "n" 0) (number "n" 5)) /\
    nth_error (entries (variables_list parent')) 2 =
      Some (takes_value_of (boolean "n" false) (number "n" 5)).
Proof.
  split; [reflexivity|].
  destruct (@shared_values_reach_the_parent parent_device json_env_all sender)
    as (message & Hsend & Hsync).
  - repeat split.
  - assert (Hm : message = sync_message)
      by (vm_compute in Hsend; vm_compute; congruence).
    destruct (Hsync sync_text receiver) as (parent' & Hup & Hfirst & _).
    + rewrite Hm. reflexivity.
    + exists parent'. split; [exact Hup|].
      split; [|split].
      * apply (Hfirst 0 _ 0 _); try reflexivity. intros k m Hk. lia.
      * apply (Hfirst 1 _ 1 _); try reflexivity.
        intros [|k] m Hk Hn Hs; [inversion Hn; reflexivity | lia].
      * apply (Hfirst 2 _ 1 _); try reflexivity.
        intros [|k] m Hk Hn Hs; [inversion Hn; reflexivity | lia].
Defined.

End OnBench.
